(** * quadas_agent: the grounding-and-repair pipeline of [main.py]

    A shallow embedding of the pure core of [src/main.py]: the line
    indexer [number_lines], the evidence resolver
    [extract_evidence_from_line_ids], the JSON salvager [must_json] and the
    assembly of the verified evidence object inside [main].

    Python values are modelled as follows.
    - [str] is a list of Unicode code points ([N]).
    - [int] is [Z]; a [dict] keyed by line identifiers is a [gmap Z str].
    - a value decoded from JSON is a [pyval]; a JSON object keeps its pairs
      in insertion order; a float keeps its lexeme, and what the program
      needs of its value is a parameter ([PyRuntime]).
    - an exception is a [Raise] outcome of the [result] type; what [print]
      writes is returned next to the outcome. *)

From Stdlib Require Import ZArith NArith List Ascii String Decimal DecimalZ Lia.
From stdpp Require Import base option list gmap.

Local Open Scope Z_scope.

(** ** Python strings *)

Abbreviation str := (list N) (only parsing).

(** The code points of an ASCII literal. *)
Definition py (s : string) : str :=
  map N_of_ascii (list_ascii_of_string s).

Definition NL : N := 10.       (* "\n" *)
Definition DQUOTE : N := 34.   (* the double quote *)
Definition LBRACE : N := 123.  (* "{" *)
Definition RBRACE : N := 125.  (* "}" *)

(** The code points of an ASCII literal in which every apostrophe stands for
    a double quote; used to write JSON texts. *)
Definition jq (s : string) : str :=
  map (fun c => if (c =? 39)%N then DQUOTE else c) (py s).

(** [str.isspace] on one code point (CPython's [_PyUnicode_IsWhitespace]). *)
Definition isspace (c : N) : bool :=
  ((9 <=? c) && (c <=? 13) || (28 <=? c) && (c <=? 32)
   || (c =? 133) || (c =? 160) || (c =? 5760)
   || (8192 <=? c) && (c <=? 8202)
   || (c =? 8232) || (c =? 8233) || (c =? 8239) || (c =? 8287)
   || (c =? 12288))%N.

Fixpoint lstrip (s : str) : str :=
  match s with
  | c :: s' => if isspace c then lstrip s' else s
  | [] => []
  end.

Definition rstrip (s : str) : str := rev (lstrip (rev s)).

(** [s.strip()] *)
Definition strip (s : str) : str := rstrip (lstrip s).

(** [s.split(sep)] for a one-character separator: never the empty list. *)
Fixpoint split (sep : N) (s : str) : list str :=
  match s with
  | [] => [[]]
  | c :: s' =>
      if (c =? sep)%N then [] :: split sep s'
      else match split sep s' with
           | l :: ls => (c :: l) :: ls
           | [] => [[c]]
           end
  end.

(** [sep.join(l)] *)
Fixpoint join (sep : str) (l : list str) : str :=
  match l with
  | [] => []
  | [x] => x
  | x :: l' => x ++ sep ++ join sep l'
  end.

(** [s.startswith(p)] *)
Fixpoint startswith (s p : str) : bool :=
  match p, s with
  | [], _ => true
  | a :: p', b :: s' => (a =? b)%N && startswith s' p'
  | _ :: _, [] => false
  end.

(** [c in s] for a one-character [c]. *)
Definition contains (s : str) (c : N) : bool := existsb (N.eqb c) s.

(** [s.find(c)] for a one-character [c], when [c] occurs in [s]. *)
Fixpoint find (s : str) (c : N) : option nat :=
  match s with
  | [] => None
  | x :: s' => if (x =? c)%N then Some O else S <$> find s' c
  end.

(** [s[a:b]] for [0 <= a <= b]. *)
Definition slice (s : str) (a b : nat) : str := take (b - a) (drop a s).

(** [str(i)] for an [int], as the f-strings format it. *)
Fixpoint uint_digits (d : Decimal.uint) : str :=
  (match d with
   | Nil => []
   | D0 d => 48 :: uint_digits d
   | D1 d => 49 :: uint_digits d
   | D2 d => 50 :: uint_digits d
   | D3 d => 51 :: uint_digits d
   | D4 d => 52 :: uint_digits d
   | D5 d => 53 :: uint_digits d
   | D6 d => 54 :: uint_digits d
   | D7 d => 55 :: uint_digits d
   | D8 d => 56 :: uint_digits d
   | D9 d => 57 :: uint_digits d
   end)%N.

Definition str_of_int (z : Z) : str :=
  match Z.to_int z with
  | Decimal.Pos d => uint_digits d
  | Decimal.Neg d => 45%N :: uint_digits d
  end.

(** [enumerate(l, start)] *)
Fixpoint enumerate {A} (l : list A) (start : Z) : list (Z * A) :=
  match l with
  | [] => []
  | x :: l' => (start, x) :: enumerate l' (start + 1)
  end.

Arguments py : simpl never.
Arguments jq : simpl never.
Arguments str_of_int : simpl never.

(** ** LineIndexer: [number_lines] (main.py, lines 30-44) *)

Definition line_prefix (i : Z) : str :=
  py "[LINE_" ++ str_of_int i ++ py "] ".

(** One turn of the [for] loop: append the rendered line, bind the
    identifier to the stripped line. *)
Definition number_lines_step (st : list str * gmap Z str) (il : Z * str)
  : list str * gmap Z str :=
  let '(numbered_lines, line_map) := st in
  let '(i, line) := il in
  (numbered_lines ++ [line_prefix i ++ line], <[i := strip line]> line_map).

Definition number_lines (text : str) : str * gmap Z str :=
  let lines := split NL text in
  let '(numbered_lines, line_map) :=
    foldl number_lines_step ([], ∅) (enumerate lines 1) in
  (join [NL] numbered_lines, line_map).

(** ** Python values and exceptions *)

(** A value decoded from JSON.  A float keeps the lexeme Python builds it
    from ([float(lexeme)]); a dict keeps its pairs in insertion order. *)
#[warnings="-register-all"]
Inductive pyval : Type :=
| PNone
| PBool (b : bool)
| PInt (z : Z)
| PFloat (lexeme : str)
| PStr (s : str)
| PList (items : list pyval)
| PDict (pairs : list (str * pyval)).

Inductive exception : Type :=
| JSONDecodeError (msg : str)
| RecursionError
| ValueError
| StopIteration
| TypeError
| AttributeError.

Inductive result (A : Type) : Type :=
| Ok (a : A)
| Raise (e : exception).
Arguments Ok {A} a.
Arguments Raise {A} e.

#[export] Instance result_ret : MRet result := fun A a => Ok a.
#[export] Instance result_bind : MBind result := fun A B f m =>
  match m with
  | Ok a => f a
  | Raise e => Raise e
  end.

(** [d[key] = value] on the pairs of a dict: a key already present keeps its
    place and takes the new value. *)
Fixpoint dict_set (pairs : list (str * pyval)) (key : str) (value : pyval)
  : list (str * pyval) :=
  match pairs with
  | [] => [(key, value)]
  | (k, v) :: pairs' =>
      if decide (k = key) then (k, value) :: pairs'
      else (k, v) :: dict_set pairs' key value
  end.

Fixpoint dict_lookup (pairs : list (str * pyval)) (key : str) : option pyval :=
  match pairs with
  | [] => None
  | (k, v) :: pairs' => if decide (k = key) then Some v else dict_lookup pairs' key
  end.

(** ** [json.loads] (CPython's [json.decoder] and [json.scanner], default
    hooks, strict mode)

    The decoder works on the text that remains to be read.  A
    [JSONDecodeError] keeps the decoder's message template and drops the
    position.  The recursive functions take [fuel], of which [loads] gives
    them more than a text of its length can use.  This is the decoder
    without the interpreter's own limits (recursion depth, length of an
    integer literal); [json_limited] below is the decoder with them. *)
Module json.

Definition is_ws (c : N) : bool :=
  ((c =? 32) || (c =? 9) || (c =? 10) || (c =? 13))%N.

Fixpoint skip_ws (s : str) : str :=
  match s with
  | c :: s' => if is_ws c then skip_ws s' else s
  | [] => []
  end.

Definition is_digit (c : N) : bool := ((48 <=? c) && (c <=? 57))%N.

Definition hex_digit (c : N) : option N :=
  (if is_digit c then Some (c - 48)
   else if (97 <=? c) && (c <=? 102) then Some (c - 87)
   else if (65 <=? c) && (c <=? 70) then Some (c - 55)
   else None)%N.

Definition hex4 (a b c d : N) : option N :=
  a ← hex_digit a; b ← hex_digit b; c ← hex_digit c; d ← hex_digit d;
  Some (((a * 16 + b) * 16 + c) * 16 + d)%N.

(** The [BACKSLASH] table of the decoder. *)
Definition backslash (esc : N) : option N :=
  (if esc =? 34 then Some 34
   else if esc =? 92 then Some 92
   else if esc =? 47 then Some 47
   else if esc =? 98 then Some 8
   else if esc =? 102 then Some 12
   else if esc =? 110 then Some 10
   else if esc =? 114 then Some 13
   else if esc =? 116 then Some 9
   else None)%N.

Definition unterminated : exception :=
  JSONDecodeError (py "Unterminated string starting at").
Definition invalid_uXXXX : exception :=
  JSONDecodeError (py "Invalid \uXXXX escape").

(** [scanstring] (the C scanner, [scanstring_unicode]): [s] starts right
    after the opening quote; the result is the decoded string and the text
    after the closing quote.  A uXXXX escape must be followed by at least
    one more character of the text, and a high surrogate is paired only
    with a low-surrogate escape that is itself followed by one. *)
Fixpoint scanstring (s : str) : result (str * str) :=
  match s with
  | [] => Raise unterminated
  | c :: s1 =>
      if (c =? 34)%N then Ok ([], s1)
      else if (c =? 92)%N then
        match s1 with
        | [] => Raise unterminated
        | esc :: s2 =>
            if (esc =? 117)%N then
              match s2 with
              | h1 :: h2 :: h3 :: h4 :: s3 =>
                  match s3 with
                  | [] => Raise invalid_uXXXX
                  | _ :: _ =>
                      match hex4 h1 h2 h3 h4 with
                      | None => Raise invalid_uXXXX
                      | Some uni =>
                          let single :=
                            '(x, r) ← scanstring s3; Ok (uni :: x, r) in
                          if ((55296 <=? uni) && (uni <=? 56319))%N then
                            match s3 with
                            | b :: u :: g1 :: g2 :: g3 :: g4 :: s4 =>
                                match s4 with
                                | [] => single
                                | _ :: _ =>
                                    if ((b =? 92) && (u =? 117))%N then
                                      match hex4 g1 g2 g3 g4 with
                                      | None => Raise invalid_uXXXX
                                      | Some uni2 =>
                                          if ((56320 <=? uni2)
                                              && (uni2 <=? 57343))%N
                                          then
                                            '(x, r) ← scanstring s4;
                                            Ok ((65536
                                                 + ((uni - 55296) * 1024
                                                    + (uni2 - 56320)))%N
                                                :: x, r)
                                          else single
                                      end
                                    else single
                                end
                            | _ => single
                            end
                          else single
                      end
                  end
              | _ => Raise invalid_uXXXX
              end
            else
              match backslash esc with
              | Some ch => '(x, r) ← scanstring s2; Ok (ch :: x, r)
              | None => Raise (JSONDecodeError (py "Invalid \escape"))
              end
        end
      else if (c <? 32)%N then
        Raise (JSONDecodeError (py "Invalid control character at"))
      else '(x, r) ← scanstring s1; Ok (c :: x, r)
  end.

(** The longest prefix of ASCII digits, and what follows it. *)
Fixpoint span_digits (s : str) : str * str :=
  match s with
  | c :: s' =>
      if is_digit c then let '(ds, r) := span_digits s' in (c :: ds, r)
      else ([], s)
  | [] => ([], [])
  end.

(** [int(digits)] for a string of ASCII digits. *)
Definition int_of_digits (ds : str) : Z :=
  foldl (fun acc c => 10 * acc + (Z.of_N c - 48)) 0 ds.

(** Group 1 of [NUMBER_RE] without its sign: either a single zero or a
    non-zero digit followed by any digits. *)
Definition match_natural (s : str) : option (str * str) :=
  match s with
  | c :: s' =>
      if (c =? 48)%N then Some ([c], s')
      else if is_digit c then
        let '(ds, r) := span_digits s' in Some (c :: ds, r)
      else None
  | [] => None
  end.

(** Group 1 of [NUMBER_RE]: an optional minus sign, then [match_natural]. *)
Definition match_integer (s : str) : option (bool * str * str) :=
  match s with
  | c :: s' =>
      if (c =? 45)%N then
        '(digits, r) ← match_natural s'; Some (true, digits, r)
      else '(digits, r) ← match_natural s; Some (false, digits, r)
  | [] => None
  end.

(** Group 2 of [NUMBER_RE], optional: a dot and at least one digit. *)
Definition match_frac (s : str) : str * str :=
  match s with
  | c :: s' =>
      if (c =? 46)%N then
        match span_digits s' with
        | ([], _) => ([], s)
        | (ds, r) => (c :: ds, r)
        end
      else ([], s)
  | [] => ([], s)
  end.

(** Group 3 of [NUMBER_RE], optional: e or E, an optional sign and at least
    one digit. *)
Definition match_exp (s : str) : str * str :=
  match s with
  | c :: s' =>
      if ((c =? 101) || (c =? 69))%N then
        let '(sign, s2) :=
          match s' with
          | g :: s'' => if ((g =? 45) || (g =? 43))%N then ([g], s'') else ([], s')
          | [] => ([], s')
          end in
        match span_digits s2 with
        | ([], _) => ([], s)
        | (ds, r) => (c :: sign ++ ds, r)
        end
      else ([], s)
  | [] => ([], s)
  end.

(** [match_number] and the choice between [parse_int] and [parse_float]. *)
Definition match_number (s : str) : option (pyval * str) :=
  match match_integer s with
  | None => None
  | Some (neg, digits, r1) =>
      let '(frac, r2) := match_frac r1 in
      let '(exp, r3) := match_exp r2 in
      let integer := (if neg then [45%N] else []) ++ digits in
      match frac, exp with
      | [], [] =>
          Some (PInt (if neg then - int_of_digits digits
                      else int_of_digits digits), r3)
      | _, _ => Some (PFloat (integer ++ frac ++ exp), r3)
      end
  end.

Definition expecting_value : exception :=
  JSONDecodeError (py "Expecting value").
Definition expecting_name : exception :=
  JSONDecodeError (py "Expecting property name enclosed in double quotes").
Definition expecting_colon : exception :=
  JSONDecodeError (py "Expecting ':' delimiter").
Definition expecting_comma : exception :=
  JSONDecodeError (py "Expecting ',' delimiter").

(** [scan_once], [JSONObject] and [JSONArray].  [object_loop] and
    [array_loop] are the [while True] loops of the latter two; [object_loop]
    starts right after the opening quote of a key, [array_loop] at a
    value. *)
Fixpoint scan_once (fuel : nat) (s : str) {struct fuel} : result (pyval * str) :=
  match fuel with
  | O => Raise RecursionError
  | S fuel =>
      match s with
      | [] => Raise expecting_value
      | c :: s' =>
          if (c =? 34)%N then '(x, r) ← scanstring s'; Ok (PStr x, r)
          else if (c =? 123)%N then JSONObject fuel s'
          else if (c =? 91)%N then JSONArray fuel s'
          else if startswith s (py "null") then Ok (PNone, drop 4 s)
          else if startswith s (py "true") then Ok (PBool true, drop 4 s)
          else if startswith s (py "false") then Ok (PBool false, drop 5 s)
          else
            match match_number s with
            | Some vr => Ok vr
            | None =>
                if startswith s (py "NaN") then
                  Ok (PFloat (py "NaN"), drop 3 s)
                else if startswith s (py "Infinity") then
                  Ok (PFloat (py "Infinity"), drop 8 s)
                else if startswith s (py "-Infinity") then
                  Ok (PFloat (py "-Infinity"), drop 9 s)
                else Raise expecting_value
            end
      end
  end
with JSONObject (fuel : nat) (s : str) {struct fuel} : result (pyval * str) :=
  match fuel with
  | O => Raise RecursionError
  | S fuel =>
      match skip_ws s with
      | c :: r =>
          if (c =? 125)%N then Ok (PDict [], r)
          else if (c =? 34)%N then object_loop fuel r []
          else Raise expecting_name
      | [] => Raise expecting_name
      end
  end
with object_loop (fuel : nat) (s : str) (pairs : list (str * pyval))
       {struct fuel} : result (pyval * str) :=
  match fuel with
  | O => Raise RecursionError
  | S fuel =>
      '(key, r) ← scanstring s;
      match skip_ws r with
      | c :: r1 =>
          if (c =? 58)%N then
            '(value, r2) ← scan_once fuel (skip_ws r1);
            let pairs := dict_set pairs key value in
            match skip_ws r2 with
            | d :: r3 =>
                if (d =? 125)%N then Ok (PDict pairs, r3)
                else if (d =? 44)%N then
                  match skip_ws r3 with
                  | q :: r4 =>
                      if (q =? 34)%N then object_loop fuel r4 pairs
                      else Raise expecting_name
                  | [] => Raise expecting_name
                  end
                else Raise expecting_comma
            | [] => Raise expecting_comma
            end
          else Raise expecting_colon
      | [] => Raise expecting_colon
      end
  end
with JSONArray (fuel : nat) (s : str) {struct fuel} : result (pyval * str) :=
  match fuel with
  | O => Raise RecursionError
  | S fuel =>
      match skip_ws s with
      | c :: r =>
          if (c =? 93)%N then Ok (PList [], r)
          else array_loop fuel (c :: r) []
      | [] => array_loop fuel [] []
      end
  end
with array_loop (fuel : nat) (s : str) (values : list pyval)
       {struct fuel} : result (pyval * str) :=
  match fuel with
  | O => Raise RecursionError
  | S fuel =>
      '(value, r) ← scan_once fuel s;
      let values := values ++ [value] in
      match skip_ws r with
      | c :: r1 =>
          if (c =? 93)%N then Ok (PList values, r1)
          else if (c =? 44)%N then array_loop fuel (skip_ws r1) values
          else Raise expecting_comma
      | [] => Raise expecting_comma
      end
  end.

(** [json.loads(s)] for a [str]: the byte-order-mark check, then
    [JSONDecoder.decode].  The fuel is never used up (lemma
    [loads_fuel_enough]). *)
Definition loads (s : str) : result pyval :=
  if startswith s [65279%N] then
    Raise (JSONDecodeError (py "Unexpected UTF-8 BOM (decode using utf-8-sig)"))
  else
    '(obj, r) ← scan_once (3 * length s + 3) (skip_ws s);
    match skip_ws r with
    | [] => Ok obj
    | _ :: _ => Raise (JSONDecodeError (py "Extra data"))
    end.

End json.

(** ** [json.loads] within the interpreter's limits

    [json.loads] above decodes a text of any depth and an integer of any
    length.  The interpreter bounds both.

    Every call takes a level of the interpreter's recursion budget, and a
    call for which no level is left raises [RecursionError].  The scanner
    takes a level for each object and each array it enters
    ([_Py_EnterRecursiveCall] in [scan_once_unicode]).  Building a
    [JSONDecodeError] takes levels too: the call of the class, the frame
    of its [__init__], a method call within it.  An error met where fewer
    levels are left therefore ends in [RecursionError] instead.

    [int] refuses a literal of more than 640 digits when their number
    exceeds a non-zero [sys.get_int_max_str_digits()], with a
    [ValueError].

    [recursion_remaining] is the number of levels left where [json.loads]
    is called; [error_levels] the number of levels the construction of a
    [JSONDecodeError] takes (3 in CPython 3.11); [int_max_str_digits] the
    setting (4300 unless changed, 0 for none). *)
Record Limits : Type := mk_limits {
  recursion_remaining : nat;
  error_levels : nat;
  int_max_str_digits : nat
}.

(** The decoder of [json] with these checks.  [levels] is the number of
    levels left at the point of the call; [fuel] is as in [json] and is
    never what ends a call (lemma [limited_fuel_enough]). *)
Module json_limited.
Section Decoder.
Variable limits : Limits.

(** [raise JSONDecodeError(msg, ...)] and the C scanner's [raise_errmsg],
    where [levels] are left. *)
Definition raise_errmsg {A} (levels : nat) (msg : str) : result A :=
  if (levels <? error_levels limits)%nat then Raise RecursionError
  else Raise (JSONDecodeError msg).

Definition scanstring (levels : nat) (s : str) : result (str * str) :=
  match json.scanstring s with
  | Raise (JSONDecodeError msg) => raise_errmsg levels msg
  | res => res
  end.

(** The check of [int] on the digits of a literal. *)
Definition int_too_long (digits : str) : bool :=
  (640 <? length digits)%nat
  && (0 <? int_max_str_digits limits)%nat
  && (int_max_str_digits limits <? length digits)%nat.

Definition match_number (s : str) : option (result (pyval * str)) :=
  match json.match_integer s with
  | None => None
  | Some (neg, digits, r1) =>
      let '(frac, r2) := json.match_frac r1 in
      let '(exp, r3) := json.match_exp r2 in
      let integer := (if neg then [45%N] else []) ++ digits in
      match frac, exp with
      | [], [] =>
          if int_too_long digits then Some (Raise ValueError)
          else
            Some (Ok (PInt (if neg then - json.int_of_digits digits
                            else json.int_of_digits digits), r3))
      | _, _ => Some (Ok (PFloat (integer ++ frac ++ exp), r3))
      end
  end.

(** The call of [parse_constant], a method of the dict of constants. *)
Definition parse_constant (levels : nat) (name r : str)
    : result (pyval * str) :=
  match levels with
  | O => Raise RecursionError
  | S _ => Ok (PFloat name, r)
  end.

(** [scan_once], [JSONObject] and [JSONArray] of the C scanner.  Where no
    value starts, [scan_once] raises [StopIteration]. *)
Fixpoint scan_once (fuel levels : nat) (s : str) {struct fuel}
    : result (pyval * str) :=
  match fuel with
  | O => Raise RecursionError
  | S fuel =>
      match s with
      | [] => Raise StopIteration
      | c :: s' =>
          if (c =? 34)%N then '(x, r) ← scanstring levels s'; Ok (PStr x, r)
          else if (c =? 123)%N then
            match levels with
            | O => Raise RecursionError
            | S levels => JSONObject fuel levels s'
            end
          else if (c =? 91)%N then
            match levels with
            | O => Raise RecursionError
            | S levels => JSONArray fuel levels s'
            end
          else if startswith s (py "null") then Ok (PNone, drop 4 s)
          else if startswith s (py "true") then Ok (PBool true, drop 4 s)
          else if startswith s (py "false") then Ok (PBool false, drop 5 s)
          else
            match match_number s with
            | Some res => res
            | None =>
                if startswith s (py "NaN") then
                  parse_constant levels (py "NaN") (drop 3 s)
                else if startswith s (py "Infinity") then
                  parse_constant levels (py "Infinity") (drop 8 s)
                else if startswith s (py "-Infinity") then
                  parse_constant levels (py "-Infinity") (drop 9 s)
                else Raise StopIteration
            end
      end
  end
with JSONObject (fuel levels : nat) (s : str) {struct fuel}
    : result (pyval * str) :=
  match fuel with
  | O => Raise RecursionError
  | S fuel =>
      match json.skip_ws s with
      | c :: r =>
          if (c =? 125)%N then Ok (PDict [], r)
          else if (c =? 34)%N then object_loop fuel levels r []
          else
            raise_errmsg levels
              (py "Expecting property name enclosed in double quotes")
      | [] =>
          raise_errmsg levels
            (py "Expecting property name enclosed in double quotes")
      end
  end
with object_loop (fuel levels : nat) (s : str) (pairs : list (str * pyval))
       {struct fuel} : result (pyval * str) :=
  match fuel with
  | O => Raise RecursionError
  | S fuel =>
      '(key, r) ← scanstring levels s;
      match json.skip_ws r with
      | c :: r1 =>
          if (c =? 58)%N then
            '(value, r2) ← scan_once fuel levels (json.skip_ws r1);
            let pairs := dict_set pairs key value in
            match json.skip_ws r2 with
            | d :: r3 =>
                if (d =? 125)%N then Ok (PDict pairs, r3)
                else if (d =? 44)%N then
                  match json.skip_ws r3 with
                  | q :: r4 =>
                      if (q =? 34)%N then object_loop fuel levels r4 pairs
                      else
                        raise_errmsg levels
                          (py "Expecting property name enclosed in double quotes")
                  | [] =>
                      raise_errmsg levels
                        (py "Expecting property name enclosed in double quotes")
                  end
                else raise_errmsg levels (py "Expecting ',' delimiter")
            | [] => raise_errmsg levels (py "Expecting ',' delimiter")
            end
          else raise_errmsg levels (py "Expecting ':' delimiter")
      | [] => raise_errmsg levels (py "Expecting ':' delimiter")
      end
  end
with JSONArray (fuel levels : nat) (s : str) {struct fuel}
    : result (pyval * str) :=
  match fuel with
  | O => Raise RecursionError
  | S fuel =>
      match json.skip_ws s with
      | c :: r =>
          if (c =? 93)%N then Ok (PList [], r)
          else array_loop fuel levels (c :: r) []
      | [] => array_loop fuel levels [] []
      end
  end
with array_loop (fuel levels : nat) (s : str) (values : list pyval)
       {struct fuel} : result (pyval * str) :=
  match fuel with
  | O => Raise RecursionError
  | S fuel =>
      '(value, r) ← scan_once fuel levels s;
      let values := values ++ [value] in
      match json.skip_ws r with
      | c :: r1 =>
          if (c =? 93)%N then Ok (PList values, r1)
          else if (c =? 44)%N then
            array_loop fuel levels (json.skip_ws r1) values
          else raise_errmsg levels (py "Expecting ',' delimiter")
      | [] => raise_errmsg levels (py "Expecting ',' delimiter")
      end
  end.

(** [JSONDecoder.raw_decode], in whose frame [levels] are left: the call
    of the scanner takes one; a [StopIteration] of the scanner becomes
    the error [Expecting value]. *)
Definition raw_decode (levels : nat) (s : str) : result (pyval * str) :=
  match levels with
  | O => Raise RecursionError
  | S inner =>
      match scan_once (3 * length s + 3) inner s with
      | Raise StopIteration => raise_errmsg levels (py "Expecting value")
      | res => res
      end
  end.

(** [JSONDecoder.decode], in whose frame [levels] are left. *)
Definition decode (levels : nat) (s : str) : result pyval :=
  match levels with
  | O => Raise RecursionError
  | S inner =>
      '(obj, r) ← raw_decode inner (json.skip_ws s);
      match json.skip_ws r with
      | [] => Ok obj
      | _ :: _ => raise_errmsg levels (py "Extra data")
      end
  end.

(** [json.loads(s)] for a [str]: its own frame takes a level, the calls it
    makes need another. *)
Definition loads (s : str) : result pyval :=
  match recursion_remaining limits with
  | S (S inner as levels) =>
      if startswith s [65279%N] then
        raise_errmsg levels
          (py "Unexpected UTF-8 BOM (decode using utf-8-sig)")
      else decode inner s
  | _ => Raise RecursionError
  end.

End Decoder.
End json_limited.

(** ** JSONExtractor: [must_json] (main.py, lines 92-127) *)

(** Lines 97-104: trim, then remove a markdown code fence and a leading
    [json] tag. *)
Definition strip_fence (text : str) : str :=
  let text := strip text in
  if startswith text (py "```") then
    let lines := split NL text in
    let text :=
      join [NL] (if decide (strip (List.last lines []) = py "```")
                 then removelast (tail lines)
                 else tail lines) in
    let text := strip text in
    if startswith text (py "json") then strip (drop 4 text) else text
  else text.

(** Lines 112-119: the [for i in range(start, len(text))] loop, run over the
    characters [text[start:]] with [i] the index of the head.  [Some e] is
    the value of [end] at the [break]; [None] means the loop ran to its end
    and left [end = start]. *)
Fixpoint brace_scan (chars : str) (i : nat) (count : Z) : option nat :=
  match chars with
  | [] => None
  | c :: chars' =>
      if (c =? LBRACE)%N then brace_scan chars' (S i) (count + 1)
      else if (c =? RBRACE)%N then
        let count := count - 1 in
        if count =? 0 then Some (i + 1)%nat
        else brace_scan chars' (S i) count
      else brace_scan chars' (S i) count
  end.

(** Lines 107-121.  [find] cannot miss under the [contains] test (lemma
    [find_elem_of]). *)
Definition select_object (text : str) : str :=
  if contains text LBRACE then
    match find text LBRACE with
    | Some start =>
        let end_ := default start (brace_scan (drop start text) start 0) in
        if (start <? end_)%nat then slice text start end_ else text
    | None => text
    end
  else text.

(** The argument of the [print] call of line 126. *)
Definition failed_to_parse (text : str) : str :=
  [NL; 10060%N] ++ py " Failed to parse JSON. Raw response:" ++ [NL]
  ++ text ++ [NL].

Section JSONExtractor.

(** The parser [must_json] calls: [json.loads]. *)
Variable loads : str -> result pyval.

(** Lines 123-127: only a [JSONDecodeError] is caught, reported and raised
    again.  The first component lists the arguments of the [print] calls
    made. *)
Definition parse_or_report (text : str) : list str * result pyval :=
  match loads text with
  | Ok v => ([], Ok v)
  | Raise (JSONDecodeError msg) =>
      ([failed_to_parse text], Raise (JSONDecodeError msg))
  | Raise e => ([], Raise e)
  end.

Definition must_json (text : str) : list str * result pyval :=
  parse_or_report (select_object (strip_fence text)).

End JSONExtractor.

(** ** EvidenceResolver: [extract_evidence_from_line_ids] (main.py, lines
    47-60) *)

Record EvidenceRecord : Type := mk_evidence {
  quote : str;
  location : str;
  topic : str
}.

(** What this program needs of the Python runtime beyond the above: the
    [int] a float compares equal to, if any (it decides [x in d] for a dict
    with [int] keys; the argument is the lexeme of a [PFloat]), and the
    [repr] of floats and containers. *)
Class PyRuntime : Type := {
  float_as_int : str -> option Z;
  py_repr : pyval -> str
}.

Section EvidenceResolver.
Context `{PyRuntime}.

(** The key of an [int]-keyed dict that [x] hashes and compares equal to.
    Lists and dicts are unhashable. *)
Definition int_key (x : pyval) : result (option Z) :=
  match x with
  | PInt z => Ok (Some z)
  | PBool b => Ok (Some (if b then 1 else 0))
  | PFloat f => Ok (float_as_int f)
  | PNone | PStr _ => Ok None
  | PList _ | PDict _ => Raise TypeError
  end.

(** [str(x)], as the f-string of line 57 formats [x]. *)
Definition format_id (x : pyval) : str :=
  match x with
  | PInt z => str_of_int z
  | PBool true => py "True"
  | PBool false => py "False"
  | PNone => py "None"
  | PStr s => s
  | PFloat _ | PList _ | PDict _ => py_repr x
  end.

(** [for x in v]: the items of a list, the characters of a str, the keys of
    a dict; nothing else is iterable. *)
Definition py_iter (v : pyval) : result (list pyval) :=
  match v with
  | PList items => Ok items
  | PStr s => Ok (map (fun c => PStr [c]) s)
  | PDict pairs => Ok (map (fun kv => PStr (fst kv)) pairs)
  | PNone | PBool _ | PInt _ | PFloat _ => Raise TypeError
  end.

(** The truth value of a str. *)
Definition truthy (s : str) : bool :=
  match s with
  | [] => false
  | _ :: _ => true
  end.

(** The body of the [for] loop, lines 53-59, over the items still to visit,
    with [evidence] the list built so far. *)
Fixpoint resolve_loop (items : list pyval) (line_map : gmap Z str)
    (topic : str) (evidence : list EvidenceRecord)
  : result (list EvidenceRecord) :=
  match items with
  | [] => Ok evidence
  | line_id :: items' =>
      k ← int_key line_id;
      match k ≫= (line_map !!.) with
      | Some text =>
          if truthy text then
            resolve_loop items' line_map topic
              (evidence ++ [mk_evidence text (py "Line " ++ format_id line_id)
                                        topic])
          else resolve_loop items' line_map topic evidence
      | None => resolve_loop items' line_map topic evidence
      end
  end.

Definition extract_evidence_from_line_ids (line_ids : pyval)
    (line_map : gmap Z str) (topic : str) : result (list EvidenceRecord) :=
  items ← py_iter line_ids;
  resolve_loop items line_map topic [].

(** ** Pipeline: the verified evidence object of [main] (main.py, lines
    159-180) *)

Definition STUDY_ID : str := py "smith_2022".

Record Extracted : Type := mk_extracted {
  study_id : str;
  evidence_quotes : list EvidenceRecord;
  not_found : pyval
}.

(** [d.get(key, dflt)]; only a dict has the method. *)
Definition py_get (d : pyval) (key : str) (dflt : pyval) : result pyval :=
  match d with
  | PDict pairs => Ok (default dflt (dict_lookup pairs key))
  | _ => Raise AttributeError
  end.

(** The value bound to [extracted] at line 176, from the decoded reply of
    the extraction call and the line map. *)
Definition main_extracted (line_ids_result : pyval) (line_map : gmap Z str)
  : result Extracted :=
  let evidence_quotes := [] in
  ids ← py_get line_ids_result (py "index_test_blinding_line_ids") (PList []);
  found ← extract_evidence_from_line_ids ids line_map
            (py "index_test_blinding");
  let evidence_quotes := evidence_quotes ++ found in
  ids ← py_get line_ids_result (py "threshold_line_ids") (PList []);
  found ← extract_evidence_from_line_ids ids line_map (py "threshold");
  let evidence_quotes := evidence_quotes ++ found in
  nf ← py_get line_ids_result (py "not_found") (PList []);
  Ok (mk_extracted STUDY_ID evidence_quotes nf).

End EvidenceResolver.

(** ** Inputs of the examples *)

(** A runtime for the closed examples below; none of them contains a float
    or formats a container, so neither field is ever consulted. *)
Definition example_runtime : PyRuntime :=
  {| float_as_int := fun _ => None; py_repr := fun _ => [] |}.

Definition doc1 : str :=
  py "Blinded assessors." ++ [NL] ++ py "Threshold was 5mg." ++ [NL].

(** ** Vocabulary of the statements *)

(** [text.count(c)] *)
Definition count (s : str) (c : N) : nat := length (filter (fun x => x = c) s).

(** The rendering of one numbered line. *)
Definition render_line (il : Z * str) : str := line_prefix il.1 ++ il.2.

(** The test of line 54 on an [int] identifier: a key of the map whose text
    is non-empty. *)
Definition usable (line_map : gmap Z str) (i : Z) : bool :=
  match line_map !! i with
  | Some text => truthy text
  | None => false
  end.

(** The test as the specification words it: a key of the map whose text is
    non-empty after trimming. *)
Definition usable_after_trimming (line_map : gmap Z str) (i : Z) : bool :=
  match line_map !! i with
  | Some text => truthy (strip text)
  | None => false
  end.

(** The record built at lines 55-59 for an [int] identifier. *)
Definition record_of (line_map : gmap Z str) (topic : str) (i : Z)
  : EvidenceRecord :=
  mk_evidence (default [] (line_map !! i)) (py "Line " ++ str_of_int i) topic.

(** A record is grounded in a text when its quote is non-empty, is the
    stripped text of one of the lines, and so occurs in the text as it
    stands. *)
Definition grounded (text : str) (r : EvidenceRecord) : Prop :=
  quote r ≠ []
  ∧ (∃ line, line ∈ split NL text ∧ quote r = strip line)
  ∧ (∃ before after, text = before ++ quote r ++ after).

(** [x] hashes and compares equal to the [int] key [n]. *)
Definition denotes `{PyRuntime} (x : pyval) (n : Z) : bool :=
  match int_key x with
  | Ok (Some k) => bool_decide (k = n)
  | _ => false
  end.

(** Raw brace-nesting depth at the end of [s]: the opening braces met minus
    the closing ones, whatever surrounds them. *)
Definition depth (s : str) : Z :=
  Z.of_nat (count s LBRACE) - Z.of_nat (count s RBRACE).

(** A markdown code fence around [body], with [tag] after the opening
    backticks. *)
Definition fenced (tag body : str) : str :=
  py "```" ++ tag ++ [NL] ++ body ++ [NL] ++ py "```".

(** A call is good when it does not run out of fuel and, if it returns,
    has read at least one character. *)
Definition good {A} (res : result (A * str)) (s : str) : Prop :=
  res ≠ Raise RecursionError
  ∧ ∀ v r, res = Ok (v, r) → (length r < length s)%nat.

(** What the decoder within limits did is what the decoder without limits
    does, unless a limit struck; the scanner's [StopIteration] stands for
    the error [Expecting value]. *)
Definition agrees {A} (limited ideal : result A) : Prop :=
  match limited with
  | Ok x => ideal = Ok x
  | Raise (JSONDecodeError msg) => ideal = Raise (JSONDecodeError msg)
  | Raise StopIteration => ideal = Raise json.expecting_value
  | Raise RecursionError | Raise ValueError => True
  | Raise _ => False
  end.

(** No limit struck. *)
Definition safe {A} (res : result A) : Prop :=
  res ≠ Raise RecursionError ∧ res ≠ Raise ValueError.

(** No integer literal of a text of [n] characters is too long for
    [int]. *)
Definition short_integers (L : Limits) (n : nat) : Prop :=
  int_max_str_digits L = 0%nat ∨ (n ≤ 640)%nat
  ∨ (n ≤ int_max_str_digits L)%nat.

(** The limits are out of reach of the text [s]: more levels are left than
    [json.loads] and an error at any depth of [s] can take, and no integer
    in [s] is too long. *)
Definition out_of_reach (L : Limits) (s : str) : Prop :=
  (length s + error_levels L + 4 ≤ recursion_remaining L)%nat
  ∧ short_integers L (length s).

(** [main.py] run as a script by CPython 3.11 with its defaults: of the
    1000 levels of [sys.getrecursionlimit()], the module, [main] and
    [must_json] hold three where [json.loads] is called. *)
Definition default_limits : Limits := mk_limits 997 3 4300.

(** The extraction reply of the end-to-end scenario. *)
Definition reply1 : str :=
  jq "{'index_test_blinding_line_ids':[1],'threshold_line_ids':[2],'not_found':[]}".

(** The value [json.loads] decodes [reply1] to. *)
Definition reply1_value : pyval :=
  PDict [(py "index_test_blinding_line_ids", PList [PInt 1]);
         (py "threshold_line_ids", PList [PInt 2]);
         (py "not_found", PList [])].

Definition alpha_gamma : gmap Z str :=
  {[1 := py "alpha"; 2 := []; 3 := py "gamma"]}.

(** ** [json.dumps] with [indent=2] ([json.encoder], default separators) *)
Module json_encoder.

Definition hex_char (d : N) : N := (if d <? 10 then 48 + d else 87 + d)%N.

(** The escape of a code point below 65536, backslash u and four lowercase
    hexadecimal digits. *)
Definition u_escape (n : N) : str :=
  [92; 117; hex_char (n / 4096); hex_char (n / 256 mod 16);
   hex_char (n / 16 mod 16); hex_char (n mod 16)]%N.

(** [ESCAPE_DCT]: the characters written as a backslash and a letter. *)
Definition short_escape (c : N) : option str :=
  (if c =? 92 then Some [92; 92]
   else if c =? 34 then Some [92; 34]
   else if c =? 8 then Some [92; 98]
   else if c =? 12 then Some [92; 102]
   else if c =? 10 then Some [92; 110]
   else if c =? 13 then Some [92; 114]
   else if c =? 9 then Some [92; 116]
   else None)%N.

(** One character under [ensure_ascii=True]: everything outside the
    printable ASCII range is escaped, above 65535 as a surrogate pair. *)
Definition escape_ascii (c : N) : str :=
  match short_escape c with
  | Some e => e
  | None =>
      (if (32 <=? c) && (c <=? 126) then [c]
       else if c <? 65536 then u_escape c
       else u_escape (55296 + ((c - 65536) / 1024) mod 1024)
            ++ u_escape (56320 + (c - 65536) mod 1024))%N
  end.

(** One character under [ensure_ascii=False]: only the quote, the backslash
    and the control characters are escaped. *)
Definition escape_plain (c : N) : str :=
  match short_escape c with
  | Some e => e
  | None => if (c <? 32)%N then u_escape c else [c]
  end.

(** [encode_basestring_ascii] and [encode_basestring]. *)
Definition encode_str (ensure_ascii : bool) (s : str) : str :=
  [34%N] ++ concat (map (if ensure_ascii then escape_ascii else escape_plain) s)
  ++ [34%N].

(** A newline and the indentation of nesting level [level]. *)
Definition newline_indent (level : nat) : str := NL :: repeat 32%N (2 * level).

Section Encoder.

(** What [float.__repr__] writes for the float of a lexeme, NaN, Infinity
    and -Infinity for the values that are no numbers. *)
Variable floatstr : str -> str.
Variable ensure_ascii : bool.

(** [_iterencode], the chunks joined; [level] is [_current_indent_level]. *)
Fixpoint iterencode (o : pyval) (level : nat) {struct o} : str :=
  match o with
  | PStr s => encode_str ensure_ascii s
  | PNone => py "null"
  | PBool true => py "true"
  | PBool false => py "false"
  | PInt z => str_of_int z
  | PFloat f => floatstr f
  | PList [] => py "[]"
  | PList items =>
      py "[" ++ newline_indent (S level)
      ++ join (py "," ++ newline_indent (S level))
           (map (fun x => iterencode x (S level)) items)
      ++ newline_indent level ++ py "]"
  | PDict [] => py "{}"
  | PDict pairs =>
      py "{" ++ newline_indent (S level)
      ++ join (py "," ++ newline_indent (S level))
           (map (fun kv => encode_str ensure_ascii (fst kv) ++ py ": "
                           ++ iterencode (snd kv) (S level)) pairs)
      ++ newline_indent level ++ py "}"
  end.

(** [json.dumps(obj, indent=2, ensure_ascii=...)] *)
Definition dumps (obj : pyval) : str := iterencode obj 0.

End Encoder.

End json_encoder.

Arguments json_encoder.newline_indent : simpl never.

(** ** The collaborators of [call_llm] and [main]

    The file system, the HTTP client, the schema validator: each is a
    function of the request it gets, given by a [World]; a run of [main]
    asks nothing twice, as is proved below, so nothing is lost by that.
    What a program asks of them, and what it prints, is kept as a trace of
    events.  Paths are written as [str(path)] gives them on a POSIX system,
    and [print] is taken to accept every str. *)

Inductive failure : Type :=
| Exc (e : exception)
| FileNotFoundError (msg : str)
| HTTPError (status : Z)
| KeyError (key : str)
| Foreign (name : str).

Inductive outcome (A : Type) : Type :=
| Done (a : A)
| Failed (f : failure).
Arguments Done {A} a.
Arguments Failed {A} f.

(** What [main.py] reads of a [requests.Response]: the status code and what
    [resp.json()] gives. *)
Record Response : Type := mk_response {
  status_code : Z;
  response_json : outcome pyval
}.

Record World : Type := mk_world {
  OLLAMA_URL : str;
  MODEL : str;
  path_exists : str -> outcome bool;
  path_read_text : str -> outcome str;
  requests_post : str -> pyval -> outcome Response;
  jsonschema_validate : pyval -> pyval -> outcome unit;
  path_mkdir : str -> outcome unit;
  path_write_text : str -> str -> outcome unit
}.

Inductive event : Type :=
| EvExists (p : str)
| EvReadText (p : str)
| EvPost (url : str) (payload : pyval)
| EvPrint (s : str)
| EvValidate (instance schema : pyval)
| EvMkdir (p : str)
| EvWriteText (p content : str).

(** A run: the events in the order they happened, and how it ended. *)
Record prog (A : Type) : Type := mk_prog {
  trace : list event;
  outcome_of : outcome A
}.
Arguments mk_prog {A} trace outcome_of.
Arguments trace {A} p.
Arguments outcome_of {A} p.

#[export] Instance prog_ret : MRet prog := fun A a => mk_prog [] (Done a).
#[export] Instance prog_bind : MBind prog := fun A B f m =>
  match outcome_of m with
  | Done a => mk_prog (trace m ++ trace (f a)) (outcome_of (f a))
  | Failed e => mk_prog (trace m) (Failed e)
  end.

(** One request to a collaborator, or one [print]; a [print] is taken to
    succeed. *)
Definition perform {A} (ev : event) (o : outcome A) : prog A := mk_prog [ev] o.
Definition emit (ev : event) : prog unit := mk_prog [ev] (Done ()).
Definition lift {A} (o : outcome A) : prog A := mk_prog [] o.

Definition of_result {A} (r : result A) : outcome A :=
  match r with
  | Ok a => Done a
  | Raise e => Failed (Exc e)
  end.

(** [v[key]] for a str [key]: only a dict can be indexed by a str. *)
Definition py_getitem (v : pyval) (key : str) : outcome pyval :=
  match v with
  | PDict pairs =>
      match dict_lookup pairs key with
      | Some x => Done x
      | None => Failed (KeyError key)
      end
  | _ => Failed (Exc TypeError)
  end.

(** [v.strip()]: only a str has the method. *)
Definition py_strip (v : pyval) : outcome str :=
  match v with
  | PStr s => Done (strip s)
  | _ => Failed (Exc AttributeError)
  end.

(** [resp.raise_for_status()] *)
Definition raise_for_status (resp : Response) : outcome unit :=
  if (400 <=? status_code resp) && (status_code resp <? 600)
  then Failed (HTTPError (status_code resp))
  else Done ().

(** ** ModelGateway: [call_llm] (main.py, lines 63-89) *)

(** Lines 70-72. *)
Definition enhanced_system (system_prompt : str) : str :=
  system_prompt ++ [NL; NL]
  ++ py "CRITICAL: You MUST respond with ONLY valid JSON. Do not include any explanations, markdown formatting, or text outside the JSON object. Start your response with { and end with }. Follow the exact output format specified in the prompt.".

(** Lines 74-85. *)
Definition chat_payload (w : World) (system_prompt user_payload : str) : pyval :=
  PDict [(py "model", PStr (MODEL w));
         (py "messages",
          PList [PDict [(py "role", PStr (py "system"));
                        (py "content", PStr (enhanced_system system_prompt))];
                 PDict [(py "role", PStr (py "user"));
                        (py "content", PStr user_payload)]]);
         (py "stream", PBool false);
         (py "options", PDict [(py "temperature", PInt 0)])].

Definition chat_url (w : World) : str := OLLAMA_URL w ++ py "/api/chat".

Definition call_llm (w : World) (system_prompt user_payload : str) : prog str :=
  let url := chat_url w in
  let payload := chat_payload w system_prompt user_payload in
  resp ← perform (EvPost url payload) (requests_post w url payload);
  _ ← lift (raise_for_status resp);
  body ← lift (response_json resp);
  message ← lift (py_getitem body (py "message"));
  content ← lift (py_getitem message (py "content"));
  lift (py_strip content).

(** ** Pipeline: [main] (main.py, lines 135-205) *)

Definition STUDY_TEXT_PATH : str := py "sample_input/smith_2022.txt".
Definition EXTRACT_PROMPT_PATH : str := py "prompts/index_test/extract.txt".
Definition JUDGE_PROMPT_PATH : str := py "prompts/index_test/judge.txt".
Definition SCHEMA_PATH : str := py "schema/index_test_result.json".
Definition OUT_DIR : str := py "outputs".
Definition OUT_PATH : str := OUT_DIR ++ py "/" ++ STUDY_ID ++ py "_index_test.json".

Definition REQUIRED_FILES : list str :=
  [STUDY_TEXT_PATH; EXTRACT_PROMPT_PATH; JUDGE_PROMPT_PATH; SCHEMA_PATH].

(** Lines 137-139. *)
Fixpoint check_files (w : World) (paths : list str) : prog unit :=
  match paths with
  | [] => mret ()
  | p :: paths' =>
      found ← perform (EvExists p) (path_exists w p);
      if found : bool then check_files w paths'
      else lift (Failed (FileNotFoundError (py "Missing file: " ++ p)))
  end.

(** [read_text], lines 26-27. *)
Definition read_text (w : World) (p : str) : prog str :=
  perform (EvReadText p) (path_read_text w p).

(** [must_json] with [json.loads], its prints as events. *)
Definition must_json_run (text : str) : prog pyval :=
  mk_prog (EvPrint <$> (must_json json.loads text).1)
          (of_result (must_json json.loads text).2).

(** The dicts of lines 55-59 and 176-180 as values. *)
Definition evidence_value (r : EvidenceRecord) : pyval :=
  PDict [(py "quote", PStr (quote r));
         (py "location", PStr (location r));
         (py "topic", PStr (topic r))].

Definition extracted_value (e : Extracted) : pyval :=
  PDict [(py "study_id", PStr (study_id e));
         (py "evidence_quotes", PList (evidence_value <$> evidence_quotes e));
         (py "not_found", not_found e)].

(** Lines 149-153. *)
Definition extract_user_payload (numbered_text : str) : str :=
  py "study_id: " ++ STUDY_ID ++ [NL; NL]
  ++ py "NUMBERED STUDY TEXT:" ++ [NL] ++ numbered_text ++ [NL; NL]
  ++ py "Return JSON with line IDs only.".

(** The object serialized at lines 184-188. *)
Definition judge_object (e : Extracted) : pyval :=
  PDict [(py "study_id", PStr STUDY_ID); (py "extracted", extracted_value e)].

(** The f-strings of lines 157, 181, 191 and 205 and the literal of line
    198.  The code points 128203, 9989 and 128202 are the clipboard, check
    mark and bar chart signs. *)
Definition line_ids_message (dumped : str) : str :=
  [NL; 128203%N] ++ py " EXTRACTED LINE IDs:" ++ [NL] ++ dumped ++ [NL].

Definition evidence_message (dumped : str) : str :=
  [NL; 9989%N] ++ py " VERIFIED EVIDENCE (from actual text):" ++ [NL]
  ++ dumped ++ [NL].

Definition judge_raw_message (judge_raw : str) : str :=
  [NL; 128202%N] ++ py " JUDGE RAW:" ++ [NL] ++ take 500 judge_raw
  ++ py "..." ++ [NL].

Definition final_result_message : str :=
  [NL; 9989%N] ++ py " FINAL RESULT (schema-valid):" ++ [NL].

Definition saved_message (out_path : str) : str :=
  [NL] ++ py "Saved to: " ++ out_path ++ [NL].

Section Pipeline.
Context `{PyRuntime}.

(** What [json.dumps] writes for the float of a lexeme. *)
Variable floatstr : str -> str.

Definition dumps (ensure_ascii : bool) (obj : pyval) : str :=
  json_encoder.dumps floatstr ensure_ascii obj.

(** Lines 137-144: the checks, then the four files. *)
Definition main_inputs (w : World) : prog (str * str * str * pyval) :=
  _ ← check_files w REQUIRED_FILES;
  study_text ← read_text w STUDY_TEXT_PATH;
  extract_prompt ← read_text w EXTRACT_PROMPT_PATH;
  judge_prompt ← read_text w JUDGE_PROMPT_PATH;
  schema_text ← read_text w SCHEMA_PATH;
  schema ← lift (of_result (json.loads schema_text));
  mret (study_text, extract_prompt, judge_prompt, schema).

(** Lines 147-181: the extraction pass. *)
Definition main_step1 (w : World) (study_text extract_prompt : str)
  : prog Extracted :=
  let '(numbered_text, line_map) := number_lines study_text in
  extract_raw ← call_llm w extract_prompt (extract_user_payload numbered_text);
  line_ids_result ← must_json_run extract_raw;
  _ ← emit (EvPrint (line_ids_message (dumps true line_ids_result)));
  extracted ← lift (of_result (main_extracted line_ids_result line_map));
  _ ← emit (EvPrint (evidence_message
                       (dumps false (extracted_value extracted))));
  mret extracted.

(** Lines 184-192: the judgment pass. *)
Definition main_step2 (w : World) (judge_prompt : str) (extracted : Extracted)
  : prog pyval :=
  let judge_user_payload := dumps false (judge_object extracted) in
  judge_raw ← call_llm w judge_prompt judge_user_payload;
  _ ← emit (EvPrint (judge_raw_message judge_raw));
  must_json_run judge_raw.

(** [validate_schema], lines 130-131. *)
Definition validate_schema (w : World) (obj schema : pyval) : prog unit :=
  perform (EvValidate obj schema) (jsonschema_validate w obj schema).

(** Lines 198-205: print and save. *)
Definition main_save (w : World) (result : pyval) : prog unit :=
  _ ← emit (EvPrint final_result_message);
  _ ← emit (EvPrint (dumps false result));
  _ ← perform (EvMkdir OUT_DIR) (path_mkdir w OUT_DIR);
  _ ← perform (EvWriteText OUT_PATH (dumps false result))
        (path_write_text w OUT_PATH (dumps false result));
  emit (EvPrint (saved_message OUT_PATH)).

Definition main (w : World) : prog unit :=
  '(study_text, extract_prompt, judge_prompt, schema) ← main_inputs w;
  extracted ← main_step1 w study_text extract_prompt;
  result ← main_step2 w judge_prompt extracted;
  _ ← validate_schema w result schema;
  main_save w result.

End Pipeline.

(** ** A world for the closed examples *)

(** The text of the user message of a chat payload. *)
Definition user_content (payload : pyval) : str :=
  match payload with
  | PDict pairs =>
      match dict_lookup pairs (py "messages") with
      | Some (PList [_; PDict message]) =>
          match dict_lookup message (py "content") with
          | Some (PStr s) => s
          | _ => []
          end
      | _ => []
      end
  | _ => []
  end.

Definition chat_response (content : str) : Response :=
  mk_response 200
    (Done (PDict [(py "message",
                   PDict [(py "role", PStr (py "assistant"));
                          (py "content", PStr content)])])).

(** The judge's reply of the examples, in a code fence. *)
Definition verdict1 : str :=
  fenced (py "json") (jq "{'risk_of_bias': 'low', 'support': [1]}") ++ [NL].

Definition verdict1_value : pyval :=
  PDict [(py "risk_of_bias", PStr (py "low"));
         (py "support", PList [PInt 1])].

(** Every file is there, the study is [doc1], the model answers the
    extraction request with [reply1] and the judge request (whose user
    message is a JSON object) with [verdict1], and every result is valid. *)
Definition example_world : World :=
  {| OLLAMA_URL := py "http://localhost:11434";
     MODEL := py "qwen2.5:7b";
     path_exists := fun _ => Done true;
     path_read_text := fun p =>
       if bool_decide (p = STUDY_TEXT_PATH) then Done doc1
       else if bool_decide (p = SCHEMA_PATH) then Done (jq "{'type': 'object'}")
       else Done (py "You are a reviewer.");
     requests_post := fun _ payload =>
       Done (chat_response
               (if startswith (user_content payload) [LBRACE]
                then verdict1 else [NL] ++ reply1));
     jsonschema_validate := fun _ _ => Done ();
     path_mkdir := fun _ => Done ();
     path_write_text := fun _ _ => Done () |}.

(** The same, but the judge prompt is missing. *)
Definition world_without_judge_prompt : World :=
  {| OLLAMA_URL := OLLAMA_URL example_world;
     MODEL := MODEL example_world;
     path_exists := fun p => Done (negb (bool_decide (p = JUDGE_PROMPT_PATH)));
     path_read_text := path_read_text example_world;
     requests_post := requests_post example_world;
     jsonschema_validate := jsonschema_validate example_world;
     path_mkdir := path_mkdir example_world;
     path_write_text := path_write_text example_world |}.

(** [float.__repr__] is never consulted in the examples. *)
Definition example_floatstr : str -> str := fun lexeme => lexeme.
(** ** Vocabulary of the further properties *)

(** Reading a numbered text back: drop from the line of index [i] as many
    characters as the marker of identifier [i + 1] has, and join the
    lines. *)
Definition unnumber_line (i : nat) (l : str) : str :=
  drop (length (line_prefix (Z.of_nat i + 1))) l.

Definition unnumber (numbered_text : str) : str :=
  join [NL] (imap unnumber_line (split NL numbered_text)).

(** The values [x in d] can hash: all but lists and dicts. *)
Definition hashable (x : pyval) : bool :=
  match x with
  | PList _ | PDict _ => false
  | _ => true
  end.

(** The values a [for] loop can run over. *)
Definition iterable (v : pyval) : bool :=
  match v with
  | PList _ | PStr _ | PDict _ => true
  | _ => false
  end.

(** A text that opens with a brace and whose scan, started on it, stops
    exactly at its end: one braced span, as [select_object] cuts it. *)
Definition braced_span (obj : str) : Prop :=
  head obj = Some LBRACE ∧ brace_scan obj 0 0 = Some (length obj).

(** All characters are whitespace for [str.strip]. *)
Definition blank (s : str) : Prop := Forall (fun c => isspace c = true) s.

(** [x] occurs in [s] as a run of consecutive characters. *)
Definition part_of (x s : str) : Prop := ∃ before after, s = before ++ x ++ after.

(** ** Vocabulary of the pipeline properties *)

(** The two requests [main] sends. *)
Definition extraction_request (w : World) (extract_prompt study_text : str)
  : event :=
  EvPost (chat_url w)
    (chat_payload w extract_prompt
       (extract_user_payload (number_lines study_text).1)).

Definition judge_request (floatstr : str -> str) (w : World)
    (judge_prompt : str) (extracted : Extracted) : event :=
  EvPost (chat_url w)
    (chat_payload w judge_prompt (dumps floatstr false (judge_object extracted))).

(** The events that ask something of a collaborator: all but the prints. *)
Definition is_request (ev : event) : bool :=
  match ev with
  | EvPrint _ => false
  | _ => true
  end.

(** The four inputs of a run are there and readable, and the schema file
    holds JSON. *)
Definition inputs_loaded (w : World) (study_text extract_prompt judge_prompt : str)
    (schema : pyval) : Prop :=
  Forall (fun p => path_exists w p = Done true) REQUIRED_FILES
  ∧ path_read_text w STUDY_TEXT_PATH = Done study_text
  ∧ path_read_text w EXTRACT_PROMPT_PATH = Done extract_prompt
  ∧ path_read_text w JUDGE_PROMPT_PATH = Done judge_prompt
  ∧ ∃ schema_text, path_read_text w SCHEMA_PATH = Done schema_text
                   ∧ json.loads schema_text = Ok schema.

(** [result] is the judge's reply of a run in the world [w], parsed, and
    [schema] the schema that run loaded: the inputs were loaded, the
    model's reply to the extraction request was parsed and the evidence
    resolved from it, and the model's reply to the judge request built
    from that evidence was parsed to [result]. *)
Definition judged `{PyRuntime} (floatstr : str -> str) (w : World)
    (schema result : pyval) : Prop :=
  ∃ study_text extract_prompt judge_prompt extract_raw line_ids_result
    extracted judge_raw,
    inputs_loaded w study_text extract_prompt judge_prompt schema
    ∧ outcome_of (call_llm w extract_prompt
                    (extract_user_payload (number_lines study_text).1))
      = Done extract_raw
    ∧ must_json json.loads extract_raw = ([], Ok line_ids_result)
    ∧ main_extracted line_ids_result (number_lines study_text).2
      = Ok extracted
    ∧ outcome_of (call_llm w judge_prompt
                    (dumps floatstr false (judge_object extracted)))
      = Done judge_raw
    ∧ must_json json.loads judge_raw = ([], Ok result).

(** ** Vocabulary of the serialization properties *)

(** A value with no float in it. *)
Fixpoint float_free (v : pyval) : bool :=
  match v with
  | PFloat _ => false
  | PList items => forallb float_free items
  | PDict pairs => forallb (fun kv => float_free (snd kv)) pairs
  | _ => true
  end.

(** No dict of the value, at any depth, has the same key twice. *)
Fixpoint unique_keys (v : pyval) : bool :=
  match v with
  | PList items => forallb unique_keys items
  | PDict pairs =>
      bool_decide (NoDup (fst <$> pairs))
      && forallb (fun kv => unique_keys (snd kv)) pairs
  | _ => true
  end.

(** What may follow a number for the decoder to end it there: nothing, or
    a character that is neither a digit, nor a dot, nor e or E. *)
Definition number_end (r : str) : bool :=
  match r with
  | [] => true
  | c :: _ =>
      negb (json.is_digit c || (c =? 46) || (c =? 101) || (c =? 69))%N
  end.

(** * Properties *)

(** ** Strings *)

(** How the literals read. *)
Example jq_reads_quotes :
  jq "{'a': 1}" = [123; 34; 97; 34; 58; 32; 49; 125]%N.
Proof. reflexivity. Qed.

Example str_of_int_reads : str_of_int 120 = py "120" ∧ str_of_int (-7) = py "-7".
Proof. by vm_compute. Qed.

Example strip_reads :
  strip ([9; 32]%N ++ py "a b" ++ [32; 13; 10; 160]%N) = py "a b".
Proof. reflexivity. Qed.

Lemma split_nonempty sep s : split sep s ≠ [].
Proof.
  destruct s as [|c s]; simpl; [done|].
  destruct (c =? sep)%N; [done|]. by destruct (split sep s).
Qed.

Lemma split_cons_sep sep s : split sep (sep :: s) = [] :: split sep s.
Proof. simpl. by rewrite N.eqb_refl. Qed.

Lemma split_cons_other sep c s :
  c ≠ sep →
  ∃ l ls, split sep s = l :: ls ∧ split sep (c :: s) = (c :: l) :: ls.
Proof.
  intros Hc. simpl. apply N.eqb_neq in Hc. rewrite Hc.
  pose proof (split_nonempty sep s) as Hne.
  destruct (split sep s) as [|l ls]; [done|]. by exists l, ls.
Qed.

Lemma split_app_sep sep a b :
  split sep (a ++ sep :: b) = split sep a ++ split sep b.
Proof.
  induction a as [|c a IH].
  - by rewrite app_nil_l, split_cons_sep.
  - destruct (decide (c = sep)) as [->|Hc].
    + by rewrite <- app_comm_cons, !split_cons_sep, IH.
    + rewrite <- app_comm_cons.
      destruct (split_cons_other sep c a Hc) as (l & ls & Hs & ->).
      destruct (split_cons_other sep c (a ++ sep :: b) Hc) as (l' & ls' & Hs' & ->).
      rewrite IH, Hs in Hs'. by simplify_eq/=.
Qed.

Lemma split_no_sep sep s : sep ∉ s → split sep s = [s].
Proof.
  induction s as [|c s IH]; intros Hs; [done|].
  apply not_elem_of_cons in Hs as [Hc Hs].
  destruct (split_cons_other sep c s) as (l & ls & Hsp & ->); [done|].
  rewrite IH in Hsp by done. by simplify_eq.
Qed.

Lemma split_pieces sep s : Forall (fun l => sep ∉ l) (split sep s).
Proof.
  induction s as [|c s IH].
  - repeat constructor. apply not_elem_of_nil.
  - destruct (decide (c = sep)) as [->|Hc].
    + rewrite split_cons_sep. constructor; [apply not_elem_of_nil|done].
    + destruct (split_cons_other sep c s Hc) as (l & ls & Hs & ->).
      rewrite Hs in IH. inversion_clear IH as [|? ? Hl Hls].
      constructor; [|done]. apply not_elem_of_cons. by split.
Qed.

Lemma join_cons sep x y ls :
  join sep (x :: y :: ls) = x ++ sep ++ join sep (y :: ls).
Proof. done. Qed.

Lemma join_split sep s : join [sep] (split sep s) = s.
Proof.
  induction s as [|c s IH]; [done|].
  destruct (decide (c = sep)) as [->|Hc].
  - rewrite split_cons_sep.
    pose proof (split_nonempty sep s) as Hne.
    destruct (split sep s) as [|l ls] eqn:Hs; [done|].
    rewrite join_cons, IH. done.
  - destruct (split_cons_other sep c s Hc) as (l & ls & Hs & ->).
    rewrite Hs in IH. destruct ls as [|l' ls]; simpl in *; by rewrite IH.
Qed.

Lemma split_join sep ls :
  ls ≠ [] → Forall (fun l => sep ∉ l) ls → split sep (join [sep] ls) = ls.
Proof.
  induction ls as [|x ls IH]; intros Hne Hall; [done|].
  inversion_clear Hall as [|? ? Hx Hls].
  destruct ls as [|y ls].
  - simpl. by apply split_no_sep.
  - rewrite join_cons. simpl ([sep] ++ _).
    rewrite split_app_sep, split_no_sep by done.
    simpl. f_equal. by apply IH.
Qed.

Lemma length_split sep s : length (split sep s) = S (count s sep).
Proof.
  unfold count. induction s as [|c s IH]; [done|].
  rewrite filter_cons. destruct (decide (c = sep)) as [->|Hc].
  - rewrite split_cons_sep. simpl. by rewrite IH.
  - destruct (split_cons_other sep c s Hc) as (l & ls & Hs & ->).
    by rewrite <- IH, Hs.
Qed.

Lemma split_head_prefix sep s l ls : split sep s = l :: ls → ∃ b, s = l ++ b.
Proof.
  revert l ls. induction s as [|c s IH]; intros l ls Hs.
  - simpl in Hs. simplify_eq. by exists [].
  - destruct (decide (c = sep)) as [->|Hc].
    + rewrite split_cons_sep in Hs. simplify_eq. by exists (sep :: s).
    + destruct (split_cons_other sep c s Hc) as (l0 & ls0 & Hs0 & Hsp).
      rewrite Hsp in Hs. simplify_eq.
      destruct (IH _ _ Hs0) as [b ->]. by exists b.
Qed.

Lemma split_infix sep s l : l ∈ split sep s → ∃ a b, s = a ++ l ++ b.
Proof.
  revert l. induction s as [|c s IH]; intros l Hl.
  - apply list_elem_of_singleton in Hl as ->. by exists [], [].
  - destruct (decide (c = sep)) as [->|Hc].
    + rewrite split_cons_sep in Hl. apply elem_of_cons in Hl as [->|Hl].
      * by exists [], (sep :: s).
      * destruct (IH l Hl) as (a & b & ->). by exists (sep :: a), b.
    + destruct (split_cons_other sep c s Hc) as (l0 & ls & Hs & Hsp).
      rewrite Hsp in Hl. apply elem_of_cons in Hl as [->|Hl].
      * destruct (split_head_prefix _ _ _ _ Hsp) as [b Hb].
        by exists [], b.
      * destruct (IH l) as (a & b & ->); [rewrite Hs; by right|].
        by exists (c :: a), b.
Qed.

Lemma split_snoc_sep sep s : split sep (s ++ [sep]) = split sep s ++ [[]].
Proof. by rewrite split_app_sep. Qed.

Lemma lstrip_decomp s : ∃ a, s = a ++ lstrip s.
Proof.
  induction s as [|c s [a IH]]; [by exists []|]. simpl.
  destruct (isspace c); [|by exists []]. exists (c :: a). by rewrite IH at 1.
Qed.

Lemma lstrip_head s : lstrip s = [] ∨ ∃ c r, lstrip s = c :: r ∧ isspace c = false.
Proof.
  induction s as [|c s IH]; [by left|]. simpl.
  destruct (isspace c) eqn:Hc; [done|]. right. by exists c, s.
Qed.

Lemma lstrip_fixed c r : isspace c = false → lstrip (c :: r) = c :: r.
Proof. intros Hc. simpl. by rewrite Hc. Qed.

Lemma lstrip_idemp s : lstrip (lstrip s) = lstrip s.
Proof.
  destruct (lstrip_head s) as [->|(c & r & -> & Hc)]; [done|].
  by apply lstrip_fixed.
Qed.

Lemma rstrip_decomp s : ∃ b, s = rstrip s ++ b.
Proof.
  unfold rstrip. destruct (lstrip_decomp (rev s)) as [a Ha].
  exists (rev a). by rewrite <- rev_app_distr, <- Ha, rev_involutive.
Qed.

Lemma rstrip_idemp s : rstrip (rstrip s) = rstrip s.
Proof. unfold rstrip. by rewrite rev_involutive, lstrip_idemp. Qed.

Lemma strip_nil : strip [] = [].
Proof. done. Qed.

(** The stripped text is a contiguous part of the text. *)
Lemma strip_infix s : ∃ a b, s = a ++ strip s ++ b.
Proof.
  unfold strip. destruct (lstrip_decomp s) as [a Ha].
  destruct (rstrip_decomp (lstrip s)) as [b Hb].
  exists a, b. by rewrite <- Hb.
Qed.

Lemma strip_idemp s : strip (strip s) = strip s.
Proof.
  unfold strip.
  assert (lstrip (rstrip (lstrip s)) = rstrip (lstrip s)) as ->;
    [|apply rstrip_idemp].
  destruct (rstrip_decomp (lstrip s)) as [b Hb].
  destruct (lstrip_head s) as [Hs|(c & r & Hs & Hc)].
  - rewrite Hs. done.
  - destruct (rstrip (lstrip s)) as [|c' r'] eqn:Hr; [done|].
    rewrite Hs in Hb. simplify_eq/=. by rewrite Hc.
Qed.

(** ** LineIndexer *)

Lemma enumerate_length {A} (l : list A) start :
  length (enumerate l start) = length l.
Proof. revert start. induction l; intros; simpl; by f_equal. Qed.

Lemma uint_digits_no_nl d : NL ∉ uint_digits d.
Proof.
  induction d; simpl; rewrite ?not_elem_of_cons;
    try (split; [done|]); try done; apply not_elem_of_nil.
Qed.

Lemma line_prefix_no_nl i : NL ∉ line_prefix i.
Proof.
  unfold line_prefix, str_of_int. rewrite !not_elem_of_app. split_and!.
  - by apply (bool_decide_unpack _).
  - destruct (Z.to_int i); [|apply not_elem_of_cons; split; [done|]];
      apply uint_digits_no_nl.
  - by apply (bool_decide_unpack _).
Qed.

Lemma render_line_no_nl il : NL ∉ il.2 → NL ∉ render_line il.
Proof.
  intros Hl. unfold render_line. apply not_elem_of_app.
  split; [apply line_prefix_no_nl|done].
Qed.

Lemma enumerate_snd {A} (l : list A) start : (enumerate l start).*2 = l.
Proof. revert start. induction l; intros; simpl; by f_equal. Qed.

Lemma enumerate_lookup {A} (l : list A) start (i : nat) :
  enumerate l start !! i = (fun x => (start + Z.of_nat i, x)) <$> l !! i.
Proof.
  revert start i. induction l as [|x l IH]; intros start i; [done|].
  destruct i as [|i]; simpl.
  - by rewrite Z.add_0_r.
  - rewrite IH. destruct (l !! i); [|done]. simpl. do 2 f_equal. lia.
Qed.

(** The loop of [number_lines], started in any state. *)
Lemma number_lines_loop_fst lines start nl lm :
  (foldl number_lines_step (nl, lm) (enumerate lines start)).1
  = nl ++ (render_line <$> enumerate lines start).
Proof.
  revert start nl lm. induction lines as [|x lines IH]; intros start nl lm.
  - simpl. by rewrite app_nil_r.
  - simpl. rewrite IH. by rewrite <- app_assoc.
Qed.

Lemma number_lines_loop_snd lines start nl lm k :
  (foldl number_lines_step (nl, lm) (enumerate lines start)).2 !! k
  = if decide (start ≤ k < start + Z.of_nat (length lines))
    then strip <$> lines !! Z.to_nat (k - start)
    else lm !! k.
Proof.
  revert start nl lm. induction lines as [|x lines IH]; intros start nl lm.
  - simpl. case_decide; [lia|done].
  - simpl foldl. rewrite IH. simpl length.
    destruct (decide (k = start)) as [->|Hk].
    + rewrite decide_False by lia. rewrite decide_True by lia.
      rewrite lookup_insert_eq. by rewrite Z.sub_diag.
    + rewrite lookup_insert_ne by done.
      repeat case_decide; try lia; [|done].
      replace (Z.to_nat (k - start)) with (S (Z.to_nat (k - (start + 1)))) by lia.
      done.
Qed.

Lemma number_lines_fst text :
  (number_lines text).1 = join [NL] (render_line <$> enumerate (split NL text) 1).
Proof.
  unfold number_lines.
  pose proof (number_lines_loop_fst (split NL text) 1 [] ∅) as Hf.
  destruct (foldl _ _ _) as [nl lm]. simpl in *. by rewrite Hf.
Qed.

Lemma number_lines_snd text k :
  (number_lines text).2 !! k
  = if decide (1 ≤ k ≤ Z.of_nat (length (split NL text)))
    then strip <$> split NL text !! Z.to_nat (k - 1)
    else None.
Proof.
  unfold number_lines.
  pose proof (number_lines_loop_snd (split NL text) 1 [] ∅ k) as Hs.
  destruct (foldl _ _ _) as [nl lm]. simpl in *. rewrite Hs.
  repeat case_decide; try lia; done.
Qed.

(** Every value of the line map is the stripped text of a line of the
    document. *)
Lemma number_lines_value text k q :
  (number_lines text).2 !! k = Some q →
  ∃ line, line ∈ split NL text ∧ q = strip line.
Proof.
  rewrite number_lines_snd. case_decide; [|done].
  intros (line & Hl & ->)%fmap_Some. exists line. split; [|done].
  by eapply list_elem_of_lookup_2.
Qed.

Lemma number_lines_split text :
  split NL (number_lines text).1 = render_line <$> enumerate (split NL text) 1.
Proof.
  rewrite number_lines_fst. apply split_join.
  - pose proof (split_nonempty NL text). by destruct (split NL text).
  - apply Forall_fmap, Forall_forall. intros [i l] Hil. simpl.
    apply render_line_no_nl. simpl.
    pose proof (split_pieces NL text) as Hp.
    rewrite Forall_forall in Hp. apply Hp.
    rewrite <- (enumerate_snd (split NL text) 1).
    apply list_elem_of_fmap. by exists (i, l).
Qed.

Lemma number_lines_keys text k :
  is_Some ((number_lines text).2 !! k) ↔ 1 ≤ k ≤ Z.of_nat (count text NL) + 1.
Proof.
  rewrite number_lines_snd, length_split. case_decide as Hk.
  - split; [lia|]. intros _. apply fmap_is_Some, lookup_lt_is_Some.
    rewrite length_split. lia.
  - split; [by intros []|lia].
Qed.

Lemma number_lines_size text :
  size (number_lines text).2 = S (count text NL).
Proof.
  assert (dom (number_lines text).2
          =@{gset Z} list_to_set (seqZ 1 (Z.of_nat (S (count text NL)))))
    as Hdom.
  { apply set_eq. intros k.
    rewrite elem_of_dom, number_lines_keys, elem_of_list_to_set, elem_of_seqZ.
    lia. }
  rewrite <- size_dom, Hdom, size_list_to_set by apply NoDup_seqZ.
  rewrite length_seqZ. lia.
Qed.

(** C5, the line-count invariant: for a text of N lines the keys of the line
    map are exactly 1..N (identifier i+1 holds the stripped line of index
    i), and the numbered text splits back into exactly N lines, the one of
    index i being the marker of i+1 followed by the untrimmed line. *)
Theorem line_count_invariant (text : str) :
  (∀ k, is_Some ((number_lines text).2 !! k)
        ↔ 1 ≤ k ≤ Z.of_nat (length (split NL text))) ∧
  dom (number_lines text).2
  = list_to_set (seqZ 1 (Z.of_nat (length (split NL text)))) ∧
  (∀ i : nat, (number_lines text).2 !! (Z.of_nat i + 1)
              = strip <$> split NL text !! i) ∧
  (∀ i : nat, split NL (number_lines text).1 !! i
              = (fun line => py "[LINE_" ++ str_of_int (Z.of_nat i + 1)
                             ++ py "] " ++ line) <$> split NL text !! i) ∧
  length (split NL (number_lines text).1) = length (split NL text).
Proof.
  assert (Hkeys : ∀ k, is_Some ((number_lines text).2 !! k)
                       ↔ 1 ≤ k ≤ Z.of_nat (length (split NL text))).
  { intros k. rewrite number_lines_snd. case_decide as Hk.
    - split; [done|]. intros _. apply fmap_is_Some, lookup_lt_is_Some. lia.
    - split; [by intros []|done]. }
  assert (Hsplit : split NL (number_lines text).1
                   = render_line <$> enumerate (split NL text) 1).
  { rewrite number_lines_fst. apply split_join.
    - pose proof (split_nonempty NL text).
      by destruct (split NL text).
    - apply Forall_fmap, Forall_forall. intros [i l] Hil. simpl.
      apply render_line_no_nl. simpl.
      pose proof (split_pieces NL text) as Hp.
      rewrite Forall_forall in Hp. apply Hp.
      rewrite <- (enumerate_snd (split NL text) 1).
      apply list_elem_of_fmap. by exists (i, l). }
  split_and!.
  - done.
  - apply set_eq. intros k.
    rewrite elem_of_dom, Hkeys, elem_of_list_to_set, elem_of_seqZ. lia.
  - intros i. rewrite number_lines_snd.
    replace (Z.to_nat (Z.of_nat i + 1 - 1)) with i by lia.
    case_decide as Hi; [done|].
    symmetry. apply fmap_None, lookup_ge_None. lia.
  - intros i. rewrite Hsplit, list_lookup_fmap, enumerate_lookup.
    destruct (split NL text !! i) as [line|]; [|done]. simpl.
    unfold render_line, line_prefix. simpl.
    replace (1 + Z.of_nat i) with (Z.of_nat i + 1) by lia.
    by rewrite <- ?app_assoc.
  - by rewrite Hsplit, length_fmap, enumerate_length.
Qed.

(** Counterexample to C6 as stated: the map built for the empty text is not
    empty, it binds identifier 1 (to the empty string). *)
Lemma number_lines_empty_text_map :
  (number_lines []).2 !! 1 = Some [] ∧ size (number_lines []).2 = 1%nat.
Proof. done. Qed.

(** C6, as amended: [number_lines] returns on every text; the line map
    always holds identifier 1; for the empty text the result is the
    one-entry map binding 1 to the empty string, with the single rendered
    line [[LINE_1] ]. *)
Theorem number_lines_total_and_empty :
  (∀ text, ∃ numbered_text line_map,
      number_lines text = (numbered_text, line_map)
      ∧ is_Some (line_map !! 1)
      ∧ split NL numbered_text ≠ []) ∧
  number_lines [] = (py "[LINE_1] ", {[1 := []]}) ∧
  split NL (py "[LINE_1] ") = [py "[LINE_1] "].
Proof.
  split_and!.
  - intros text. exists (number_lines text).1, (number_lines text).2.
    split_and!.
    + by destruct (number_lines text).
    + rewrite number_lines_snd.
      pose proof (split_nonempty NL text).
      destruct (split NL text) as [|l ls] eqn:Hs; [done|].
      rewrite decide_True by (simpl; lia). done.
    + apply split_nonempty.
  - done.
  - done.
Qed.

(** ** EvidenceResolver *)

Section ResolverProperties.
Context `{PyRuntime}.

Lemma truthy_nonempty s : truthy s = true ↔ s ≠ [].
Proof. by destruct s. Qed.

(** What the loop adds to [evidence]: records whose quote is a non-empty
    value of the line map, under the given topic. *)
Lemma resolve_loop_sound items line_map topic0 evidence recs :
  resolve_loop items line_map topic0 evidence = Ok recs →
  ∃ found, recs = evidence ++ found
    ∧ Forall (fun r => quote r ≠ [] ∧ topic r = topic0
                       ∧ ∃ k, line_map !! k = Some (quote r)) found.
Proof.
  revert evidence. induction items as [|x items IH]; intros evidence Hr.
  - simpl in Hr. simplify_eq. exists []. by rewrite app_nil_r.
  - simpl in Hr. destruct (int_key x) as [k|e]; [|done]. simpl in Hr.
    destruct (k ≫= (line_map !!.)) as [text|] eqn:Hk; [|by apply IH].
    destruct (truthy text) eqn:Ht; [|by apply IH].
    apply IH in Hr as (found & -> & Hall).
    eexists (_ :: found). split; [by rewrite <- app_assoc|].
    constructor; [|done]. simpl. split_and!; [by apply truthy_nonempty|done|].
    destruct k as [k|]; [|done]. by exists k.
Qed.

Lemma extract_sound line_ids line_map topic0 recs :
  extract_evidence_from_line_ids line_ids line_map topic0 = Ok recs →
  Forall (fun r => quote r ≠ [] ∧ topic r = topic0
                   ∧ ∃ k, line_map !! k = Some (quote r)) recs.
Proof.
  unfold extract_evidence_from_line_ids.
  destruct (py_iter line_ids) as [items|]; [|done]. simpl.
  by intros (found & -> & Hall)%resolve_loop_sound.
Qed.

(** The loop on [int] identifiers: it never raises, and appends the records
    of the usable identifiers in their order, repeats included. *)
Lemma resolve_loop_ints (ids : list Z) line_map topic0 evidence :
  resolve_loop (PInt <$> ids) line_map topic0 evidence
  = Ok (evidence ++ (record_of line_map topic0
                       <$> filter (fun i => usable line_map i) ids)).
Proof.
  revert evidence. induction ids as [|i ids IH]; intros evidence.
  - simpl. by rewrite app_nil_r.
  - rewrite filter_cons. cbn.
    destruct (usable line_map i) eqn:Hu; unfold usable in Hu.
    + rewrite decide_True by done.
      destruct (line_map !! i) as [text|] eqn:Hi; [|done].
      rewrite Hu, IH, fmap_cons, <- app_assoc.
      unfold record_of. by rewrite Hi.
    + rewrite decide_False by (by intros []).
      destruct (line_map !! i) as [text|] eqn:Hi; [|done].
      by rewrite Hu.
Qed.

(** The loop raises only on a candidate that cannot be hashed. *)
Lemma resolve_loop_hashable items line_map topic0 evidence :
  Forall (fun x => ∀ e, int_key x ≠ Raise e) items →
  ∃ recs, resolve_loop items line_map topic0 evidence = Ok recs.
Proof.
  revert evidence. induction items as [|x items IH]; intros evidence Hall.
  - by eexists.
  - inversion_clear Hall as [|? ? Hx Hitems]. cbn.
    destruct (int_key x) as [k|e]; [|by destruct (Hx e)]. cbn.
    destruct (k ≫= (line_map !!.)) as [text|]; [|by apply IH].
    destruct (truthy text); by apply IH.
Qed.

(** An identifier whose mapped text is empty, or that is no key, adds
    nothing: removing every candidate that denotes it leaves the result
    unchanged. *)
Lemma resolve_loop_skips n items line_map topic0 evidence :
  usable line_map n = false →
  resolve_loop items line_map topic0 evidence
  = resolve_loop (filter (fun x => denotes x n = false) items)
      line_map topic0 evidence.
Proof.
  intros Hn. revert evidence.
  induction items as [|x items IH]; intros evidence; [done|].
  rewrite filter_cons.
  destruct (denotes x n) eqn:Hd; unfold denotes in Hd.
  - rewrite decide_False by done.
    destruct (int_key x) as [[k|]|e] eqn:Hx; try done.
    apply bool_decide_eq_true in Hd as ->. cbn. rewrite Hx. cbn.
    unfold usable in Hn. destruct (line_map !! n) as [text|]; [|done].
    by rewrite Hn.
  - rewrite decide_True by done. cbn.
    destruct (int_key x) as [k|e]; [|done]. cbn.
    destruct (k ≫= (line_map !!.)) as [text|]; [|done].
    destruct (truthy text); [|done]. apply IH.
Qed.

Lemma extract_grounded text line_ids topic0 recs r :
  extract_evidence_from_line_ids line_ids (number_lines text).2 topic0
  = Ok recs →
  r ∈ recs → grounded text r.
Proof.
  intros Hall%extract_sound Hr. rewrite Forall_forall in Hall.
  destruct (Hall r Hr) as (Hne & _ & k & Hk).
  apply number_lines_value in Hk as (line & Hline & Hq).
  split_and!; [done|by exists line|].
  destruct (split_infix _ _ _ Hline) as (a & b & ->).
  destruct (strip_infix line) as (a' & b' & Hl).
  exists (a ++ a'), (b' ++ b). rewrite Hq, Hl at 1.
  by rewrite <- !app_assoc.
Qed.

(** What [main] puts in the verified evidence object. *)
Lemma main_extracted_inv line_ids_result line_map extracted :
  main_extracted line_ids_result line_map = Ok extracted →
  ∃ pairs found1 found2,
    line_ids_result = PDict pairs
    ∧ extract_evidence_from_line_ids
        (default (PList [])
           (dict_lookup pairs (py "index_test_blinding_line_ids")))
        line_map (py "index_test_blinding") = Ok found1
    ∧ extract_evidence_from_line_ids
        (default (PList []) (dict_lookup pairs (py "threshold_line_ids")))
        line_map (py "threshold") = Ok found2
    ∧ evidence_quotes extracted = found1 ++ found2
    ∧ not_found extracted
      = default (PList []) (dict_lookup pairs (py "not_found"))
    ∧ study_id extracted = STUDY_ID.
Proof.
  intros He. unfold main_extracted in He.
  destruct line_ids_result as [| | | | | |pairs]; try done. cbn in He.
  destruct (extract_evidence_from_line_ids _ _ (py "index_test_blinding"))
    as [found1|] eqn:H1; [|done]. cbn in He.
  destruct (extract_evidence_from_line_ids _ _ (py "threshold"))
    as [found2|] eqn:H2; [|done]. cbn in He. simplify_eq.
  by exists pairs, found1, found2.
Qed.

(** C1, the grounding invariant: whatever the model proposes, each record
    the resolver returns on the line map of a document, and so each record
    [main] puts in the verified evidence object, has a non-empty quote that
    is the stripped text of one of the document's lines, hence a contiguous
    part of the document. *)
Theorem grounding_invariant :
  (∀ text line_ids topic0 recs r,
     extract_evidence_from_line_ids line_ids (number_lines text).2 topic0
     = Ok recs →
     r ∈ recs →
     quote r ≠ []
     ∧ (∃ line, line ∈ split NL text ∧ quote r = strip line)
     ∧ (∃ before after, text = before ++ quote r ++ after)) ∧
  (∀ text line_ids_result extracted r,
     main_extracted line_ids_result (number_lines text).2 = Ok extracted →
     r ∈ evidence_quotes extracted →
     grounded text r).
Proof.
  split.
  - intros text line_ids topic0 recs r. apply extract_grounded.
  - intros text reply extracted r
      (pairs & found1 & found2 & _ & H1 & H2 & -> & _)%main_extracted_inv
      [Hr|Hr]%elem_of_app.
    + exact (extract_grounded _ _ _ _ _ H1 Hr).
    + exact (extract_grounded _ _ _ _ _ H2 Hr).
Qed.

Lemma number_lines_trimmed text :
  map_Forall (fun _ q => strip q = q) (number_lines text).2.
Proof.
  intros k q (line & _ & ->)%number_lines_value. apply strip_idemp.
Qed.

Lemma usable_trimmed line_map i :
  map_Forall (fun _ q => strip q = q) line_map →
  usable line_map i = usable_after_trimming line_map i.
Proof.
  intros Hm. unfold usable, usable_after_trimming.
  destruct (line_map !! i) as [q|] eqn:Hi; [|done].
  by rewrite (Hm _ _ Hi).
Qed.

(** C2: on a line map, whose texts are trimmed (the data model's LineMap,
    and every map [number_lines] builds), and a list of integer candidate
    identifiers, the resolver never raises and returns one record per
    candidate that is a key of the map whose text is non-empty after
    trimming, in input order and with repeats kept.  On the map 1:alpha,
    2:(empty), 3:gamma and the identifiers 1, 2, 3, 4, 99 it returns the
    records of 1 and 3. *)
Theorem resolver_filtering :
  (∀ line_map topic0 (ids : list Z),
     map_Forall (fun _ q => strip q = q) line_map →
     extract_evidence_from_line_ids (PList (PInt <$> ids)) line_map topic0
     = Ok (record_of line_map topic0
             <$> filter (fun i => usable_after_trimming line_map i) ids)) ∧
  (∀ text topic0 (ids : list Z),
     extract_evidence_from_line_ids (PList (PInt <$> ids))
       (number_lines text).2 topic0
     = Ok (record_of (number_lines text).2 topic0
             <$> filter (fun i => usable_after_trimming (number_lines text).2 i)
                   ids)) ∧
  (∀ topic0,
     extract_evidence_from_line_ids
       (PList [PInt 1; PInt 2; PInt 3; PInt 4; PInt 99]) alpha_gamma topic0
     = Ok [mk_evidence (py "alpha") (py "Line 1") topic0;
           mk_evidence (py "gamma") (py "Line 3") topic0]).
Proof.
  assert (∀ line_map topic0 (ids : list Z),
            map_Forall (fun _ q => strip q = q) line_map →
            extract_evidence_from_line_ids (PList (PInt <$> ids)) line_map
              topic0
            = Ok (record_of line_map topic0
                    <$> filter (fun i => usable_after_trimming line_map i)
                          ids)) as Htrimmed.
  { intros line_map topic0 ids Hm. unfold extract_evidence_from_line_ids. cbn.
    rewrite resolve_loop_ints. cbn [app].
    rewrite (list_filter_iff (fun i => usable line_map i)
               (fun i => usable_after_trimming line_map i)); [done|].
    intros i. by rewrite (usable_trimmed _ _ Hm). }
  split_and!.
  - exact Htrimmed.
  - intros text topic0 ids. apply Htrimmed, number_lines_trimmed.
  - done.
Qed.

(** C10: [number_lines] produces one line more than the text has newline
    characters: the numbered text has that many lines, the line map that
    many entries, and its keys are exactly 1 up to that number.  So for a
    text ending in a newline the greatest key of the map is the count of
    newlines plus one, it is bound to the empty string, a candidate list
    holding just that identifier yields no evidence, dropping every
    candidate that denotes it changes no result, and no record the
    resolver returns on that map has an empty quote. *)
Theorem trailing_newline_line :
  (∀ text,
     length (split NL (number_lines text).1) = S (count text NL)
     ∧ size (number_lines text).2 = S (count text NL)
     ∧ ∀ k, is_Some ((number_lines text).2 !! k)
            ↔ 1 ≤ k ≤ Z.of_nat (count text NL) + 1) ∧
  (∀ body,
     let text := body ++ [NL] in
     let last := Z.of_nat (count text NL) + 1 in
     (number_lines text).2 !! last = Some []
     ∧ (∀ k, is_Some ((number_lines text).2 !! k) → k ≤ last)
     ∧ split NL (number_lines text).1 !! Z.to_nat (last - 1)
       = Some (py "[LINE_" ++ str_of_int last ++ py "] ")
     ∧ (∀ topic0,
          extract_evidence_from_line_ids (PList [PInt last])
            (number_lines text).2 topic0 = Ok [])
     ∧ (∀ items topic0,
          extract_evidence_from_line_ids (PList items)
            (number_lines text).2 topic0
          = extract_evidence_from_line_ids
              (PList (filter (fun x => denotes x last = false) items))
              (number_lines text).2 topic0)
     ∧ (∀ line_ids topic0 recs,
          extract_evidence_from_line_ids line_ids (number_lines text).2 topic0
          = Ok recs →
          Forall (fun r => quote r ≠ []) recs)).
Proof.
  assert (Hlen : ∀ text,
            length (split NL (number_lines text).1) = S (count text NL)).
  { intros text.
    by rewrite number_lines_split, length_fmap, enumerate_length, length_split. }
  assert (Hlast : ∀ body,
    (number_lines (body ++ [NL])).2 !! (Z.of_nat (count (body ++ [NL]) NL) + 1)
    = Some []).
  { intros body. rewrite number_lines_snd, length_split.
    rewrite decide_True by lia.
    replace (Z.to_nat _) with (count (body ++ [NL]) NL) by lia.
    rewrite split_snoc_sep.
    assert (count (body ++ [NL]) NL = length (split NL body)) as ->.
    { pose proof (length_split NL (body ++ [NL])) as Hl.
      rewrite split_snoc_sep, length_app in Hl. cbn [length] in Hl. lia. }
    rewrite lookup_app_r by lia. by rewrite Nat.sub_diag. }
  split.
  - intros text. split_and!;
      [apply Hlen|apply number_lines_size|apply number_lines_keys].
  - intros body text last. subst last text. split_and!.
    + apply Hlast.
    + intros k Hk%number_lines_keys. lia.
    + rewrite number_lines_split, list_lookup_fmap, enumerate_lookup.
      replace (Z.to_nat (Z.of_nat (count (body ++ [NL]) NL) + 1 - 1))
        with (count (body ++ [NL]) NL) by lia.
      pose proof (length_split NL (body ++ [NL])) as Hl.
      rewrite split_snoc_sep in Hl |- *. rewrite length_app in Hl.
      cbn [length] in Hl.
      rewrite lookup_app_r by lia.
      replace (count (body ++ [NL]) NL - length (split NL body))%nat
        with 0%nat by lia.
      cbn. unfold render_line, line_prefix. cbn.
      rewrite app_nil_r. do 4 f_equal. lia.
    + intros topic0. unfold extract_evidence_from_line_ids. cbn.
      by rewrite Hlast.
    + intros items topic0. unfold extract_evidence_from_line_ids. cbn.
      apply resolve_loop_skips. unfold usable. by rewrite Hlast.
    + intros line_ids topic0 recs Hr. apply extract_sound in Hr.
      eapply Forall_impl; [exact Hr|]. by intros r (? & _).
Qed.

(** ** Pipeline *)

(** C7: when [main] builds the verified evidence object, its quotes are the
    resolver's records for the index_test_blinding group followed by those
    for the threshold group, and its not_found field is the reply's, as
    is (the empty list when the reply has none).  On the two-line document
    of the end-to-end scenario the quotes are the two expected records. *)
Theorem evidence_assembly :
  (∀ line_ids_result line_map extracted,
     main_extracted line_ids_result line_map = Ok extracted →
     ∃ pairs found1 found2,
       line_ids_result = PDict pairs
       ∧ extract_evidence_from_line_ids
           (default (PList [])
              (dict_lookup pairs (py "index_test_blinding_line_ids")))
           line_map (py "index_test_blinding") = Ok found1
       ∧ extract_evidence_from_line_ids
           (default (PList []) (dict_lookup pairs (py "threshold_line_ids")))
           line_map (py "threshold") = Ok found2
       ∧ evidence_quotes extracted = found1 ++ found2
       ∧ Forall (fun r => topic r = py "index_test_blinding") found1
       ∧ Forall (fun r => topic r = py "threshold") found2
       ∧ not_found extracted
         = default (PList []) (dict_lookup pairs (py "not_found"))
       ∧ study_id extracted = STUDY_ID) ∧
  must_json json.loads reply1 = ([], Ok reply1_value) ∧
  main_extracted reply1_value (number_lines doc1).2
  = Ok (mk_extracted (py "smith_2022")
          [mk_evidence (py "Blinded assessors.") (py "Line 1")
             (py "index_test_blinding");
           mk_evidence (py "Threshold was 5mg.") (py "Line 2")
             (py "threshold")]
          (PList [])).
Proof.
  split_and!.
  - intros r line_map e
      (pairs & found1 & found2 & -> & H1 & H2 & Hq & Hnf & Hid)%main_extracted_inv.
    exists pairs, found1, found2. split_and!; try done.
    + eapply Forall_impl; [by eapply extract_sound|]. by intros r (_ & ? & _).
    + eapply Forall_impl; [by eapply extract_sound|]. by intros r (_ & ? & _).
  - by vm_compute.
  - by vm_compute.
Qed.

End ResolverProperties.

(** The resolver itself does not trim: on a map that holds an untrimmed
    text, which is not a line map and which [main] never passes, a record
    is returned for a text that is empty after trimming.  The trimming is
    done once, in [number_lines]. *)
Lemma resolver_does_not_trim :
  @extract_evidence_from_line_ids example_runtime
    (PList [PInt 1]) {[1 := py " "]} (py "t")
  = Ok [mk_evidence (py " ") (py "Line 1") (py "t")]
  ∧ usable_after_trimming {[1 := py " "]} 1 = false.
Proof. done. Qed.

(** ** JSONExtractor *)

Lemma count_cons s x c :
  count (x :: s) c = ((if decide (x = c) then 1 else 0) + count s c)%nat.
Proof. unfold count. rewrite filter_cons. by case_decide. Qed.

Lemma depth_nil : depth [] = 0.
Proof. done. Qed.

Lemma depth_cons x s :
  depth (x :: s)
  = (if decide (x = LBRACE) then 1 else if decide (x = RBRACE) then -1 else 0)
    + depth s.
Proof.
  unfold depth. rewrite !count_cons.
  repeat case_decide; subst; try done; lia.
Qed.

(** The loop stops at the first closing brace that brings the running count
    to zero. *)
Lemma brace_scan_stop chars i c k :
  chars !! k = Some RBRACE →
  c + depth (take (S k) chars) = 0 →
  (∀ j, (j < k)%nat → chars !! j = Some RBRACE →
        c + depth (take (S j) chars) ≠ 0) →
  brace_scan chars i c = Some (i + k + 1)%nat.
Proof.
  revert i c k. induction chars as [|x chars IH]; intros i c k Hk Hz Hbefore.
  - done.
  - simpl. destruct k as [|k].
    + simpl in Hk. simplify_eq.
      change (take 1 (RBRACE :: chars)) with [RBRACE] in Hz.
      rewrite depth_cons, depth_nil in Hz.
      rewrite decide_False, decide_True in Hz by done. cbn.
      replace (c - 1 =? 0) with true by lia. f_equal. lia.
    + assert (Hrec : ∀ c', c' = c + (depth [x]) →
                brace_scan chars (S i) c' = Some (i + S k + 1)%nat).
      { intros c' ->.
        replace (i + S k + 1)%nat with (S i + k + 1)%nat by lia.
        apply IH; [done| |].
        - rewrite firstn_cons, depth_cons in Hz.
          rewrite depth_cons, depth_nil. lia.
        - intros j Hj Hc. specialize (Hbefore (S j) ltac:(lia) Hc).
          rewrite firstn_cons, depth_cons in Hbefore.
          rewrite depth_cons, depth_nil. lia. }
      rewrite depth_cons, depth_nil in Hrec.
      destruct (x =? LBRACE)%N eqn:Hl.
      { apply N.eqb_eq in Hl as ->. apply Hrec. by rewrite decide_True. }
      apply N.eqb_neq in Hl. rewrite decide_False in Hrec by done.
      destruct (x =? RBRACE)%N eqn:Hr.
      * apply N.eqb_eq in Hr as ->. rewrite decide_True in Hrec by done.
        specialize (Hbefore 0%nat ltac:(lia) eq_refl).
        change (take 1 (RBRACE :: chars)) with [RBRACE] in Hbefore.
        rewrite depth_cons, depth_nil in Hbefore.
        rewrite decide_False, decide_True in Hbefore by done.
        replace (c - 1 =? 0) with false by lia. apply Hrec. lia.
      * apply N.eqb_neq in Hr. rewrite decide_False in Hrec by done.
        apply Hrec. lia.
Qed.

(** The loop runs to its end when no closing brace brings the count to
    zero. *)
Lemma brace_scan_none chars i c :
  (∀ j, chars !! j = Some RBRACE → c + depth (take (S j) chars) ≠ 0) →
  brace_scan chars i c = None.
Proof.
  revert i c. induction chars as [|x chars IH]; intros i c Hnever; [done|].
  simpl.
  assert (Hrec : ∀ c', c' = c + depth [x] → brace_scan chars (S i) c' = None).
  { intros c' ->. apply IH. intros j Hj. specialize (Hnever (S j) Hj).
    rewrite firstn_cons, depth_cons in Hnever.
    rewrite depth_cons, depth_nil. lia. }
  rewrite depth_cons, depth_nil in Hrec.
  destruct (x =? LBRACE)%N eqn:Hl.
  { apply N.eqb_eq in Hl as ->. apply Hrec. by rewrite decide_True. }
  apply N.eqb_neq in Hl. rewrite decide_False in Hrec by done.
  destruct (x =? RBRACE)%N eqn:Hr.
  - apply N.eqb_eq in Hr as ->. rewrite decide_True in Hrec by done.
    specialize (Hnever 0%nat eq_refl).
    change (take 1 (RBRACE :: chars)) with [RBRACE] in Hnever.
    rewrite depth_cons, depth_nil in Hnever.
    rewrite decide_False, decide_True in Hnever by done.
    replace (c - 1 =? 0) with false by lia. apply Hrec. lia.
  - apply N.eqb_neq in Hr. rewrite decide_False in Hrec by done.
    apply Hrec. lia.
Qed.

Lemma contains_elem_of s c : contains s c = true ↔ c ∈ s.
Proof.
  unfold contains. rewrite existsb_exists. split.
  - intros (x & Hx%list_elem_of_In & ->%N.eqb_eq). done.
  - intros Hc. exists c. split; [by apply list_elem_of_In|apply N.eqb_refl].
Qed.

Lemma contains_false s c : contains s c = false ↔ c ∉ s.
Proof.
  rewrite <- contains_elem_of. by destruct (contains s c).
Qed.

Lemma find_Some s c i :
  find s c = Some i ↔ s !! i = Some c ∧ ∀ j, (j < i)%nat → s !! j ≠ Some c.
Proof.
  revert i. induction s as [|x s IH]; intros i; simpl.
  - split; [done|]. by intros [? _].
  - destruct (x =? c)%N eqn:Hx.
    + apply N.eqb_eq in Hx as ->. split.
      * intros [= <-]. split; [done|]. lia.
      * intros [Hi Hfirst]. destruct i as [|i]; [done|].
        by specialize (Hfirst 0%nat ltac:(lia)).
    + apply N.eqb_neq in Hx. rewrite fmap_Some. split.
      * intros (i' & [Hi Hfirst]%IH & ->). split; [done|].
        intros [|j] Hj; simpl; [congruence|]. apply Hfirst. lia.
      * intros [Hi Hfirst]. destruct i as [|i]; [simpl in Hi; congruence|].
        exists i. split; [|done]. apply IH. split; [done|].
        intros j Hj. apply (Hfirst (S j)). lia.
Qed.

Lemma find_elem_of s c : c ∈ s → is_Some (find s c).
Proof.
  induction s as [|x s IH]; intros Hc; [by apply elem_of_nil in Hc|].
  simpl. destruct (x =? c)%N eqn:Hx; [done|].
  apply N.eqb_neq in Hx. apply elem_of_cons in Hc as [->|Hc]; [done|].
  destruct (IH Hc) as [i ->]. done.
Qed.

Lemma depth_app a b : depth (a ++ b) = depth a + depth b.
Proof.
  induction a as [|x a IH]; [by rewrite depth_nil|].
  rewrite <- app_comm_cons, !depth_cons, IH. lia.
Qed.

Lemma slice_drop t start j :
  slice t start (S (start + j)) = take (S j) (drop start t).
Proof. unfold slice. f_equal. lia. Qed.

(** Without an opening brace the text is left as it is. *)
Lemma select_object_no_brace t :
  contains t LBRACE = false → select_object t = t.
Proof. intros Hc. unfold select_object. by rewrite Hc. Qed.

(** The selected span runs from the first opening brace to the place where
    the raw nesting depth, positive until then, returns to zero. *)
Lemma select_object_span t start stop :
  find t LBRACE = Some start →
  (start ≤ stop < length t)%nat →
  (∀ j, (start ≤ j < stop)%nat → 0 < depth (slice t start (S j))) →
  depth (slice t start (S stop)) = 0 →
  select_object t = slice t start (S stop).
Proof.
  intros Hfind [Hle Hlt] Hpos Hzero.
  pose proof Hfind as [Hstart _]%find_Some.
  assert (contains t LBRACE = true) as Hc.
  { apply contains_elem_of. by eapply list_elem_of_lookup_2. }
  unfold select_object. rewrite Hc, Hfind.
  destruct (decide (stop = start)) as [->|Hne].
  { exfalso. replace (S start) with (S (start + 0)) in Hzero by lia.
    rewrite slice_drop in Hzero.
    rewrite (take_S_r _ _ LBRACE) in Hzero
      by (by rewrite lookup_drop, Nat.add_0_r).
    rewrite take_0, app_nil_l, depth_cons, depth_nil in Hzero.
    by rewrite decide_True in Hzero. }
  assert (∃ k, stop = (start + S k)%nat) as [k ->]
    by (exists (stop - start - 1)%nat; lia).
  destruct (lookup_lt_is_Some_2 t (start + S k) Hlt) as [x Hx].
  rewrite slice_drop in Hzero.
  assert (Hx' : drop start t !! S k = Some x) by (by rewrite lookup_drop).
  assert (x = RBRACE) as ->.
  { specialize (Hpos (start + k)%nat ltac:(lia)).
    rewrite slice_drop in Hpos.
    rewrite (take_S_r _ _ x), depth_app, depth_cons, depth_nil in Hzero by done.
    repeat case_decide; subst; try done; lia. }
  rewrite (brace_scan_stop _ start 0 (S k)); [| done | by rewrite Z.add_0_l | ].
  - simpl default. replace (start + S k + 1)%nat with (S (start + S k)) by lia.
    by destruct (Nat.ltb_spec start (S (start + S k))); [|lia].
  - intros j Hj _. specialize (Hpos (start + j)%nat ltac:(lia)).
    rewrite slice_drop in Hpos. lia.
Qed.

(** When the depth never returns to zero the text is left as it is. *)
Lemma select_object_unbalanced t start :
  find t LBRACE = Some start →
  (∀ j, (start ≤ j < length t)%nat → 0 < depth (slice t start (S j))) →
  select_object t = t.
Proof.
  intros Hfind Hpos.
  pose proof Hfind as [Hstart _]%find_Some.
  assert (contains t LBRACE = true) as Hc.
  { apply contains_elem_of. by eapply list_elem_of_lookup_2. }
  unfold select_object. rewrite Hc, Hfind.
  rewrite brace_scan_none.
  - simpl. by rewrite Nat.ltb_irrefl.
  - intros j Hj. apply lookup_lt_Some in Hj. rewrite length_drop in Hj.
    specialize (Hpos (start + j)%nat ltac:(lia)).
    rewrite slice_drop in Hpos. lia.
Qed.

Lemma startswith_app p s : startswith (p ++ s) p = true.
Proof.
  induction p as [|a p IH]; [by destruct s|].
  simpl. by rewrite N.eqb_refl, IH.
Qed.

Lemma rstrip_fixed s d : isspace d = false → rstrip (s ++ [d]) = s ++ [d].
Proof.
  intros Hd. unfold rstrip. rewrite rev_unit, lstrip_fixed by done.
  cbn [rev]. by rewrite rev_involutive.
Qed.

Lemma strip_fixed c s d :
  isspace c = false → isspace d = false →
  strip (c :: s ++ [d]) = c :: s ++ [d].
Proof.
  intros Hc Hd. unfold strip. rewrite lstrip_fixed by done.
  by rewrite app_comm_cons, rstrip_fixed.
Qed.

Lemma removelast_snoc {A} (l : list A) x : removelast (l ++ [x]) = l.
Proof. by rewrite removelast_app, app_nil_r. Qed.

(** The fence is removed whole: what is kept is the trimmed body, less a
    leading [json] tag. *)
Lemma strip_fence_fenced tag body :
  NL ∉ tag →
  strip_fence (fenced tag body)
  = if startswith (strip body) (py "json") then strip (drop 4 (strip body))
    else strip body.
Proof.
  intros Htag. unfold strip_fence.
  assert (Hfix : strip (fenced tag body) = fenced tag body).
  { unfold fenced.
    change (py "```") with ([96; 96; 96]%N).
    change ([96; 96; 96]%N ++ tag ++ [NL] ++ body ++ [NL] ++ [96; 96; 96]%N)
      with (96%N :: [96; 96]%N ++ tag ++ [NL] ++ body ++ [NL] ++ [96; 96]%N ++ [96%N]).
    rewrite !(app_assoc _ _ [96%N]). by apply strip_fixed. }
  rewrite Hfix.
  assert (startswith (fenced tag body) (py "```") = true) as ->
    by apply startswith_app.
  assert (Hsplit : split NL (fenced tag body)
                   = (py "```" ++ tag) :: split NL body ++ [py "```"]).
  { unfold fenced.
    change (py "```" ++ tag ++ [NL] ++ body ++ [NL] ++ py "```")
      with ((py "```" ++ tag) ++ NL :: (body ++ NL :: py "```")).
    rewrite split_app_sep, split_app_sep.
    rewrite (split_no_sep NL (py "```" ++ tag)).
    - by rewrite (split_no_sep NL (py "```")) by (by apply (bool_decide_unpack _)).
    - apply not_elem_of_app. split; [by apply (bool_decide_unpack _)|done]. }
  rewrite Hsplit. cbn [tail].
  assert (List.last ((py "```" ++ tag) :: split NL body ++ [py "```"]) []
          = py "```") as ->.
  { rewrite app_comm_cons. apply last_last. }
  rewrite decide_True by done.
  by rewrite removelast_snoc, join_split.
Qed.

(** Without a leading fence the text is only trimmed. *)
Lemma strip_fence_plain text :
  startswith (strip text) (py "```") = false → strip_fence text = strip text.
Proof. intros Hs. unfold strip_fence. by rewrite Hs. Qed.

Lemma not_elem_of_strip c s : c ∉ s → c ∉ strip s.
Proof.
  intros Hc Hin. destruct (strip_infix s) as (a & b & Hs).
  apply Hc. rewrite Hs. set_solver.
Qed.

Lemma not_elem_of_drop (c : N) n s : c ∉ s → c ∉ drop n s.
Proof.
  intros Hc Hin. apply Hc. rewrite <- (take_drop n s). set_solver.
Qed.

Lemma not_elem_of_join c sep ls :
  c ∉ sep → Forall (fun l => c ∉ l) ls → c ∉ join sep ls.
Proof.
  intros Hsep. induction ls as [|x ls IH]; intros Hall.
  - apply not_elem_of_nil.
  - inversion_clear Hall as [|? ? Hx Hls]. destruct ls as [|y ls]; [done|].
    rewrite join_cons, !not_elem_of_app. split_and!; [done..|by apply IH].
Qed.

Lemma not_elem_of_split c sep s :
  c ∉ s → Forall (fun l => c ∉ l) (split sep s).
Proof.
  intros Hc. apply Forall_forall. intros l (a & b & ->)%split_infix Hin.
  apply Hc. set_solver.
Qed.

Lemma Forall_removelast {A} (P : A → Prop) l :
  Forall P l → Forall P (removelast l).
Proof.
  induction 1 as [|x l Hx Hl IH]; [done|].
  simpl. destruct l; [constructor|]. by constructor.
Qed.

(** Fence stripping brings in no character of its own, the newline apart. *)
Lemma strip_fence_not_elem_of c text :
  c ≠ NL → c ∉ text → c ∉ strip_fence text.
Proof.
  intros Hnl Hc. unfold strip_fence.
  assert (Hs : c ∉ strip text) by (by apply not_elem_of_strip).
  destruct (startswith (strip text) (py "```")); [|done].
  assert (Hj : ∀ ls, Forall (fun l => c ∉ l) ls → c ∉ strip (join [NL] ls)).
  { intros ls Hls. apply not_elem_of_strip, not_elem_of_join; [|done].
    by apply not_elem_of_cons; split; [|apply not_elem_of_nil]. }
  assert (Hlines : Forall (fun l => c ∉ l) (tail (split NL (strip text)))).
  { apply Forall_tail. by apply not_elem_of_split. }
  assert (c ∉ strip (join [NL]
            (if decide (strip (List.last (split NL (strip text)) []) = py "```")
             then removelast (tail (split NL (strip text)))
             else tail (split NL (strip text))))) as Hbody.
  { apply Hj. case_decide; [by apply Forall_removelast|done]. }
  destruct (startswith _ (py "json")); [|done].
  by apply not_elem_of_strip, not_elem_of_drop.
Qed.

(** *** The decoder returns a dict only for a text that opens with a brace *)

Lemma skip_ws_suffix s : ∃ a, s = a ++ json.skip_ws s.
Proof.
  induction s as [|c s [a IH]]; [by exists []|]. simpl.
  destruct (json.is_ws c); [|by exists []]. exists (c :: a). by rewrite IH at 1.
Qed.

Lemma array_loop_list fuel s values v r :
  json.array_loop fuel s values = Ok (v, r) → ∃ l, v = PList l.
Proof.
  revert s values. induction fuel as [|fuel IH]; intros s values Hr; [done|].
  simpl in Hr. destruct (json.scan_once fuel s) as [[value r']|]; [|done].
  cbn in Hr. destruct (json.skip_ws r') as [|c r1]; [done|].
  destruct (c =? 93)%N; [simplify_eq; by eexists|].
  destruct (c =? 44)%N; [by eapply IH|done].
Qed.

Lemma JSONArray_list fuel s v r :
  json.JSONArray fuel s = Ok (v, r) → ∃ l, v = PList l.
Proof.
  destruct fuel as [|fuel]; [done|]. simpl.
  destruct (json.skip_ws s) as [|c r1]; [by apply array_loop_list|].
  destruct (c =? 93)%N; [intros; simplify_eq; by eexists|].
  by apply array_loop_list.
Qed.

Lemma match_number_value s v r :
  json.match_number s = Some (v, r) → (∃ z, v = PInt z) ∨ (∃ f, v = PFloat f).
Proof.
  unfold json.match_number.
  destruct (json.match_integer s) as [[[neg digits] r1]|]; [|done].
  destruct (json.match_frac r1) as [frac r2].
  destruct (json.match_exp r2) as [exp r3].
  destruct frac, exp; intros; simplify_eq; eauto.
Qed.

Lemma scan_once_dict fuel s pairs r :
  json.scan_once fuel s = Ok (PDict pairs, r) → ∃ s', s = LBRACE :: s'.
Proof.
  destruct fuel as [|fuel]; [done|]. destruct s as [|c s']; [done|].
  cbn [json.scan_once].
  destruct (c =? 34)%N.
  { destruct (json.scanstring s') as [[x r']|]; [|done]. cbn. congruence. }
  destruct (c =? 123)%N eqn:Hc.
  { apply N.eqb_eq in Hc as ->. by exists s'. }
  destruct (c =? 91)%N.
  { intros (l & Hl)%JSONArray_list. done. }
  repeat (match goal with |- context [if ?b then _ else _] => destruct b end;
          [congruence|]).
  destruct (json.match_number (c :: s')) as [[v r']|] eqn:Hn.
  { apply match_number_value in Hn as [[z ->]|[f ->]]; congruence. }
  repeat (match goal with |- context [if ?b then _ else _] => destruct b end;
          [congruence|]).
  done.
Qed.

Lemma loads_dict s pairs : json.loads s = Ok (PDict pairs) → LBRACE ∈ s.
Proof.
  unfold json.loads. destruct (startswith s _); [done|].
  destruct (json.scan_once _ _) as [[obj r]|] eqn:Hs; [|done]. cbn.
  destruct (json.skip_ws r); [|done]. intros [= ->].
  apply scan_once_dict in Hs as [s' Hs].
  destruct (skip_ws_suffix s) as [a Ha]. rewrite Ha, Hs. set_solver.
Qed.

(** *** The decoder never runs out of fuel *)

Lemma skip_ws_length s : (length (json.skip_ws s) ≤ length s)%nat.
Proof.
  destruct (skip_ws_suffix s) as [a Ha]. rewrite Ha at 2.
  rewrite length_app. lia.
Qed.

Lemma good_raise {A} e s : e ≠ RecursionError → good (A:=A) (Raise e) s.
Proof. intros He. split; [congruence|done]. Qed.

Lemma good_ok {A} (v : A) r s : (length r < length s)%nat → good (Ok (v, r)) s.
Proof. intros Hr. split; [done|]. intros ? ? [= <- <-]. done. Qed.

Lemma good_shorter {A} (res : result (A * str)) s s' :
  good res s → (length s ≤ length s')%nat → good res s'.
Proof. intros [Hf Hr] Hs. split; [done|]. intros v r Hv. apply Hr in Hv. lia. Qed.

Lemma good_map {A B} (f : A → B) (res : result (A * str)) s :
  good res s → good (res ≫= (fun '(x, r) => Ok (f x, r))) s.
Proof.
  intros [Hf Hr]. destruct res as [[x r]|e]; cbn.
  - apply good_ok. by eapply Hr.
  - by apply good_raise; congruence.
Qed.

Lemma scanstring_errors s e :
  json.scanstring s = Raise e → ∃ msg, e = JSONDecodeError msg.
Proof.
  remember (length s) as n eqn:Hn. revert s e Hn.
  induction n as [n IH] using lt_wf_ind. intros s e ->.
  assert (Hrec : ∀ (t : str) (f : str → str),
            (length t < length s)%nat →
            json.scanstring t ≫= (fun '(x, r) => Ok (f x, r)) = Raise e →
            ∃ msg, e = JSONDecodeError msg).
  { intros t f Ht Hb.
    destruct (json.scanstring t) as [[x r]|e'] eqn:Heq; [done|].
    cbn in Hb. simplify_eq. by eapply IH. }
  destruct s as [|c s1]; [intros [= <-]; by eexists|]. cbn [json.scanstring].
  destruct (c =? 34)%N; [done|].
  destruct (c =? 92)%N.
  - destruct s1 as [|esc s2]; [intros [= <-]; by eexists|].
    destruct (esc =? 117)%N.
    + destruct s2 as [|h1 [|h2 [|h3 [|h4 s3]]]];
        try (intros [= <-]; by eexists).
      destruct s3 as [|b s3]; [intros [= <-]; by eexists|].
      destruct (json.hex4 h1 h2 h3 h4) as [uni|];
        [|intros [= <-]; by eexists].
      assert (Hsingle :
        json.scanstring (b :: s3) ≫= (fun '(x, r) => Ok (uni :: x, r))
        = Raise e →
        ∃ msg, e = JSONDecodeError msg).
      { apply (Hrec (b :: s3) (cons uni)). simpl. lia. }
      destruct ((55296 <=? uni) && (uni <=? 56319))%N; [|by apply Hsingle].
      destruct s3 as [|u [|g1 [|g2 [|g3 [|g4 s4]]]]]; try by apply Hsingle.
      destruct s4 as [|c4 s4]; [by apply Hsingle|].
      destruct ((b =? 92) && (u =? 117))%N; [|by apply Hsingle].
      destruct (json.hex4 g1 g2 g3 g4) as [uni2|];
        [|intros [= <-]; by eexists].
      destruct ((56320 <=? uni2) && (uni2 <=? 57343))%N; [|by apply Hsingle].
      apply (Hrec (c4 :: s4) (cons _)). simpl. lia.
    + destruct (json.backslash esc) as [ch|]; [|intros [= <-]; by eexists].
      apply (Hrec s2 (cons ch)). simpl. lia.
  - destruct (c <? 32)%N; [intros [= <-]; by eexists|].
    apply (Hrec s1 (cons c)). simpl. lia.
Qed.

Lemma scanstring_good s : good (json.scanstring s) s.
Proof.
  remember (length s) as n eqn:Hn. revert s Hn.
  induction n as [n IH] using lt_wf_ind. intros s ->.
  assert (Hrec : ∀ (t : str) (f : str → str),
            (length t < length s)%nat →
            good (json.scanstring t ≫= (fun '(x, r) => Ok (f x, r))) s).
  { intros t f Ht. apply good_map. eapply good_shorter; [by eapply IH|lia]. }
  destruct s as [|c s1]; [by apply good_raise|]. cbn [json.scanstring].
  destruct (c =? 34)%N; [apply good_ok; simpl; lia|].
  destruct (c =? 92)%N.
  - destruct s1 as [|esc s2]; [by apply good_raise|].
    destruct (esc =? 117)%N.
    + destruct s2 as [|h1 [|h2 [|h3 [|h4 s3]]]]; try by apply good_raise.
      destruct s3 as [|b s3]; [by apply good_raise|].
      destruct (json.hex4 h1 h2 h3 h4) as [uni|]; [|by apply good_raise].
      assert (Hsingle :
        good (json.scanstring (b :: s3) ≫= (fun '(x, r) => Ok (uni :: x, r)))
          (c :: esc :: h1 :: h2 :: h3 :: h4 :: b :: s3)).
      { apply (Hrec (b :: s3) (cons uni)). simpl. lia. }
      destruct ((55296 <=? uni) && (uni <=? 56319))%N; [|by apply Hsingle].
      destruct s3 as [|u [|g1 [|g2 [|g3 [|g4 s4]]]]]; try by apply Hsingle.
      destruct s4 as [|c4 s4]; [by apply Hsingle|].
      destruct ((b =? 92) && (u =? 117))%N; [|by apply Hsingle].
      destruct (json.hex4 g1 g2 g3 g4) as [uni2|]; [|by apply good_raise].
      destruct ((56320 <=? uni2) && (uni2 <=? 57343))%N; [|by apply Hsingle].
      apply (Hrec (c4 :: s4) (cons _)). simpl. lia.
    + destruct (json.backslash esc) as [ch|]; [|by apply good_raise].
      apply (Hrec s2 (cons ch)). simpl. lia.
  - destruct (c <? 32)%N; [by apply good_raise|].
    apply (Hrec s1 (cons c)). simpl. lia.
Qed.

Lemma span_digits_length s ds r :
  json.span_digits s = (ds, r) → (length r ≤ length s)%nat.
Proof.
  revert ds r. induction s as [|c s IH]; intros ds r Hs; simpl in Hs.
  - by simplify_eq.
  - destruct (json.is_digit c); [|simplify_eq; done].
    destruct (json.span_digits s) as [ds' r'] eqn:Heq. simplify_eq.
    specialize (IH _ _ eq_refl). simpl. lia.
Qed.

Lemma match_frac_length s frac r :
  json.match_frac s = (frac, r) → (length r ≤ length s)%nat.
Proof.
  unfold json.match_frac. destruct s as [|c s']; [by intros; simplify_eq|].
  destruct (c =? 46)%N; [|by intros; simplify_eq].
  destruct (json.span_digits s') as [ds r'] eqn:Heq.
  apply span_digits_length in Heq.
  destruct ds; intros; simplify_eq; simpl; lia.
Qed.

Lemma match_exp_length s e r :
  json.match_exp s = (e, r) → (length r ≤ length s)%nat.
Proof.
  unfold json.match_exp. destruct s as [|c s']; [by intros; simplify_eq|].
  destruct ((c =? 101) || (c =? 69))%N; [|by intros; simplify_eq].
  assert (∀ sign s2, (length s2 ≤ length s')%nat →
            match json.span_digits s2 with
            | ([], _) => ([], c :: s')
            | (ds, r) => (c :: sign ++ ds, r)
            end = (e, r) → (length r ≤ length (c :: s'))%nat) as Hgen.
  { intros sign s2 Hs2. destruct (json.span_digits s2) as [ds r'] eqn:Heq.
    apply span_digits_length in Heq.
    destruct ds; intros; simplify_eq; simpl; lia. }
  destruct s' as [|g s'']; [by apply Hgen|].
  destruct ((g =? 45) || (g =? 43))%N; apply Hgen; simpl; lia.
Qed.

Lemma match_natural_progress s ds r :
  json.match_natural s = Some (ds, r) → (length r < length s)%nat.
Proof.
  unfold json.match_natural. destruct s as [|c s']; [done|].
  destruct (c =? 48)%N; [intros; simplify_eq; simpl; lia|].
  destruct (json.is_digit c); [|done].
  destruct (json.span_digits s') as [ds' r'] eqn:Heq.
  apply span_digits_length in Heq. intros; simplify_eq. simpl. lia.
Qed.

Lemma match_number_progress s v r :
  json.match_number s = Some (v, r) → (length r < length s)%nat.
Proof.
  unfold json.match_number.
  destruct (json.match_integer s) as [[[neg digits] r1]|] eqn:Hi; [|done].
  destruct (json.match_frac r1) as [frac r2] eqn:Hf.
  destruct (json.match_exp r2) as [exp r3] eqn:He.
  apply match_frac_length in Hf. apply match_exp_length in He.
  assert (length r1 < length s)%nat.
  { unfold json.match_integer in Hi. destruct s as [|c s']; [done|].
    destruct (c =? 45)%N.
    - destruct (json.match_natural s') as [[ds r']|] eqn:Hn; [|done].
      cbn in Hi. simplify_eq. apply match_natural_progress in Hn. simpl. lia.
    - destruct (json.match_natural (c :: s')) as [[ds r']|] eqn:Hn; [|done].
      cbn in Hi. simplify_eq. by apply match_natural_progress in Hn. }
  destruct frac, exp; intros; simplify_eq; lia.
Qed.

Lemma startswith_length s p : startswith s p = true → (length p ≤ length s)%nat.
Proof.
  revert s. induction p as [|a p IH]; intros s Hs; [simpl; lia|].
  destruct s as [|b s]; [done|]. simpl in Hs.
  apply andb_true_iff in Hs as [_ Hs]. apply IH in Hs. simpl. lia.
Qed.

Lemma fuel_enough fuel :
  (∀ s, (3 * length s + 1 ≤ fuel)%nat → good (json.scan_once fuel s) s)
  ∧ (∀ s, (3 * length s + 3 ≤ fuel)%nat → good (json.JSONObject fuel s) s)
  ∧ (∀ s pairs, (3 * length s + 5 ≤ fuel)%nat →
       good (json.object_loop fuel s pairs) s)
  ∧ (∀ s, (3 * length s + 3 ≤ fuel)%nat → good (json.JSONArray fuel s) s)
  ∧ (∀ s values, (3 * length s + 2 ≤ fuel)%nat →
       good (json.array_loop fuel s values) s).
Proof.
  induction fuel as [|fuel (IHscan & IHobj & IHoloop & IHarr & IHaloop)].
  { split_and!; intros; lia. }
  split_and!.
  - (* scan_once *)
    intros s Hf. destruct s as [|c s']; [by apply good_raise|].
    cbn [json.scan_once]. simpl length in Hf.
    destruct (c =? 34)%N.
    { apply good_map. eapply good_shorter; [apply scanstring_good|simpl; lia]. }
    destruct (c =? 123)%N.
    { eapply good_shorter; [apply IHobj; lia|simpl; lia]. }
    destruct (c =? 91)%N.
    { eapply good_shorter; [apply IHarr; lia|simpl; lia]. }
    destruct (startswith (c :: s') (py "null")) eqn:H1.
    { apply good_ok. apply startswith_length in H1.
      rewrite length_drop. simpl in *. lia. }
    destruct (startswith (c :: s') (py "true")) eqn:H2.
    { apply good_ok. apply startswith_length in H2.
      rewrite length_drop. simpl in *. lia. }
    destruct (startswith (c :: s') (py "false")) eqn:H3.
    { apply good_ok. apply startswith_length in H3.
      rewrite length_drop. simpl in *. lia. }
    destruct (json.match_number (c :: s')) as [[v r]|] eqn:Hn.
    { apply good_ok. by apply match_number_progress in Hn. }
    destruct (startswith (c :: s') (py "NaN")) eqn:H4.
    { apply good_ok. apply startswith_length in H4.
      rewrite length_drop. simpl in *. lia. }
    destruct (startswith (c :: s') (py "Infinity")) eqn:H5.
    { apply good_ok. apply startswith_length in H5.
      rewrite length_drop. simpl in *. lia. }
    destruct (startswith (c :: s') (py "-Infinity")) eqn:H6.
    { apply good_ok. apply startswith_length in H6.
      rewrite length_drop. simpl in *. lia. }
    by apply good_raise.
  - (* JSONObject *)
    intros s Hf. cbn [json.JSONObject].
    pose proof (skip_ws_length s) as Hw.
    destruct (json.skip_ws s) as [|c r]; [by apply good_raise|].
    simpl in Hw.
    destruct (c =? 125)%N; [apply good_ok; lia|].
    destruct (c =? 34)%N; [|by apply good_raise].
    eapply good_shorter; [apply IHoloop; lia|lia].
  - (* object_loop *)
    intros s pairs Hf. cbn [json.object_loop].
    destruct (scanstring_good s) as [Hs1 Hs2].
    destruct (json.scanstring s) as [[key r]|e]; cbn;
      [|by apply good_raise; congruence].
    specialize (Hs2 _ _ eq_refl).
    pose proof (skip_ws_length r) as Hw.
    destruct (json.skip_ws r) as [|c r1]; [by apply good_raise|].
    simpl in Hw.
    destruct (c =? 58)%N; [|by apply good_raise].
    pose proof (skip_ws_length r1) as Hw1.
    destruct (IHscan (json.skip_ws r1)) as [Hv1 Hv2]; [lia|].
    destruct (json.scan_once fuel (json.skip_ws r1)) as [[value r2]|e]; cbn;
      [|by apply good_raise; congruence].
    specialize (Hv2 _ _ eq_refl).
    pose proof (skip_ws_length r2) as Hw2.
    destruct (json.skip_ws r2) as [|d r3]; [by apply good_raise|].
    simpl in Hw2.
    destruct (d =? 125)%N; [apply good_ok; lia|].
    destruct (d =? 44)%N; [|by apply good_raise].
    pose proof (skip_ws_length r3) as Hw3.
    destruct (json.skip_ws r3) as [|q r4]; [by apply good_raise|].
    simpl in Hw3.
    destruct (q =? 34)%N; [|by apply good_raise].
    eapply good_shorter; [apply IHoloop; lia|lia].
  - (* JSONArray *)
    intros s Hf. cbn [json.JSONArray].
    pose proof (skip_ws_length s) as Hw.
    destruct (json.skip_ws s) as [|c r].
    + eapply good_shorter; [apply IHaloop; simpl; lia|simpl; lia].
    + simpl in Hw. destruct (c =? 93)%N; [apply good_ok; lia|].
      eapply good_shorter; [apply IHaloop; simpl; lia|simpl; lia].
  - (* array_loop *)
    intros s values Hf. cbn [json.array_loop].
    destruct (IHscan s) as [Hv1 Hv2]; [lia|].
    destruct (json.scan_once fuel s) as [[value r]|e]; cbn;
      [|by apply good_raise; congruence].
    specialize (Hv2 _ _ eq_refl).
    pose proof (skip_ws_length r) as Hw.
    destruct (json.skip_ws r) as [|c r1]; [by apply good_raise|].
    simpl in Hw.
    destruct (c =? 93)%N; [apply good_ok; lia|].
    destruct (c =? 44)%N; [|by apply good_raise].
    pose proof (skip_ws_length r1) as Hw1.
    eapply good_shorter; [apply IHaloop; lia|lia].
Qed.

(** The decoder raises nothing but [RecursionError] and
    [JSONDecodeError]. *)
Lemma decoder_errors fuel :
  (∀ s e, json.scan_once fuel s = Raise e →
          e = RecursionError ∨ ∃ msg, e = JSONDecodeError msg)
  ∧ (∀ s e, json.JSONObject fuel s = Raise e →
            e = RecursionError ∨ ∃ msg, e = JSONDecodeError msg)
  ∧ (∀ s pairs e, json.object_loop fuel s pairs = Raise e →
            e = RecursionError ∨ ∃ msg, e = JSONDecodeError msg)
  ∧ (∀ s e, json.JSONArray fuel s = Raise e →
            e = RecursionError ∨ ∃ msg, e = JSONDecodeError msg)
  ∧ (∀ s values e, json.array_loop fuel s values = Raise e →
            e = RecursionError ∨ ∃ msg, e = JSONDecodeError msg).
Proof.
  induction fuel as [|fuel (IHscan & IHobj & IHoloop & IHarr & IHaloop)].
  { split_and!; intros; cbn in *; simplify_eq; by left. }
  assert (Hstr : ∀ (s : str) A (k : str * str → result A) e,
            (∀ xr e, k xr = Raise e →
                     e = RecursionError ∨ ∃ msg, e = JSONDecodeError msg) →
            json.scanstring s ≫= k = Raise e →
            e = RecursionError ∨ ∃ msg, e = JSONDecodeError msg).
  { intros s A k e Hk Hs.
    destruct (json.scanstring s) as [xr|e'] eqn:Heq; cbn in Hs.
    - by eapply Hk.
    - simplify_eq. pose proof (scanstring_errors s e Heq). by right. }
  split_and!.
  - intros s e. destruct s as [|c s']; [intros [= <-]; right; by eexists|].
    cbn [json.scan_once].
    destruct (c =? 34)%N.
    { apply Hstr. by intros [x r] e'. }
    destruct (c =? 123)%N; [apply IHobj|].
    destruct (c =? 91)%N; [apply IHarr|].
    repeat (match goal with |- context [if ?b then _ else _] => destruct b end;
            [done|]).
    destruct (json.match_number (c :: s')); [done|].
    repeat (match goal with |- context [if ?b then _ else _] => destruct b end;
            [done|]).
    intros [= <-]; right; by eexists.
  - intros s e. cbn [json.JSONObject].
    destruct (json.skip_ws s) as [|c r]; [intros [= <-]; right; by eexists|].
    destruct (c =? 125)%N; [done|].
    destruct (c =? 34)%N; [apply IHoloop|intros [= <-]; right; by eexists].
  - intros s pairs e. cbn [json.object_loop]. apply Hstr. intros [key r] e'.
    destruct (json.skip_ws r) as [|c r1]; [intros [= <-]; right; by eexists|].
    destruct (c =? 58)%N; [|intros [= <-]; right; by eexists].
    destruct (json.scan_once fuel (json.skip_ws r1)) as [[value r2]|e2] eqn:Hv;
      cbn; [|intros [= <-]; by eapply IHscan].
    destruct (json.skip_ws r2) as [|d r3]; [intros [= <-]; right; by eexists|].
    destruct (d =? 125)%N; [done|].
    destruct (d =? 44)%N; [|intros [= <-]; right; by eexists].
    destruct (json.skip_ws r3) as [|q r4]; [intros [= <-]; right; by eexists|].
    destruct (q =? 34)%N; [apply IHoloop|intros [= <-]; right; by eexists].
  - intros s e. cbn [json.JSONArray].
    destruct (json.skip_ws s) as [|c r]; [apply IHaloop|].
    destruct (c =? 93)%N; [done|apply IHaloop].
  - intros s values e. cbn [json.array_loop].
    destruct (json.scan_once fuel s) as [[value r]|e2] eqn:Hv;
      cbn; [|intros [= <-]; by eapply IHscan].
    destruct (json.skip_ws r) as [|c r1]; [intros [= <-]; right; by eexists|].
    destruct (c =? 93)%N; [done|].
    destruct (c =? 44)%N; [apply IHaloop|intros [= <-]; right; by eexists].
Qed.

(** [json.loads] never runs out of fuel: it returns a value or raises a
    [JSONDecodeError]. *)
Lemma loads_fuel_enough s :
  (∃ v, json.loads s = Ok v) ∨ (∃ msg, json.loads s = Raise (JSONDecodeError msg)).
Proof.
  unfold json.loads. destruct (startswith s _); [right; by eexists|].
  pose proof (skip_ws_length s) as Hw.
  destruct (fuel_enough (3 * length s + 3)) as (Hscan & _).
  destruct (Hscan (json.skip_ws s)) as [Hf _]; [lia|].
  destruct (json.scan_once _ _) as [[obj r]|e] eqn:Hs; cbn.
  - destruct (json.skip_ws r); [left|right]; by eexists.
  - right. clear Hscan. revert Hs. generalize (3 * length s + 3)%nat.
    intros fuel Hs. destruct (decoder_errors fuel) as (He & _).
    destruct (He _ _ Hs) as [->|[msg ->]]; [done|by eexists].
Qed.
Lemma count_not_elem_of s c : c ∉ s → count s c = 0%nat.
Proof.
  induction s as [|x s IH]; intros Hc; [done|].
  apply not_elem_of_cons in Hc as [Hx Hs].
  rewrite count_cons, decide_False by done. by apply IH.
Qed.

Lemma depth_no_brace s : LBRACE ∉ s → RBRACE ∉ s → depth s = 0.
Proof. intros Hl Hr. unfold depth. by rewrite !count_not_elem_of. Qed.

(** The first closing brace after a stretch without braces ends the span,
    whatever else the stretch holds. *)
Lemma select_object_first_close a b :
  LBRACE ∉ a → RBRACE ∉ a →
  select_object (LBRACE :: a ++ RBRACE :: b) = LBRACE :: a ++ [RBRACE].
Proof.
  intros Hl Hr.
  assert (Htake : ∀ j, (j ≤ length a)%nat →
            slice (LBRACE :: a ++ RBRACE :: b) 0 (S j) = LBRACE :: take j a).
  { intros j Hj. unfold slice. rewrite drop_0, Nat.sub_0_r, firstn_cons.
    by rewrite take_app_le. }
  assert (Hall : slice (LBRACE :: a ++ RBRACE :: b) 0 (S (S (length a)))
                 = LBRACE :: a ++ [RBRACE]).
  { unfold slice. rewrite drop_0, Nat.sub_0_r, firstn_cons. f_equal.
    replace (S (length a)) with (length a + 1)%nat by lia.
    by rewrite take_app_add. }
  rewrite (select_object_span _ 0 (S (length a))).
  - done.
  - done.
  - simpl. rewrite length_app. simpl. lia.
  - intros j Hj. rewrite Htake by lia. rewrite depth_cons, decide_True by done.
    rewrite depth_no_brace; [lia| |].
    + intros (i & Hi & _)%elem_of_take. apply Hl. by eapply list_elem_of_lookup_2.
    + intros (i & Hi & _)%elem_of_take. apply Hr. by eapply list_elem_of_lookup_2.
  - rewrite Hall, depth_cons, decide_True by done.
    rewrite depth_app, depth_no_brace by done.
    rewrite depth_cons, depth_nil, decide_False, decide_True by done. done.
Qed.

(** C3, extraction robustness: [must_json] returns the object with the one
    pair a:1 for the bare text, for the text wrapped in prose and for the
    fenced block, and the whole nested object for the nested text.  It
    parses the span selected from the fence-stripped text; a fence is
    removed whole; the span runs from the first opening brace to the place
    where the raw nesting depth returns to zero; a span that parses is
    returned with nothing printed. *)
Theorem extraction_robustness :
  must_json json.loads (jq "{'a': 1}")
  = ([], Ok (PDict [(py "a", PInt 1)])) ∧
  must_json json.loads (jq "Sure! {'a': 1} Hope that helps.")
  = ([], Ok (PDict [(py "a", PInt 1)])) ∧
  must_json json.loads (py "```json" ++ [NL] ++ jq "{'a': 1}" ++ [NL] ++ py "```")
  = ([], Ok (PDict [(py "a", PInt 1)])) ∧
  must_json json.loads (jq "{'a': {'b': 1}}")
  = ([], Ok (PDict [(py "a", PDict [(py "b", PInt 1)])])) ∧
  (∀ loads text,
     must_json loads text
     = parse_or_report loads (select_object (strip_fence text))) ∧
  (∀ tag body,
     NL ∉ tag →
     strip_fence (fenced tag body)
     = if startswith (strip body) (py "json") then strip (drop 4 (strip body))
       else strip body) ∧
  (∀ t start stop,
     find t LBRACE = Some start →
     (start ≤ stop < length t)%nat →
     (∀ j, (start ≤ j < stop)%nat → 0 < depth (slice t start (S j))) →
     depth (slice t start (S stop)) = 0 →
     select_object t = slice t start (S stop)) ∧
  (∀ loads text v,
     loads (select_object (strip_fence text)) = Ok v →
     must_json loads text = ([], Ok v)).
Proof.
  split_and!.
  - by vm_compute.
  - by vm_compute.
  - by vm_compute.
  - by vm_compute.
  - reflexivity.
  - apply strip_fence_fenced.
  - apply select_object_span.
  - intros loads text v Hv. unfold must_json, parse_or_report. by rewrite Hv.
Qed.

(** C8: the code at the failing input.  In the reply
    [Sure! {"a": } bye] the selected span is [{"a": }]; it does not parse,
    and [must_json] prints one notice, raises the [JSONDecodeError] and
    returns no value.  But the notice, which the code itself labels Raw
    response, holds the span and not the reply: the prose around the
    object is not in what is printed.  Of every reply and every parser:
    the notice is built from the selected span. *)
Theorem raw_response_not_surfaced :
  select_object (strip_fence (jq "Sure! {'a': } bye")) = jq "{'a': }"
  ∧ must_json json.loads (jq "Sure! {'a': } bye")
    = ([[NL; 10060%N] ++ py " Failed to parse JSON. Raw response:" ++ [NL]
        ++ jq "{'a': }" ++ [NL]],
       Raise (JSONDecodeError (py "Expecting value")))
  ∧ (∀ notice, notice ∈ (must_json json.loads (jq "Sure! {'a': } bye")).1 →
       ¬ part_of (py "Sure!") notice ∧ ¬ part_of (py "bye") notice
       ∧ ¬ part_of (jq "Sure! {'a': } bye") notice)
  ∧ (∀ (loads : str → result pyval) text msg,
       loads (select_object (strip_fence text)) = Raise (JSONDecodeError msg) →
       must_json loads text
       = ([failed_to_parse (select_object (strip_fence text))],
          Raise (JSONDecodeError msg))).
Proof.
  split_and!.
  - by vm_compute.
  - by vm_compute.
  - assert ((must_json json.loads (jq "Sure! {'a': } bye")).1
            = [failed_to_parse (jq "{'a': }")]) as -> by by vm_compute.
    intros notice ->%list_elem_of_singleton.
    assert (33%N ∉ failed_to_parse (jq "{'a': }")) as H33
      by by apply (bool_decide_unpack _).
    assert (121%N ∉ failed_to_parse (jq "{'a': }")) as H121
      by by apply (bool_decide_unpack _).
    split_and!; intros (before & after & Heq).
    + apply H33. rewrite Heq, !elem_of_app. right; left.
      by apply (bool_decide_unpack _).
    + apply H121. rewrite Heq, !elem_of_app. right; left.
      by apply (bool_decide_unpack _).
    + apply H33. rewrite Heq, !elem_of_app. right; left.
      by apply (bool_decide_unpack _).
  - intros loads text msg Hr. unfold must_json, parse_or_report. by rewrite Hr.
Qed.

(** C9: the scan counts the braces inside string literals too.  The text
    [{"a": "}"}] is one valid JSON object, yet the span selected from it
    stops at the brace inside the string, and [must_json] raises the parse
    error of that span.  In general the first closing brace after a stretch
    without braces ends the span. *)
Theorem braces_in_strings_break_extraction :
  json.loads (jq "{'a': '}'}") = Ok (PDict [(py "a", PStr (py "}"))]) ∧
  select_object (strip_fence (jq "{'a': '}'}")) = jq "{'a': '}" ∧
  must_json json.loads (jq "{'a': '}'}")
  = ([failed_to_parse (jq "{'a': '}")],
     Raise (JSONDecodeError (py "Unterminated string starting at"))) ∧
  (∀ a b, LBRACE ∉ a → RBRACE ∉ a →
     select_object (LBRACE :: a ++ RBRACE :: b) = LBRACE :: a ++ [RBRACE]).
Proof.
  split_and!.
  - by vm_compute.
  - by vm_compute.
  - by vm_compute.
  - apply select_object_first_close.
Qed.

(** C4: the code at the failing input.  The reply [[]] holds no opening
    brace, yet [must_json] does not fail on it: it returns the decoded
    value, the empty list, and prints nothing; so for [null], which gives
    None.  Nothing checks that the value is an object, and [main], which
    calls [.get] on it, stops with [AttributeError].  One half of the claim
    does hold: a text without an opening brace never yields an object. *)
Theorem no_brace_value_returned :
  contains (py "[]") LBRACE = false
  ∧ must_json json.loads (py "[]") = ([], Ok (PList []))
  ∧ contains (py "null") LBRACE = false
  ∧ must_json json.loads (py "null") = ([], Ok PNone)
  ∧ (∀ (R : PyRuntime) line_map,
       @main_extracted R (PList []) line_map = Raise AttributeError
       ∧ @main_extracted R PNone line_map = Raise AttributeError)
  ∧ (∀ text notices pairs,
       contains text LBRACE = false →
       must_json json.loads text ≠ (notices, Ok (PDict pairs))).
Proof.
  split_and!.
  - by vm_compute.
  - by vm_compute.
  - by vm_compute.
  - by vm_compute.
  - done.
  - intros text notices pairs Hc%contains_false.
    assert (Hb : LBRACE ∉ strip_fence text)
      by (by apply strip_fence_not_elem_of).
    assert (Hs : select_object (strip_fence text) = strip_fence text)
      by (by apply select_object_no_brace, contains_false).
    unfold must_json, parse_or_report. rewrite Hs.
    destruct (json.loads (strip_fence text)) as [v|e] eqn:Hv.
    + intros [= _ ->]. by apply loads_dict in Hv.
    + by destruct e.
Qed.

(** ** Instances of the conditional statements on concrete inputs *)

(** C1 on the scenario document, for the record of its first line. *)
Lemma grounding_invariant_witness :
  quote (mk_evidence (py "Blinded assessors.") (py "Line 1") (py "t")) ≠ []
  ∧ (∃ line, line ∈ split NL doc1
             ∧ quote (mk_evidence (py "Blinded assessors.") (py "Line 1")
                        (py "t")) = strip line)
  ∧ (∃ before after,
        doc1 = before
               ++ quote (mk_evidence (py "Blinded assessors.") (py "Line 1")
                           (py "t"))
               ++ after).
Proof.
  apply (proj1 (@grounding_invariant example_runtime) doc1 (PList [PInt 1])
           (py "t")
           [mk_evidence (py "Blinded assessors.") (py "Line 1") (py "t")]).
  - by vm_compute.
  - apply list_elem_of_singleton. reflexivity.
Defined.

(** C2 on the map 1:alpha, 2:(empty), 3:gamma, whose texts are trimmed,
    with a repeated and an unknown identifier. *)
Lemma resolver_filtering_witness :
  @extract_evidence_from_line_ids example_runtime
    (PList (PInt <$> [3; 2; 3; 7; 1])) alpha_gamma (py "t")
  = Ok (record_of alpha_gamma (py "t")
          <$> filter (fun i => usable_after_trimming alpha_gamma i)
                [3; 2; 3; 7; 1]).
Proof.
  apply (proj1 (@resolver_filtering example_runtime) alpha_gamma (py "t")
           [3; 2; 3; 7; 1]).
  apply (bool_decide_unpack _). by vm_compute.
Defined.

(** C3 on the reply wrapped in prose: the span is the text from index 6,
    the first opening brace, up to index 13, the closing one. *)
Lemma extraction_robustness_witness :
  select_object (jq "Sure! {'a': 1} Hope that helps.")
  = slice (jq "Sure! {'a': 1} Hope that helps.") 6 14.
Proof.
  destruct extraction_robustness as (_ & _ & _ & _ & _ & _ & Hspan & _).
  apply Hspan.
  - reflexivity.
  - vm_compute. lia.
  - intros j Hj.
    assert (j = 6 ∨ j = 7 ∨ j = 8 ∨ j = 9 ∨ j = 10 ∨ j = 11 ∨ j = 12)%nat
      as Hcases by lia.
    destruct_or!; subst j; by vm_compute.
  - by vm_compute.
Defined.

(** C7 on the scenario document and the decoded scenario reply. *)
Lemma evidence_assembly_witness :
  ∃ pairs found1 found2,
    reply1_value = PDict pairs
    ∧ @extract_evidence_from_line_ids example_runtime
        (default (PList [])
           (dict_lookup pairs (py "index_test_blinding_line_ids")))
        (number_lines doc1).2 (py "index_test_blinding") = Ok found1
    ∧ @extract_evidence_from_line_ids example_runtime
        (default (PList []) (dict_lookup pairs (py "threshold_line_ids")))
        (number_lines doc1).2 (py "threshold") = Ok found2
    ∧ evidence_quotes
        (mk_extracted (py "smith_2022")
           [mk_evidence (py "Blinded assessors.") (py "Line 1")
              (py "index_test_blinding");
            mk_evidence (py "Threshold was 5mg.") (py "Line 2")
              (py "threshold")]
           (PList []))
      = found1 ++ found2
    ∧ Forall (fun r => topic r = py "index_test_blinding") found1
    ∧ Forall (fun r => topic r = py "threshold") found2
    ∧ not_found
        (mk_extracted (py "smith_2022")
           [mk_evidence (py "Blinded assessors.") (py "Line 1")
              (py "index_test_blinding");
            mk_evidence (py "Threshold was 5mg.") (py "Line 2")
              (py "threshold")]
           (PList []))
      = default (PList []) (dict_lookup pairs (py "not_found"))
    ∧ study_id
        (mk_extracted (py "smith_2022")
           [mk_evidence (py "Blinded assessors.") (py "Line 1")
              (py "index_test_blinding");
            mk_evidence (py "Threshold was 5mg.") (py "Line 2")
              (py "threshold")]
           (PList []))
      = STUDY_ID.
Proof.
  apply (proj1 (@evidence_assembly example_runtime) reply1_value
           (number_lines doc1).2).
  by vm_compute.
Defined.

(** C9 on the text of its example, cut at the brace inside the string. *)
Lemma braces_in_strings_witness :
  select_object (LBRACE :: jq "'a': '" ++ RBRACE :: jq "'}")
  = LBRACE :: jq "'a': '" ++ [RBRACE].
Proof.
  apply (proj2 (proj2 (proj2 braces_in_strings_break_extraction))).
  - by apply (bool_decide_unpack _).
  - by apply (bool_decide_unpack _).
Defined.

(** * Further properties *)

(** ** LineIndexer *)


Lemma imap_unnumber_render (lines : list str) (k : nat) :
  imap (fun i => unnumber_line (k + i))
    (render_line <$> enumerate lines (Z.of_nat k + 1)) = lines.
Proof.
  revert k. induction lines as [|x lines IH]; intros k; [done|].
  cbn [enumerate fmap list_fmap imap]. f_equal.
  - unfold unnumber_line, render_line. cbn [fst snd].
    rewrite Nat.add_0_r. by rewrite drop_app_length.
  - rewrite <- (IH (S k)) at 2.
    replace (Z.of_nat (S k) + 1) with (Z.of_nat k + 1 + 1) by lia.
    apply imap_ext. intros i y _. cbn. f_equal. lia.
Qed.

(** The numbered text determines the document: reading it back gives the
    text that was numbered, so two documents with the same rendering are
    the same. *)
Theorem number_lines_round_trip :
  (∀ text, unnumber (number_lines text).1 = text) ∧
  (∀ text1 text2,
     (number_lines text1).1 = (number_lines text2).1 → text1 = text2).
Proof.
  assert (Hrt : ∀ text, unnumber (number_lines text).1 = text).
  { intros text. unfold unnumber. rewrite number_lines_split.
    assert (imap unnumber_line (render_line <$> enumerate (split NL text) 1)
            = split NL text) as -> by exact (imap_unnumber_render _ 0).
    apply join_split. }
  split; [done|].
  intros text1 text2 Heq. by rewrite <- (Hrt text1), Heq, Hrt.
Qed.

Lemma lstrip_space_free c r s : lstrip s = c :: r → isspace c = false.
Proof.
  destruct (lstrip_head s) as [->|(c' & r' & -> & Hc)]; [done|].
  by intros [= <- <-].
Qed.

Lemma rstrip_last s c : last (rstrip s) = Some c → isspace c = false.
Proof.
  unfold rstrip.
  destruct (lstrip (rev s)) as [|c' r] eqn:Hl; [done|].
  cbn [rev]. rewrite last_snoc. intros [= <-]. by eapply lstrip_space_free.
Qed.

Lemma strip_head s c : head (strip s) = Some c → isspace c = false.
Proof.
  unfold strip. destruct (rstrip_decomp (lstrip s)) as [b Hb].
  destruct (rstrip (lstrip s)) as [|c' r] eqn:Hr; [done|].
  cbn. intros [= <-].
  destruct (lstrip s) as [|c0 r0] eqn:Hl; [done|].
  simplify_eq/=. by eapply lstrip_space_free.
Qed.

(** Every text of the line map is trimmed: stripping it again changes
    nothing, it neither starts nor ends with a whitespace character, and
    it holds no newline. *)
Theorem line_map_texts_trimmed text k q :
  (number_lines text).2 !! k = Some q →
  strip q = q
  ∧ (NL ∉ q)
  ∧ (∀ c, head q = Some c → isspace c = false)
  ∧ (∀ c, last q = Some c → isspace c = false).
Proof.
  intros (line & Hline & ->)%number_lines_value. split_and!.
  - apply strip_idemp.
  - apply not_elem_of_strip.
    pose proof (split_pieces NL text) as Hp. rewrite Forall_forall in Hp.
    by apply Hp.
  - apply strip_head.
  - unfold strip. apply rstrip_last.
Qed.

(** ** EvidenceResolver *)

Lemma uint_digits_inj d1 d2 : uint_digits d1 = uint_digits d2 → d1 = d2.
Proof.
  revert d2. induction d1; intros d2 Hd; destruct d2; simpl in Hd;
    try done; injection Hd as Hd; f_equal; by apply IHd1.
Qed.

Lemma uint_digits_no_minus d : 45%N ∉ uint_digits d.
Proof.
  induction d; simpl; rewrite ?not_elem_of_cons;
    try (split; [done|]); try done; apply not_elem_of_nil.
Qed.

Lemma str_of_int_inj z1 z2 : str_of_int z1 = str_of_int z2 → z1 = z2.
Proof.
  unfold str_of_int. intros Hs.
  rewrite <- (DecimalZ.of_to z1), <- (DecimalZ.of_to z2). f_equal.
  destruct (Z.to_int z1) as [d1|d1], (Z.to_int z2) as [d2|d2].
  - f_equal. by apply uint_digits_inj.
  - exfalso. apply (uint_digits_no_minus d1). rewrite Hs. left.
  - exfalso. apply (uint_digits_no_minus d2). rewrite <- Hs. left.
  - injection Hs as Hs. f_equal. by apply uint_digits_inj.
Qed.

Section MoreResolverProperties.
Context `{PyRuntime}.

(** The list built so far only grows at its end. *)
Lemma resolve_loop_acc items line_map topic0 evidence :
  resolve_loop items line_map topic0 evidence
  = found ← resolve_loop items line_map topic0 []; Ok (evidence ++ found).
Proof.
  revert evidence. induction items as [|x items IH]; intros evidence.
  - cbn. by rewrite app_nil_r.
  - cbn. destruct (int_key x) as [k|e]; [|done]. cbn.
    destruct (k ≫= (line_map !!.)) as [text|]; [|apply IH].
    destruct (truthy text); [|apply IH].
    rewrite (IH (evidence ++ _)), (IH [_]).
    destruct (resolve_loop items line_map topic0 []) as [found|e]; [|done].
    cbn. by rewrite <- app_assoc.
Qed.

Lemma resolve_loop_app items1 items2 line_map topic0 evidence :
  resolve_loop (items1 ++ items2) line_map topic0 evidence
  = found ← resolve_loop items1 line_map topic0 evidence;
    resolve_loop items2 line_map topic0 found.
Proof.
  revert evidence. induction items1 as [|x items1 IH]; intros evidence; [done|].
  cbn. destruct (int_key x) as [k|e]; [|done]. cbn.
  destruct (k ≫= (line_map !!.)) as [text|]; [|apply IH].
  destruct (truthy text); apply IH.
Qed.

Lemma resolve_loop_length items line_map topic0 evidence recs :
  resolve_loop items line_map topic0 evidence = Ok recs →
  (length recs ≤ length evidence + length items)%nat.
Proof.
  revert evidence. induction items as [|x items IH]; intros evidence Hr.
  - cbn in Hr. simplify_eq. lia.
  - cbn in Hr. destruct (int_key x) as [k|e]; [|done]. cbn in Hr.
    destruct (k ≫= (line_map !!.)) as [text|];
      [|apply IH in Hr; simpl; lia].
    destruct (truthy text); apply IH in Hr;
      rewrite ?length_app in Hr; simpl in *; lia.
Qed.

(** The resolver works candidate by candidate: on two candidate lists put
    end to end it returns the records of the first followed by those of
    the second, and raises when either part does; it never returns more
    records than it was given candidates. *)
Theorem resolver_concatenation :
  (∀ items1 items2 line_map topic0,
     extract_evidence_from_line_ids (PList (items1 ++ items2)) line_map topic0
     = found1 ← extract_evidence_from_line_ids (PList items1) line_map topic0;
       found2 ← extract_evidence_from_line_ids (PList items2) line_map topic0;
       Ok (found1 ++ found2)) ∧
  (∀ items line_map topic0 recs,
     extract_evidence_from_line_ids (PList items) line_map topic0 = Ok recs →
     (length recs ≤ length items)%nat).
Proof.
  split.
  - intros items1 items2 line_map topic0.
    unfold extract_evidence_from_line_ids. cbn.
    rewrite resolve_loop_app.
    destruct (resolve_loop items1 line_map topic0 []) as [found1|e]; [|done].
    cbn. apply resolve_loop_acc.
  - intros items line_map topic0 recs Hr.
    apply resolve_loop_length in Hr. simpl in Hr. lia.
Qed.

Lemma resolve_loop_raises items line_map topic0 evidence :
  resolve_loop items line_map topic0 evidence = Raise TypeError
  ↔ Exists (fun x => hashable x = false) items.
Proof.
  revert evidence. induction items as [|x items IH]; intros evidence.
  - cbn. split; [done|]. by intros ?%Exists_nil.
  - rewrite Exists_cons. cbn.
    destruct x; cbn;
      try (match goal with
           | |- context [match ?o with Some _ => _ | None => _ end] =>
               destruct o as [text|]; [destruct (truthy text)|]
           end);
      rewrite ?IH; try (split; [by right|by intros [?|?]]);
      split; try done; by left.
Qed.

Lemma resolve_loop_strings (chars : list str) line_map topic0 evidence :
  resolve_loop (PStr <$> chars) line_map topic0 evidence = Ok evidence.
Proof. induction chars as [|c chars IH]; [done|]. cbn. apply IH. Qed.

(** When the resolver raises, and when it is silent.  A candidate list
    makes it raise, with TypeError, exactly when it holds a list or a dict,
    whatever the line map; a str or a dict in place of the list yields no
    evidence, as none of its characters or keys is an [int]; any other
    value in place of the list raises TypeError. *)
Theorem resolver_errors :
  (∀ items line_map topic0,
     extract_evidence_from_line_ids (PList items) line_map topic0
     = Raise TypeError
     ↔ Exists (fun x => hashable x = false) items) ∧
  (∀ items line_map topic0,
     (∃ recs, extract_evidence_from_line_ids (PList items) line_map topic0
              = Ok recs)
     ↔ Forall (fun x => hashable x = true) items) ∧
  (∀ s line_map topic0,
     extract_evidence_from_line_ids (PStr s) line_map topic0 = Ok []) ∧
  (∀ pairs line_map topic0,
     extract_evidence_from_line_ids (PDict pairs) line_map topic0 = Ok []) ∧
  (∀ v line_map topic0,
     iterable v = false →
     extract_evidence_from_line_ids v line_map topic0 = Raise TypeError).
Proof.
  split_and!.
  - intros items line_map topic0. unfold extract_evidence_from_line_ids. cbn.
    apply resolve_loop_raises.
  - intros items line_map topic0. unfold extract_evidence_from_line_ids. cbn.
    split.
    + intros [recs Hr]. apply Forall_forall. intros x Hx.
      destruct (hashable x) eqn:Hh; [done|]. exfalso.
      assert (resolve_loop items line_map topic0 [] = Raise TypeError) as Hc.
      { apply resolve_loop_raises, Exists_exists. by exists x. }
      congruence.
    + intros Hall. apply resolve_loop_hashable.
      eapply Forall_impl; [done|]. intros x Hx e. by destruct x.
  - intros s line_map topic0. unfold extract_evidence_from_line_ids. cbn.
    rewrite <- (resolve_loop_strings ((fun c => [c]) <$> s) line_map topic0 []).
    f_equal. by rewrite <- list_fmap_compose.
  - intros pairs line_map topic0. unfold extract_evidence_from_line_ids. cbn.
    rewrite <- (resolve_loop_strings (fst <$> pairs) line_map topic0 []).
    f_equal. by rewrite <- list_fmap_compose.
  - intros v line_map topic0 Hv. by destruct v.
Qed.

(** On [int] candidates every record names its line: the location is the
    word Line and the identifier in decimal, the quote is the text the map
    holds for it, and two records with the same location are the same
    record. *)
Theorem location_names_the_line line_map topic0 (ids : list Z) recs :
  extract_evidence_from_line_ids (PList (PInt <$> ids)) line_map topic0
  = Ok recs →
  (∀ r, r ∈ recs →
     ∃ i, i ∈ ids
          ∧ location r = py "Line " ++ str_of_int i
          ∧ line_map !! i = Some (quote r)
          ∧ topic r = topic0) ∧
  (∀ r1 r2, r1 ∈ recs → r2 ∈ recs → location r1 = location r2 → r1 = r2).
Proof.
  unfold extract_evidence_from_line_ids. cbn. rewrite resolve_loop_ints.
  intros [= <-]. cbn.
  assert (Hin : ∀ r,
    r ∈ record_of line_map topic0 <$> filter (fun i => usable line_map i) ids →
    ∃ i, i ∈ ids ∧ usable line_map i = true ∧ r = record_of line_map topic0 i).
  { intros r (i & -> & [Hu Hi]%list_elem_of_filter)%list_elem_of_fmap.
    exists i. split_and!; [done| |done]. by destruct (usable line_map i). }
  split.
  - intros r (i & Hi & Hu & ->)%Hin. exists i. split_and!; try done.
    unfold usable in Hu. unfold record_of. cbn.
    by destruct (line_map !! i).
  - intros r1 r2 (i1 & _ & _ & ->)%Hin (i2 & _ & _ & ->)%Hin Hl.
    cbn in Hl. apply app_inv_head, str_of_int_inj in Hl. by subst.
Qed.

End MoreResolverProperties.

(** ** JSONExtractor *)

Lemma lstrip_blank a s : blank a → lstrip (a ++ s) = lstrip s.
Proof.
  induction 1 as [|c a Hc Ha IH]; [done|]. simpl. by rewrite Hc.
Qed.

Lemma lstrip_blank_nil a : blank a → lstrip a = [].
Proof. intros Ha. rewrite <- (app_nil_r a). by rewrite lstrip_blank. Qed.

Lemma lstrip_nil_blank s : lstrip s = [] → blank s.
Proof.
  induction s as [|c s IH]; [constructor|]. simpl.
  destruct (isspace c) eqn:Hc; [|done]. intros Hs.
  constructor; [done|by apply IH].
Qed.

Lemma lstrip_app_cons a c s :
  isspace c = false → lstrip (a ++ c :: s) = lstrip a ++ c :: s
                      ∨ (blank a ∧ lstrip (a ++ c :: s) = c :: s).
Proof.
  intros Hc. induction a as [|x a IH].
  - left. simpl. by rewrite Hc.
  - simpl. destruct (isspace x) eqn:Hx; [|by left].
    destruct IH as [IH|[Ha IH]]; [by left|]. right. split; [|done].
    by constructor.
Qed.

Lemma lstrip_app_nonblank a c s :
  isspace c = false → lstrip (a ++ c :: s) = lstrip a ++ c :: s.
Proof.
  intros Hc. destruct (lstrip_app_cons a c s Hc) as [->|[Ha ->]]; [done|].
  by rewrite (lstrip_blank_nil a).
Qed.

Lemma blank_rev s : blank s → blank (rev s).
Proof.
  unfold blank. rewrite !Forall_forall. intros Hs c Hc. apply Hs.
  apply list_elem_of_In. apply in_rev. by apply list_elem_of_In.
Qed.

Lemma rstrip_blank s b : blank b → rstrip (s ++ b) = rstrip s.
Proof.
  intros Hb. unfold rstrip. rewrite rev_app_distr.
  by rewrite lstrip_blank by by apply blank_rev.
Qed.

Lemma rstrip_app_nonblank s d b :
  isspace d = false → rstrip (s ++ d :: b) = s ++ d :: rstrip b.
Proof.
  intros Hd. unfold rstrip.
  replace (s ++ d :: b) with ((s ++ [d]) ++ b) by by rewrite <- app_assoc.
  rewrite rev_app_distr, rev_unit.
  rewrite lstrip_app_nonblank by done.
  rewrite rev_app_distr. cbn [rev]. rewrite rev_involutive.
  by rewrite <- !app_assoc.
Qed.

(** Whitespace around a text does not change what [strip] returns. *)
Lemma strip_blank_around a s b : blank a → blank b → strip (a ++ s ++ b) = strip s.
Proof.
  intros Ha Hb. unfold strip. rewrite lstrip_blank by done.
  destruct (lstrip_head s) as [Hs|(c & r & Hs & Hc)].
  - rewrite Hs. apply lstrip_nil_blank in Hs.
    assert (blank (s ++ b)) as Hsb by by apply Forall_app.
    by rewrite (lstrip_blank_nil _ Hsb).
  - destruct (lstrip_decomp s) as [a' Ha']. rewrite Hs in Ha'.
    assert (blank a') as Hbl.
    { clear -Ha' Hs Hc. subst s. revert Hs. induction a' as [|x a' IH].
      - constructor.
      - simpl. destruct (isspace x) eqn:Hx.
        + intros Hs. constructor; [done|by apply IH].
        + intros [= -> Hr]. exfalso. clear IH.
          assert (length (a' ++ c :: r) = length r) as Hl by by rewrite Hr.
          rewrite length_app in Hl. simpl in Hl. lia. }
    rewrite Ha' at 1. rewrite <- app_assoc, lstrip_blank by done.
    rewrite <- app_comm_cons, lstrip_fixed by done.
    rewrite Hs. by rewrite app_comm_cons, rstrip_blank.
Qed.

(** The fence step looks at the trimmed text only. *)
Lemma strip_fence_strip text1 text2 :
  strip text1 = strip text2 → strip_fence text1 = strip_fence text2.
Proof. intros Hs. unfold strip_fence. by rewrite Hs. Qed.

(** [must_json] gives the same output and outcome whatever whitespace
    surrounds the reply; trimming the reply beforehand, as [call_llm] does,
    changes nothing. *)
Theorem must_json_ignores_outer_whitespace :
  (∀ (loads : str → result pyval) a text b,
     blank a → blank b →
     must_json loads (a ++ text ++ b) = must_json loads text) ∧
  (∀ (loads : str → result pyval) text,
     must_json loads (strip text) = must_json loads text).
Proof.
  split.
  - intros loads a text b Ha Hb. unfold must_json.
    by rewrite (strip_fence_strip _ text) by by apply strip_blank_around.
  - intros loads text. unfold must_json.
    by rewrite (strip_fence_strip _ text) by apply strip_idemp.
Qed.

(** Where the scan stops depends on the characters up to the stop only,
    and the stop is a closing brace. *)
Lemma brace_scan_Some chars i c e :
  brace_scan chars i c = Some e →
  ∃ k, e = (i + k + 1)%nat
       ∧ chars !! k = Some RBRACE
       ∧ ∀ post j, brace_scan (take (S k) chars ++ post) j c
                   = Some (j + k + 1)%nat.
Proof.
  revert i c e. induction chars as [|x chars IH]; intros i c e He; [done|].
  cbn [brace_scan] in He.
  assert (Hrec : ∀ c', brace_scan chars (S i) c' = Some e →
            (∀ post j, brace_scan (x :: post) j c = brace_scan post (S j) c') →
            ∃ k, e = (i + k + 1)%nat ∧ (x :: chars) !! k = Some RBRACE
                 ∧ ∀ post j, brace_scan (take (S k) (x :: chars) ++ post) j c
                             = Some (j + k + 1)%nat).
  { intros c' Hc' Hstep. destruct (IH _ _ _ Hc') as (k & -> & Hk & Hpost).
    exists (S k). split_and!; [lia|done|].
    intros post j. rewrite firstn_cons, <- app_comm_cons, Hstep, Hpost.
    f_equal. lia. }
  destruct (x =? LBRACE)%N eqn:Hl.
  { apply (Hrec _ He). intros post j. cbn [brace_scan]. by rewrite Hl. }
  destruct (x =? RBRACE)%N eqn:Hr.
  - destruct (c - 1 =? 0) eqn:Hz.
    + simplify_eq. exists 0%nat. apply N.eqb_eq in Hr as ->.
      split_and!; [lia|done|].
      intros post j. cbn. rewrite Hz. f_equal. lia.
    + apply (Hrec _ He). intros post j. cbn [brace_scan].
      by rewrite Hl, Hr, Hz.
  - apply (Hrec _ He). intros post j. cbn [brace_scan]. by rewrite Hl, Hr.
Qed.

Lemma find_app_first pre c s : c ∉ pre → find (pre ++ c :: s) c = Some (length pre).
Proof.
  induction pre as [|x pre IH]; intros Hc.
  - simpl. by rewrite N.eqb_refl.
  - apply not_elem_of_cons in Hc as [Hx Hc]. simpl.
    destruct (x =? c)%N eqn:Heq; [apply N.eqb_eq in Heq; congruence|].
    by rewrite IH.
Qed.

Lemma braced_span_inv obj :
  braced_span obj →
  ∃ body, obj = LBRACE :: body ++ [RBRACE]
          ∧ ∀ post j, brace_scan (obj ++ post) j 0 = Some (j + length obj)%nat.
Proof.
  intros [Hh Hs]. destruct obj as [|x obj']; [done|]. cbn in Hh. simplify_eq.
  destruct (brace_scan_Some _ _ _ _ Hs) as (k & Hk & Hlast & Hpost).
  assert (length (LBRACE :: obj') = S k) as Hlen by lia.
  assert (take (S k) (LBRACE :: obj') = LBRACE :: obj') as Htake
    by (by rewrite take_ge by lia).
  destruct k as [|k]; [done|]. cbn in Hlast, Hlen.
  assert (obj' = take k obj' ++ [RBRACE]) as Hobj.
  { rewrite <- (take_drop k obj') at 1. f_equal.
    rewrite (drop_S _ RBRACE k) by done. by rewrite drop_ge by lia. }
  exists (take k obj'). split; [by rewrite <- Hobj|].
  intros post j.
  replace (length (LBRACE :: obj')) with (S (S k)) by (simpl; lia).
  rewrite <- Htake, Hpost. f_equal. lia.
Qed.

(** What is cut out by [select_object] when it cuts: a braced span that
    follows a stretch without an opening brace. *)
Lemma select_object_cut pre obj post :
  LBRACE ∉ pre → braced_span obj → select_object (pre ++ obj ++ post) = obj.
Proof.
  intros Hpre Hobj.
  destruct (braced_span_inv obj Hobj) as (body & Hb & Hscan).
  assert (Hfind : find (pre ++ obj ++ post) LBRACE = Some (length pre)).
  { rewrite Hb. rewrite <- !app_comm_cons. by apply find_app_first. }
  assert (contains (pre ++ obj ++ post) LBRACE = true) as Hc.
  { apply contains_elem_of. rewrite Hb. set_solver. }
  unfold select_object. rewrite Hc, Hfind.
  rewrite drop_app_length, Hscan. simpl default.
  destruct (Nat.ltb_spec (length pre) (length pre + length obj)) as [_|Hle].
  - unfold slice. rewrite drop_app_length.
    replace (length pre + length obj - length pre)%nat with (length obj) by lia.
    by rewrite take_app_length.
  - rewrite Hb in Hle. simpl in Hle. lia.
Qed.

(** The span [select_object] returns is either the whole text, when
    nothing could be cut, or a braced span; selecting again changes
    nothing. *)
Theorem select_object_idempotent text :
  (select_object text = text ∨ braced_span (select_object text))
  ∧ select_object (select_object text) = select_object text.
Proof.
  assert (Hshape : select_object text = text
                   ∨ braced_span (select_object text)).
  { unfold select_object.
    destruct (contains text LBRACE); [|by left].
    destruct (find text LBRACE) as [start|] eqn:Hf; [|by left].
    destruct (brace_scan (drop start text) start 0) as [e|] eqn:Hs;
      simpl default; [|rewrite Nat.ltb_irrefl; by left].
    destruct (brace_scan_Some _ _ _ _ Hs) as (k & -> & Hk & Hpost).
    destruct (Nat.ltb_spec start (start + k + 1)); [|lia]. right.
    unfold slice. replace (start + k + 1 - start)%nat with (S k) by lia.
    apply find_Some in Hf as [Hstart _].
    assert (length (take (S k) (drop start text)) = S k) as Hlen.
    { apply lookup_lt_Some in Hk. rewrite length_take. lia. }
    split.
    - destruct (drop start text) as [|x rest] eqn:Hd; [done|].
      pose proof (lookup_drop text start 0) as H0.
      rewrite Hd, Nat.add_0_r, Hstart in H0. cbn in H0. by simplify_eq.
    - specialize (Hpost [] 0%nat). rewrite app_nil_r in Hpost.
      rewrite Hpost, Hlen. f_equal. lia. }
  split; [done|].
  destruct Hshape as [Heq|Hb]; [by rewrite !Heq|].
  pose proof (select_object_cut [] _ [] (not_elem_of_nil _) Hb) as Hc.
  by rewrite app_nil_l, app_nil_r in Hc.
Qed.

Lemma braced_span_ends obj :
  braced_span obj →
  ∃ body, obj = LBRACE :: body ++ [RBRACE].
Proof. intros (body & Hb & _)%braced_span_inv. by exists body. Qed.

(** Prose around the object is dropped: when the trimmed reply does not
    open with a code fence and no opening brace comes before a braced
    span, [must_json] parses just that span, whatever follows it. *)
Theorem must_json_drops_prose (loads : str → result pyval) pre obj post :
  LBRACE ∉ pre →
  braced_span obj →
  startswith (strip (pre ++ obj ++ post)) (py "```") = false →
  must_json loads (pre ++ obj ++ post) = parse_or_report loads obj.
Proof.
  intros Hpre Hobj Hfence. unfold must_json.
  rewrite strip_fence_plain by done.
  destruct (braced_span_ends obj Hobj) as [body Hb].
  assert (strip (pre ++ obj ++ post) = lstrip pre ++ obj ++ rstrip post) as ->.
  { unfold strip. rewrite Hb. rewrite <- !app_comm_cons.
    rewrite lstrip_app_nonblank by done.
    replace (lstrip pre ++ LBRACE :: (body ++ [RBRACE]) ++ post)
      with ((lstrip pre ++ LBRACE :: body) ++ RBRACE :: post)
      by (by rewrite <- !app_assoc).
    rewrite rstrip_app_nonblank by done. by rewrite <- !app_assoc. }
  apply f_equal, select_object_cut; [|done].
  intros Hin. apply Hpre. destruct (lstrip_decomp pre) as [a Ha].
  rewrite Ha. set_solver.
Qed.

(** A fenced object is parsed as the object alone: for a braced span
    inside a closed code fence, with whitespace around it at will,
    [must_json] parses just the span. *)
Theorem must_json_unwraps_fence (loads : str → result pyval) tag a obj b :
  NL ∉ tag → blank a → blank b → braced_span obj →
  must_json loads (fenced tag (a ++ obj ++ b)) = parse_or_report loads obj.
Proof.
  intros Htag Ha Hb Hobj. unfold must_json.
  rewrite strip_fence_fenced by done.
  rewrite strip_blank_around by done.
  destruct (braced_span_ends obj Hobj) as [body Hbody].
  assert (strip obj = obj) as ->.
  { rewrite Hbody, app_comm_cons. rewrite <- app_comm_cons.
    by apply strip_fixed. }
  assert (startswith obj (py "json") = false) as -> by by rewrite Hbody.
  f_equal.
  pose proof (select_object_cut [] obj [] (not_elem_of_nil _) Hobj) as Hc.
  by rewrite app_nil_l, app_nil_r in Hc.
Qed.

Lemma part_of_refl s : part_of s s.
Proof. exists [], []. by rewrite app_nil_r. Qed.

Lemma part_of_trans x y z : part_of x y → part_of y z → part_of x z.
Proof.
  intros (a & b & ->) (a' & b' & ->). exists (a' ++ a), (b ++ b').
  by rewrite <- !app_assoc.
Qed.

Lemma part_of_strip s : part_of (strip s) s.
Proof. apply strip_infix. Qed.

Lemma part_of_drop n (s : str) : part_of (drop n s) s.
Proof. exists (take n s), []. by rewrite app_nil_r, take_drop. Qed.

Lemma part_of_take n (s : str) : part_of (take n s) s.
Proof. exists [], (drop n s). by rewrite app_nil_l, take_drop. Qed.

Lemma part_of_nil s : part_of [] s.
Proof. by exists [], s. Qed.

Lemma part_of_join_tail_split s : part_of (join [NL] (tail (split NL s))) s.
Proof.
  pose proof (join_split NL s) as Hj.
  destruct (split NL s) as [|l [|l' ls]]; cbn [tail].
  - apply part_of_nil.
  - apply part_of_nil.
  - rewrite join_cons in Hj. exists (l ++ [NL]), [].
    by rewrite app_nil_r, <- app_assoc.
Qed.

Lemma join_removelast sep (ls : list str) :
  ∃ b, join sep ls = join sep (removelast ls) ++ b.
Proof.
  induction ls as [|x ls IH]; [by exists []|].
  destruct ls as [|y ls]; [by exists x|].
  destruct IH as [b IH].
  change (removelast (x :: y :: ls)) with (x :: removelast (y :: ls)).
  rewrite join_cons, IH.
  destruct (removelast (y :: ls)) as [|z zs].
  - exists (sep ++ b). done.
  - exists b. by rewrite join_cons, <- !app_assoc.
Qed.

Lemma part_of_join_removelast sep (ls : list str) :
  part_of (join sep (removelast ls)) (join sep ls).
Proof. destruct (join_removelast sep ls) as [b ->]. by exists [], b. Qed.

Lemma part_of_strip_fence text : part_of (strip_fence text) text.
Proof.
  unfold strip_fence.
  destruct (startswith (strip text) (py "```")); [|apply part_of_strip].
  assert (Hbody :
    part_of (join [NL]
               (if decide (strip (List.last (split NL (strip text)) [])
                           = py "```")
                then removelast (tail (split NL (strip text)))
                else tail (split NL (strip text)))) text).
  { eapply part_of_trans; [|apply part_of_strip].
    case_decide; [|apply part_of_join_tail_split].
    eapply part_of_trans;
      [apply part_of_join_removelast|apply part_of_join_tail_split]. }
  assert (Hs : ∀ x, part_of x text → part_of (strip x) text)
    by (intros x Hx; eapply part_of_trans; [apply part_of_strip|done]).
  destruct (startswith _ (py "json")); [|by apply Hs].
  apply Hs. eapply part_of_trans; [apply part_of_drop|by apply Hs].
Qed.

Lemma part_of_select_object text : part_of (select_object text) text.
Proof.
  unfold select_object.
  destruct (contains text LBRACE); [|apply part_of_refl].
  destruct (find text LBRACE) as [start|]; [|apply part_of_refl].
  destruct (_ <? _)%nat; [|apply part_of_refl].
  unfold slice. eapply part_of_trans; [apply part_of_take|apply part_of_drop].
Qed.

(** [must_json] parses, and on failure prints, nothing but a run of
    consecutive characters of the reply: it adds nothing of its own to
    the text it hands to the parser. *)
Theorem parsed_text_is_part_of_reply (loads : str → result pyval) text :
  part_of (select_object (strip_fence text)) text
  ∧ ∀ notice, notice ∈ (must_json loads text).1 →
      notice = failed_to_parse (select_object (strip_fence text)).
Proof.
  split.
  - eapply part_of_trans; [apply part_of_select_object|apply part_of_strip_fence].
  - intros notice. unfold must_json, parse_or_report.
    destruct (loads _) as [v|[]]; cbn;
      first [by intros ?%elem_of_nil | by intros ?%list_elem_of_singleton].
Qed.

(** A fence without a line break loses the whole reply: when the trimmed
    reply opens with three backticks and holds no newline, nothing is left
    to parse and [must_json] fails, whatever stood between the
    backticks. *)
Theorem one_line_fence_is_lost text :
  startswith (strip text) (py "```") = true →
  NL ∉ strip text →
  strip_fence text = []
  ∧ must_json json.loads text
    = ([failed_to_parse []], Raise (JSONDecodeError (py "Expecting value"))).
Proof.
  intros Hf Hnl.
  assert (strip_fence text = []) as Hs.
  { unfold strip_fence. rewrite Hf, split_no_sep by done. cbn [tail].
    by case_decide. }
  split; [done|]. unfold must_json. by rewrite Hs.
Qed.

(** ** Pipeline *)

Section MorePipelineProperties.
Context `{PyRuntime}.

Lemma resolve_loop_raise items line_map topic0 evidence e :
  resolve_loop items line_map topic0 evidence = Raise e → e = TypeError.
Proof.
  revert evidence. induction items as [|x items IH]; intros evidence; [done|].
  cbn. destruct x; cbn; try (by intros [= <-]);
    repeat (match goal with
            | |- context [match ?o with Some _ => _ | None => _ end] =>
                destruct o
            | |- context [if ?b then _ else _] => destruct b
            end); apply IH.
Qed.

Lemma extract_raise line_ids line_map topic0 e :
  extract_evidence_from_line_ids line_ids line_map topic0 = Raise e →
  e = TypeError.
Proof.
  unfold extract_evidence_from_line_ids.
  destruct line_ids; cbn; try (by intros [= <-]); apply resolve_loop_raise.
Qed.

(** How the assembly of the verified evidence object fails, and what it
    does with a reply that lacks the keys.  A reply that is not a JSON
    object raises AttributeError; for an object the only failure is the
    resolver's TypeError; an object with neither group of identifiers
    yields no evidence at all, and any value under not_found, list or
    not, is passed on. *)
Theorem main_extracted_edge_cases :
  (∀ line_ids_result line_map,
     (∀ pairs, line_ids_result ≠ PDict pairs) →
     main_extracted line_ids_result line_map = Raise AttributeError) ∧
  (∀ pairs line_map e,
     main_extracted (PDict pairs) line_map = Raise e → e = TypeError) ∧
  (∀ pairs line_map,
     dict_lookup pairs (py "index_test_blinding_line_ids") = None →
     dict_lookup pairs (py "threshold_line_ids") = None →
     main_extracted (PDict pairs) line_map
     = Ok (mk_extracted STUDY_ID []
             (default (PList []) (dict_lookup pairs (py "not_found"))))).
Proof.
  split_and!.
  - intros r line_map Hr. destruct r; try done. by destruct (Hr pairs).
  - intros pairs line_map e. unfold main_extracted. cbn.
    destruct (extract_evidence_from_line_ids _ _ (py "index_test_blinding"))
      as [found1|e1] eqn:H1; cbn; [|intros [= <-]; by eapply extract_raise].
    destruct (extract_evidence_from_line_ids _ _ (py "threshold"))
      as [found2|e2] eqn:H2; cbn; [done|intros [= <-]; by eapply extract_raise].
  - intros pairs line_map H1 H2. unfold main_extracted. cbn.
    by rewrite H1, H2.
Qed.

End MorePipelineProperties.

(** ** Instances of the further conditional statements *)

(** The text bound to identifier 2 of the scenario document. *)
Lemma line_map_texts_trimmed_witness :
  strip (py "Threshold was 5mg.") = py "Threshold was 5mg."
  ∧ (NL ∉ py "Threshold was 5mg.")
  ∧ (∀ c, head (py "Threshold was 5mg.") = Some c → isspace c = false)
  ∧ (∀ c, last (py "Threshold was 5mg.") = Some c → isspace c = false).
Proof.
  apply (line_map_texts_trimmed doc1 2 (py "Threshold was 5mg.")).
  reflexivity.
Defined.

(** The records of the identifiers 3 and 1 on the map 1:alpha, 2:(empty),
    3:gamma. *)
Lemma location_names_the_line_witness :
  (∀ r, r ∈ [mk_evidence (py "gamma") (py "Line 3") (py "t");
             mk_evidence (py "alpha") (py "Line 1") (py "t")] →
     ∃ i, i ∈ [3; 2; 1]
          ∧ location r = py "Line " ++ str_of_int i
          ∧ alpha_gamma !! i = Some (quote r)
          ∧ topic r = py "t") ∧
  (∀ r1 r2,
     r1 ∈ [mk_evidence (py "gamma") (py "Line 3") (py "t");
           mk_evidence (py "alpha") (py "Line 1") (py "t")] →
     r2 ∈ [mk_evidence (py "gamma") (py "Line 3") (py "t");
           mk_evidence (py "alpha") (py "Line 1") (py "t")] →
     location r1 = location r2 → r1 = r2).
Proof.
  apply (@location_names_the_line example_runtime alpha_gamma (py "t")
           [3; 2; 1]).
  by vm_compute.
Defined.

(** A reply with prose on both sides of the object. *)
Lemma must_json_drops_prose_witness :
  must_json json.loads (py "Here you go: " ++ jq "{'a': {'b': 1}}" ++ py " Bye {")
  = parse_or_report json.loads (jq "{'a': {'b': 1}}").
Proof.
  apply (must_json_drops_prose json.loads (py "Here you go: ")
           (jq "{'a': {'b': 1}}") (py " Bye {")).
  - by apply (bool_decide_unpack _).
  - split; reflexivity.
  - reflexivity.
Defined.

(** A fenced reply with blank lines around the object. *)
Lemma must_json_unwraps_fence_witness :
  must_json json.loads
    (fenced (py "json") ([NL; 32%N] ++ jq "{'a': 1}" ++ [32%N; NL]))
  = parse_or_report json.loads (jq "{'a': 1}").
Proof.
  apply (must_json_unwraps_fence json.loads (py "json") [NL; 32%N]
           (jq "{'a': 1}") [32%N; NL]).
  - by apply (bool_decide_unpack _).
  - by repeat constructor.
  - by repeat constructor.
  - split; reflexivity.
Defined.

(** A fenced object written on one line. *)
Lemma one_line_fence_is_lost_witness :
  strip_fence (py "```json " ++ jq "{'a': 1}" ++ py "```") = []
  ∧ must_json json.loads (py "```json " ++ jq "{'a': 1}" ++ py "```")
    = ([failed_to_parse []], Raise (JSONDecodeError (py "Expecting value"))).
Proof.
  apply (one_line_fence_is_lost (py "```json " ++ jq "{'a': 1}" ++ py "```")).
  - reflexivity.
  - by apply (bool_decide_unpack _).
Defined.

(** ** Runs: traces and outcomes *)

Lemma trace_bind {A B} (m : prog A) (f : A → prog B) :
  trace (m ≫= f)
  = trace m ++ match outcome_of m with
               | Done a => trace (f a)
               | Failed _ => []
               end.
Proof.
  unfold mbind, prog_bind. destruct (outcome_of m); simpl; [done|].
  by rewrite app_nil_r.
Qed.

Lemma outcome_bind {A B} (m : prog A) (f : A → prog B) :
  outcome_of (m ≫= f)
  = match outcome_of m with
    | Done a => outcome_of (f a)
    | Failed e => Failed e
    end.
Proof. unfold mbind, prog_bind. by destruct (outcome_of m). Qed.

Lemma bind_Done {A B} (m : prog A) (f : A → prog B) a :
  outcome_of m = Done a →
  m ≫= f = mk_prog (trace m ++ trace (f a)) (outcome_of (f a)).
Proof. intros Hm. unfold mbind, prog_bind. by rewrite Hm. Qed.

Lemma bind_Failed {A B} (m : prog A) (f : A → prog B) e :
  outcome_of m = Failed e → m ≫= f = mk_prog (trace m) (Failed e).
Proof. intros Hm. unfold mbind, prog_bind. by rewrite Hm. Qed.

Lemma outcome_bind_Done {A B} (m : prog A) (f : A → prog B) b :
  outcome_of (m ≫= f) = Done b →
  ∃ a, outcome_of m = Done a ∧ outcome_of (f a) = Done b.
Proof.
  rewrite outcome_bind. destruct (outcome_of m) as [a|]; [|done]. by exists a.
Qed.

Lemma elem_of_trace_bind {A B} (m : prog A) (f : A → prog B) ev :
  ev ∈ trace (m ≫= f) →
  ev ∈ trace m ∨ ∃ a, outcome_of m = Done a ∧ ev ∈ trace (f a).
Proof.
  rewrite trace_bind. intros [?|Hev]%elem_of_app; [by left|].
  destruct (outcome_of m) as [a|]; [|by apply elem_of_nil in Hev].
  right. by exists a.
Qed.

Lemma trace_lift_bind {A B} (o : outcome A) (f : A → prog B) :
  trace (lift o ≫= f) = match o with
                        | Done a => trace (f a)
                        | Failed _ => []
                        end.
Proof. by rewrite trace_bind. Qed.

Lemma outcome_lift_bind {A B} (o : outcome A) (f : A → prog B) :
  outcome_of (lift o ≫= f) = match o with
                             | Done a => outcome_of (f a)
                             | Failed e => Failed e
                             end.
Proof. by rewrite outcome_bind. Qed.

(** ** ModelGateway *)

Lemma raise_for_status_Done resp :
  raise_for_status resp = Done () ↔ ¬ (400 ≤ status_code resp < 600).
Proof.
  unfold raise_for_status.
  destruct (400 <=? status_code resp) eqn:H1;
    destruct (status_code resp <? 600) eqn:H2; simpl; split; try done; lia.
Qed.

Lemma call_llm_trace w system_prompt user_payload :
  trace (call_llm w system_prompt user_payload)
  = [EvPost (chat_url w) (chat_payload w system_prompt user_payload)].
Proof.
  unfold call_llm. rewrite trace_bind. cbn [perform trace outcome_of].
  destruct (requests_post _ _ _) as [resp|]; [|done].
  rewrite trace_lift_bind. destruct (raise_for_status resp); [|done].
  rewrite trace_lift_bind. destruct (response_json resp) as [body|]; [|done].
  rewrite trace_lift_bind.
  destruct (py_getitem body _) as [message|]; [|done].
  rewrite trace_lift_bind. by destruct (py_getitem message _).
Qed.

Lemma call_llm_Done w system_prompt user_payload s :
  outcome_of (call_llm w system_prompt user_payload) = Done s →
  ∃ resp body message content,
    requests_post w (chat_url w) (chat_payload w system_prompt user_payload)
    = Done resp
    ∧ ¬ (400 ≤ status_code resp < 600)
    ∧ response_json resp = Done body
    ∧ py_getitem body (py "message") = Done message
    ∧ py_getitem message (py "content") = Done (PStr content)
    ∧ s = strip content.
Proof.
  unfold call_llm. rewrite outcome_bind. cbn [perform trace outcome_of].
  destruct (requests_post _ _ _) as [resp|] eqn:Hp; [|done].
  rewrite outcome_lift_bind.
  destruct (raise_for_status resp) as [[]|] eqn:Hst; [|done].
  rewrite outcome_lift_bind.
  destruct (response_json resp) as [body|] eqn:Hb; [|done].
  rewrite outcome_lift_bind.
  destruct (py_getitem body _) as [message|] eqn:Hm; [|done].
  rewrite outcome_lift_bind.
  destruct (py_getitem message _) as [content|] eqn:Hc; [|done].
  destruct content as [| | | |c| |]; try done. cbn. intros [= <-].
  exists resp, body, message, c. split_and!; try done.
  by apply raise_for_status_Done.
Qed.

(** [call_llm] sends exactly one request, whatever comes back: the chat
    payload to the chat endpoint, never a second try.  A 4xx or 5xx status
    is an [HTTPError] even when the body holds a reply.  A reply that is
    returned is the trimmed content of the message, so trimming it again
    changes nothing. *)
Theorem call_llm_contract w system_prompt user_payload :
  trace (call_llm w system_prompt user_payload)
  = [EvPost (chat_url w) (chat_payload w system_prompt user_payload)]
  ∧ (∀ resp,
       requests_post w (chat_url w) (chat_payload w system_prompt user_payload)
       = Done resp →
       400 ≤ status_code resp < 600 →
       outcome_of (call_llm w system_prompt user_payload)
       = Failed (HTTPError (status_code resp)))
  ∧ (∀ s,
       outcome_of (call_llm w system_prompt user_payload) = Done s →
       strip s = s
       ∧ ∃ resp pairs message content,
           requests_post w (chat_url w)
             (chat_payload w system_prompt user_payload) = Done resp
           ∧ response_json resp = Done (PDict pairs)
           ∧ dict_lookup pairs (py "message") = Some (PDict message)
           ∧ dict_lookup message (py "content") = Some (PStr content)
           ∧ s = strip content).
Proof.
  split_and!.
  - apply call_llm_trace.
  - intros resp Hpost Hst. unfold call_llm.
    rewrite outcome_bind. cbn [perform trace outcome_of]. rewrite Hpost.
    rewrite outcome_lift_bind. unfold raise_for_status.
    destruct (400 <=? status_code resp) eqn:H1; [|lia].
    destruct (status_code resp <? 600) eqn:H2; [done|lia].
  - intros s (resp & body & message & content & Hp & _ & Hb & Hm & Hc & ->)
      %call_llm_Done.
    split; [apply strip_idemp|].
    destruct body as [| | | | | |pairs]; try done.
    destruct message as [| | | | | |mpairs];
      try by (cbn in Hm; destruct (dict_lookup pairs _)).
    exists resp, pairs, mpairs, content. split_and!; try done.
    + cbn in Hm. destruct (dict_lookup pairs _); by simplify_eq.
    + cbn in Hc. destruct (dict_lookup mpairs _); by simplify_eq.
Qed.

(** ** Pipeline *)

Lemma bind_Done_inv {A B} (m : prog A) (f : A → prog B) b :
  outcome_of (m ≫= f) = Done b →
  ∃ a, outcome_of m = Done a ∧ outcome_of (f a) = Done b
       ∧ trace (m ≫= f) = trace m ++ trace (f a).
Proof.
  intros Hb. destruct (outcome_bind_Done _ _ _ Hb) as (a & Ha & Hfa).
  exists a. split_and!; [done..|]. by rewrite (bind_Done _ _ _ Ha).
Qed.

Lemma check_files_present w paths :
  Forall (fun p => path_exists w p = Done true) paths →
  check_files w paths = mk_prog (EvExists <$> paths) (Done ()).
Proof.
  induction 1 as [|p paths Hp _ IH]; [done|].
  cbn [check_files]. unfold mbind, prog_bind, perform. cbn [outcome_of trace].
  rewrite Hp, IH. done.
Qed.

Lemma check_files_missing w before p after :
  Forall (fun q => path_exists w q = Done true) before →
  path_exists w p = Done false →
  check_files w (before ++ p :: after)
  = mk_prog (EvExists <$> (before ++ [p]))
      (Failed (FileNotFoundError (py "Missing file: " ++ p))).
Proof.
  intros Hb Hp. induction Hb as [|q before Hq _ IH].
  - cbn [app check_files]. unfold mbind, prog_bind, perform.
    cbn [outcome_of trace]. by rewrite Hp.
  - cbn [app check_files]. unfold mbind, prog_bind, perform.
    cbn [outcome_of trace]. rewrite Hq, IH. done.
Qed.

Lemma check_files_Done w paths :
  outcome_of (check_files w paths) = Done () →
  Forall (fun p => path_exists w p = Done true) paths.
Proof.
  induction paths as [|p paths IH]; [done|].
  cbn [check_files]. rewrite outcome_bind. cbn [perform outcome_of].
  destruct (path_exists w p) as [[]|] eqn:Hp; [|done..].
  intros Hd. constructor; [done|by apply IH].
Qed.

Lemma check_files_events w paths ev :
  ev ∈ trace (check_files w paths) → ∃ p, p ∈ paths ∧ ev = EvExists p.
Proof.
  induction paths as [|p paths IH]; [by intros ?%elem_of_nil|].
  cbn [check_files]. intros [Hev|(found & Hf & Hev)]%elem_of_trace_bind.
  - apply list_elem_of_singleton in Hev. exists p. split; [left|done].
  - destruct found; [|by apply elem_of_nil in Hev].
    destruct (IH Hev) as (q & Hq & ->). exists q. split; [by right|done].
Qed.

Lemma main_inputs_loaded w study_text extract_prompt judge_prompt schema :
  inputs_loaded w study_text extract_prompt judge_prompt schema →
  main_inputs w
  = mk_prog ((EvExists <$> REQUIRED_FILES) ++ (EvReadText <$> REQUIRED_FILES))
      (Done (study_text, extract_prompt, judge_prompt, schema)).
Proof.
  intros (Hex & Hs & He & Hj & st & Hst & Hl). unfold main_inputs.
  rewrite (check_files_present _ _ Hex).
  unfold read_text, mbind, prog_bind, perform, lift.
  cbn [outcome_of trace]. rewrite Hs. cbn [outcome_of trace].
  rewrite He. cbn [outcome_of trace]. rewrite Hj. cbn [outcome_of trace].
  rewrite Hst. cbn [outcome_of trace]. rewrite Hl. done.
Qed.

Lemma main_inputs_Done w study_text extract_prompt judge_prompt schema :
  outcome_of (main_inputs w)
  = Done (study_text, extract_prompt, judge_prompt, schema) →
  inputs_loaded w study_text extract_prompt judge_prompt schema.
Proof.
  unfold main_inputs.
  intros ([] & Hex%check_files_Done & Hd)%outcome_bind_Done.
  apply outcome_bind_Done in Hd as (s & Hs & Hd).
  apply outcome_bind_Done in Hd as (e & He & Hd).
  apply outcome_bind_Done in Hd as (j & Hj & Hd).
  apply outcome_bind_Done in Hd as (st & Hst & Hd).
  apply outcome_bind_Done in Hd as (sc & Hsc & Hd).
  cbn in Hd. simplify_eq. split_and!; try done.
  exists st. split; [done|]. unfold lift in Hsc. cbn [outcome_of] in Hsc.
  destruct (json.loads st); cbn [of_result] in Hsc; by simplify_eq.
Qed.

Lemma required_files :
  STUDY_TEXT_PATH ∈ REQUIRED_FILES ∧ EXTRACT_PROMPT_PATH ∈ REQUIRED_FILES
  ∧ JUDGE_PROMPT_PATH ∈ REQUIRED_FILES ∧ SCHEMA_PATH ∈ REQUIRED_FILES.
Proof. unfold REQUIRED_FILES. split_and!; repeat constructor. Qed.

Lemma main_inputs_events w ev :
  ev ∈ trace (main_inputs w) →
  ∃ p, p ∈ REQUIRED_FILES ∧ (ev = EvExists p ∨ ev = EvReadText p).
Proof.
  assert (∀ p ev', p ∈ REQUIRED_FILES → ev' ∈ trace (read_text w p) →
            ∃ q, q ∈ REQUIRED_FILES ∧ (ev' = EvExists q ∨ ev' = EvReadText q))
    as Hread.
  { intros p ev' Hp ->%list_elem_of_singleton. exists p. by split; [|right]. }
  unfold main_inputs.
  intros [(p & Hp & ->)%check_files_events|(_ & _ & H0)]%elem_of_trace_bind;
    [exists p; by split; [|left]|].
  apply elem_of_trace_bind in H0 as [H0|(s & _ & H1)];
    [exact (Hread _ _ (proj1 required_files) H0)|].
  apply elem_of_trace_bind in H1 as [H1|(e & _ & H2)];
    [exact (Hread _ _ (proj1 (proj2 required_files)) H1)|].
  apply elem_of_trace_bind in H2 as [H2|(j & _ & H3)];
    [exact (Hread _ _ (proj1 (proj2 (proj2 required_files))) H2)|].
  apply elem_of_trace_bind in H3 as [H3|(st & _ & H4)];
    [exact (Hread _ _ (proj2 (proj2 (proj2 required_files))) H3)|].
  apply elem_of_trace_bind in H4 as [H4|(sc & _ & H5)];
    [by apply elem_of_nil in H4|by apply elem_of_nil in H5].
Qed.

Lemma must_json_run_Done raw v :
  outcome_of (must_json_run raw) = Done v →
  must_json json.loads raw = ([], Ok v) ∧ trace (must_json_run raw) = [].
Proof.
  unfold must_json_run, must_json, parse_or_report. cbn [outcome_of trace].
  destruct (json.loads _) as [v'|e]; cbn; [|by destruct e].
  by intros [= ->].
Qed.

Lemma must_json_run_events raw ev :
  ev ∈ trace (must_json_run raw) → ∃ s, ev = EvPrint s.
Proof.
  unfold must_json_run. cbn [trace].
  intros (s & -> & _)%list_elem_of_fmap. by exists s.
Qed.

Section PipelineProperties.
Context `{PyRuntime}.
Variable floatstr : str → str.

Lemma main_step1_Done w study_text extract_prompt extracted :
  outcome_of (main_step1 floatstr w study_text extract_prompt) = Done extracted →
  ∃ extract_raw line_ids_result,
    outcome_of (call_llm w extract_prompt
                  (extract_user_payload (number_lines study_text).1))
    = Done extract_raw
    ∧ must_json json.loads extract_raw = ([], Ok line_ids_result)
    ∧ main_extracted line_ids_result (number_lines study_text).2
      = Ok extracted
    ∧ trace (main_step1 floatstr w study_text extract_prompt)
      = [extraction_request w extract_prompt study_text;
         EvPrint (line_ids_message (dumps floatstr true line_ids_result));
         EvPrint (evidence_message
                    (dumps floatstr false (extracted_value extracted)))].
Proof.
  unfold main_step1, extraction_request.
  destruct (number_lines study_text) as [numbered_text line_map].
  cbn [fst snd].
  intros (raw & Hraw & Hd & ->)%bind_Done_inv.
  apply bind_Done_inv in Hd as (ids & Hids & Hd & ->).
  apply bind_Done_inv in Hd as ([] & _ & Hd & ->).
  apply bind_Done_inv in Hd as (e & He & Hd & ->).
  apply bind_Done_inv in Hd as ([] & _ & Hd & ->).
  cbn in Hd. simplify_eq.
  apply must_json_run_Done in Hids as [Hids ->].
  exists raw, ids. split_and!; try done.
  - unfold lift in He. cbn [outcome_of] in He.
    destruct (main_extracted ids line_map); cbn [of_result] in He;
      by simplify_eq.
  - by rewrite call_llm_trace.
Qed.

Lemma main_step1_events w study_text extract_prompt ev :
  ev ∈ trace (main_step1 floatstr w study_text extract_prompt) →
  ev = extraction_request w extract_prompt study_text ∨ ∃ s, ev = EvPrint s.
Proof.
  unfold main_step1, extraction_request.
  destruct (number_lines study_text) as [numbered_text line_map].
  cbn [fst snd].
  intros [Hev|(raw & _ & Hev)]%elem_of_trace_bind.
  { rewrite call_llm_trace in Hev. left. by apply list_elem_of_singleton. }
  right.
  apply elem_of_trace_bind in Hev as [Hev|(ids & _ & Hev)];
    [by eapply must_json_run_events|].
  apply elem_of_trace_bind in Hev as [Hev|(? & _ & Hev)];
    [apply list_elem_of_singleton in Hev; by eexists|].
  apply elem_of_trace_bind in Hev as [Hev|(e & _ & Hev)];
    [by apply elem_of_nil in Hev|].
  apply elem_of_trace_bind in Hev as [Hev|(? & _ & Hev)];
    [apply list_elem_of_singleton in Hev; by eexists|].
  by apply elem_of_nil in Hev.
Qed.

Lemma main_step2_Done w judge_prompt extracted result :
  outcome_of (main_step2 floatstr w judge_prompt extracted) = Done result →
  ∃ judge_raw,
    outcome_of (call_llm w judge_prompt
                  (dumps floatstr false (judge_object extracted)))
    = Done judge_raw
    ∧ must_json json.loads judge_raw = ([], Ok result)
    ∧ trace (main_step2 floatstr w judge_prompt extracted)
      = [judge_request floatstr w judge_prompt extracted;
         EvPrint (judge_raw_message judge_raw)].
Proof.
  unfold main_step2, judge_request.
  intros (raw & Hraw & Hd & ->)%bind_Done_inv.
  apply bind_Done_inv in Hd as ([] & _ & Hd & ->).
  apply must_json_run_Done in Hd as [Hd ->].
  exists raw. split_and!; try done. by rewrite call_llm_trace.
Qed.

Lemma main_step2_events w judge_prompt extracted ev :
  ev ∈ trace (main_step2 floatstr w judge_prompt extracted) →
  ev = judge_request floatstr w judge_prompt extracted ∨ ∃ s, ev = EvPrint s.
Proof.
  unfold main_step2, judge_request.
  intros [Hev|(raw & _ & Hev)]%elem_of_trace_bind.
  { rewrite call_llm_trace in Hev. left. by apply list_elem_of_singleton. }
  right.
  apply elem_of_trace_bind in Hev as [Hev|(? & _ & Hev)];
    [apply list_elem_of_singleton in Hev; by eexists|].
  by eapply must_json_run_events.
Qed.

Lemma main_save_Done w result :
  outcome_of (main_save floatstr w result) = Done () →
  path_mkdir w OUT_DIR = Done ()
  ∧ path_write_text w OUT_PATH (dumps floatstr false result) = Done ()
  ∧ trace (main_save floatstr w result)
    = [EvPrint final_result_message;
       EvPrint (dumps floatstr false result);
       EvMkdir OUT_DIR;
       EvWriteText OUT_PATH (dumps floatstr false result);
       EvPrint (saved_message OUT_PATH)].
Proof.
  unfold main_save.
  intros ([] & _ & Hd & ->)%bind_Done_inv.
  apply bind_Done_inv in Hd as ([] & _ & Hd & ->).
  apply bind_Done_inv in Hd as ([] & Hm & Hd & ->).
  apply bind_Done_inv in Hd as ([] & Hw & Hd & ->).
  done.
Qed.

Lemma main_save_events w result ev :
  ev ∈ trace (main_save floatstr w result) →
  (∃ s, ev = EvPrint s)
  ∨ ev = EvMkdir OUT_DIR
  ∨ (ev = EvWriteText OUT_PATH (dumps floatstr false result)
     ∧ path_mkdir w OUT_DIR = Done ()).
Proof.
  unfold main_save.
  intros [Hev|(? & _ & Hev)]%elem_of_trace_bind;
    [apply list_elem_of_singleton in Hev; left; by eexists|].
  apply elem_of_trace_bind in Hev as [Hev|(? & _ & Hev)];
    [apply list_elem_of_singleton in Hev; left; by eexists|].
  apply elem_of_trace_bind in Hev as [Hev|([] & Hm & Hev)];
    [apply list_elem_of_singleton in Hev; by right; left|].
  apply elem_of_trace_bind in Hev as [Hev|(? & _ & Hev)];
    [apply list_elem_of_singleton in Hev; by right; right|].
  apply list_elem_of_singleton in Hev; left; by eexists.
Qed.


Lemma main_extracted_grounded study_text line_ids_result extracted :
  main_extracted line_ids_result (number_lines study_text).2 = Ok extracted →
  study_id extracted = STUDY_ID
  ∧ Forall (grounded study_text) (evidence_quotes extracted).
Proof.
  intros (pairs & found1 & found2 & _ & H1 & H2 & -> & _ & Hid)
    %main_extracted_inv.
  split; [done|]. apply Forall_forall. intros r [Hr|Hr]%elem_of_app.
  - exact (extract_grounded _ _ _ _ _ H1 Hr).
  - exact (extract_grounded _ _ _ _ _ H2 Hr).
Qed.

(** Every event of a run, with what must have gone well before it. *)
Lemma main_events w ev :
  ev ∈ trace (main floatstr w) →
  (∃ p, p ∈ REQUIRED_FILES ∧ (ev = EvExists p ∨ ev = EvReadText p))
  ∨ (∃ s, ev = EvPrint s)
  ∨ ∃ study_text extract_prompt judge_prompt schema,
      inputs_loaded w study_text extract_prompt judge_prompt schema
      ∧ (ev = extraction_request w extract_prompt study_text
         ∨ ∃ extract_raw line_ids_result extracted,
             outcome_of (call_llm w extract_prompt
                           (extract_user_payload (number_lines study_text).1))
             = Done extract_raw
             ∧ must_json json.loads extract_raw = ([], Ok line_ids_result)
             ∧ main_extracted line_ids_result (number_lines study_text).2
               = Ok extracted
             ∧ (ev = judge_request floatstr w judge_prompt extracted
                ∨ ∃ judge_raw result,
                    outcome_of (call_llm w judge_prompt
                                  (dumps floatstr false (judge_object extracted)))
                    = Done judge_raw
                    ∧ must_json json.loads judge_raw = ([], Ok result)
                    ∧ (ev = EvValidate result schema
                       ∨ jsonschema_validate w result schema = Done ()
                         ∧ (ev = EvMkdir OUT_DIR
                            ∨ ev = EvWriteText OUT_PATH
                                     (dumps floatstr false result)
                              ∧ path_mkdir w OUT_DIR = Done ())))).
Proof.
  unfold main.
  intros [Hev|([[[study ep] jp] schema] & Hin%main_inputs_Done & H1)]
    %elem_of_trace_bind; [left; by eapply main_inputs_events|].
  right. cbv beta iota in H1.
  apply elem_of_trace_bind in H1 as [H1|(e & He & H2)].
  { apply main_step1_events in H1 as [->|?]; [right|by left].
    exists study, ep, jp, schema. split; [done|by left]. }
  apply main_step1_Done in He as (raw & ids & Hraw1 & Hids & He & _).
  apply elem_of_trace_bind in H2 as [H2|(result & Hres & H3)].
  { apply main_step2_events in H2 as [->|?]; [right|by left].
    exists study, ep, jp, schema. split; [done|right].
    exists raw, ids, e. split_and!; [done..|by left]. }
  apply main_step2_Done in Hres as (judge_raw & Hraw & Hres & _).
  apply elem_of_trace_bind in H3 as [H3|([] & Hval & H4)].
  { apply list_elem_of_singleton in H3 as ->. right.
    exists study, ep, jp, schema. split; [done|right].
    exists raw, ids, e. split_and!; [done..|right].
    exists judge_raw, result. split_and!; [done..|by left]. }
  apply main_save_events in H4 as [?|H4]; [by left|right].
  exists study, ep, jp, schema. split; [done|right].
  exists raw, ids, e. split_and!; [done..|right].
  exists judge_raw, result. split_and!; [done..|right].
  split; [done|]. destruct H4 as [->|[-> ?]]; [by left|by right].
Qed.

(** What reaches the model.  Every request of a run goes to the chat
    endpoint, after the four input files were found and read and the
    schema parsed, and it is one of two: the extraction request, whose
    user message holds the numbered study text, or the judge request,
    whose user message is the serialized object built from a verified
    evidence object; every quote of that object is grounded in the study
    text, whatever the model answered to the extraction request. *)
Theorem requests_carry_grounded_evidence w url payload :
  EvPost url payload ∈ trace (main floatstr w) →
  url = chat_url w
  ∧ ∃ study_text extract_prompt judge_prompt schema,
      inputs_loaded w study_text extract_prompt judge_prompt schema
      ∧ (payload = chat_payload w extract_prompt
                     (extract_user_payload (number_lines study_text).1)
         ∨ ∃ extracted,
             payload = chat_payload w judge_prompt
                         (dumps floatstr false (judge_object extracted))
             ∧ study_id extracted = STUDY_ID
             ∧ Forall (grounded study_text) (evidence_quotes extracted)).
Proof.
  intros [(p & _ & [?|?])|[[s ?]|Hev]]%main_events; [done..|].
  destruct Hev as (study & ep & jp & schema & Hin & Hev).
  destruct Hev as [Hev|(raw & ids & e & _ & _ & He & Hev)].
  { injection Hev as -> ->. split; [done|].
    exists study, ep, jp, schema. split; [done|by left]. }
  destruct Hev as [Hev|(judge_raw & result & _ & _ & [?|[_ [?|[? _]]]])];
    [|done..].
  injection Hev as -> ->. split; [done|].
  exists study, ep, jp, schema. split; [done|right].
  exists e. split; [done|]. by eapply main_extracted_grounded.
Qed.

(** Nothing is saved that was not validated.  A run creates the output
    directory, and writes a file, only after the reply the model gave to
    the judge request was parsed and [jsonschema.validate] accepted the
    parsed value against the schema the run loaded; the one file it writes
    is the output file, and its content is the serialization of that very
    value. *)
Theorem nothing_saved_unvalidated w :
  (∀ p, EvMkdir p ∈ trace (main floatstr w) →
     p = OUT_DIR
     ∧ ∃ schema result,
         judged floatstr w schema result
         ∧ jsonschema_validate w result schema = Done ())
  ∧ (∀ p content, EvWriteText p content ∈ trace (main floatstr w) →
       p = OUT_PATH
       ∧ path_mkdir w OUT_DIR = Done ()
       ∧ ∃ schema result,
           judged floatstr w schema result
           ∧ jsonschema_validate w result schema = Done ()
           ∧ content = dumps floatstr false result).
Proof.
  split.
  - intros p [(q & _ & [?|?])|[[s ?]|Hev]]%main_events; [done..|].
    destruct Hev as (study & ep & jp & schema & Hin & [?|Hev]); [done|].
    destruct Hev as (raw & ids & e & Hraw & Hids & He & [?|Hev]); [done|].
    destruct Hev
      as (judge_raw & result & Hjraw & Hres & [?|[Hval [Hev|[? _]]]]);
      [done| |done].
    injection Hev as ->. split; [done|]. exists schema, result.
    split; [|done]. by exists study, ep, jp, raw, ids, e, judge_raw.
  - intros p c [(q & _ & [?|?])|[[s ?]|Hev]]%main_events; [done..|].
    destruct Hev as (study & ep & jp & schema & Hin & [?|Hev]); [done|].
    destruct Hev as (raw & ids & e & Hraw & Hids & He & [?|Hev]); [done|].
    destruct Hev
      as (judge_raw & result & Hjraw & Hres & [?|[Hval [?|[Hev Hm]]]]);
      [done..|].
    injection Hev as -> ->. split_and!; [done..|]. exists schema, result.
    split_and!; [|done..]. by exists study, ep, jp, raw, ids, e, judge_raw.
Qed.

(** A run that succeeds did exactly this, in this order: looked for the
    four files, read them, sent the extraction request, printed the line
    identifiers parsed from the model's reply to it and the evidence
    verified from them, sent the judge request, printed the head of the
    model's reply to it, validated the value parsed from that reply,
    printed it, made the output directory, wrote the file and printed
    where.  Both replies were parsed without a failure notice. *)
Theorem successful_run w :
  outcome_of (main floatstr w) = Done () →
  ∃ study_text extract_prompt judge_prompt schema extract_raw line_ids_result
    extracted judge_raw result,
    inputs_loaded w study_text extract_prompt judge_prompt schema
    ∧ outcome_of (call_llm w extract_prompt
                    (extract_user_payload (number_lines study_text).1))
      = Done extract_raw
    ∧ must_json json.loads extract_raw = ([], Ok line_ids_result)
    ∧ main_extracted line_ids_result (number_lines study_text).2
      = Ok extracted
    ∧ outcome_of (call_llm w judge_prompt
                    (dumps floatstr false (judge_object extracted)))
      = Done judge_raw
    ∧ must_json json.loads judge_raw = ([], Ok result)
    ∧ jsonschema_validate w result schema = Done ()
    ∧ path_mkdir w OUT_DIR = Done ()
    ∧ path_write_text w OUT_PATH (dumps floatstr false result) = Done ()
    ∧ trace (main floatstr w)
      = (EvExists <$> REQUIRED_FILES) ++ (EvReadText <$> REQUIRED_FILES)
        ++ [extraction_request w extract_prompt study_text;
            EvPrint (line_ids_message (dumps floatstr true line_ids_result));
            EvPrint (evidence_message
                       (dumps floatstr false (extracted_value extracted)));
            judge_request floatstr w judge_prompt extracted;
            EvPrint (judge_raw_message judge_raw);
            EvValidate result schema;
            EvPrint final_result_message;
            EvPrint (dumps floatstr false result);
            EvMkdir OUT_DIR;
            EvWriteText OUT_PATH (dumps floatstr false result);
            EvPrint (saved_message OUT_PATH)].
Proof.
  unfold main.
  intros ([[[study ep] jp] schema] & Hin%main_inputs_Done & Hd & Ht)
    %bind_Done_inv.
  rewrite Ht. clear Ht. cbv beta iota in Hd |- *.
  apply bind_Done_inv in Hd as (e & He & Hd & ->).
  apply bind_Done_inv in Hd as (result & Hres & Hd & ->).
  apply bind_Done_inv in Hd as ([] & Hval & Hd & ->).
  apply main_step1_Done in He as (raw & ids & Hraw & Hids & He & ->).
  apply main_step2_Done in Hres as (judge_raw & Hjraw & Hres & ->).
  apply main_save_Done in Hd as (Hmk & Hwr & ->).
  exists study, ep, jp, schema, raw, ids, e, judge_raw, result.
  split_and!; try done.
  rewrite (main_inputs_loaded _ _ _ _ _ Hin).
  unfold validate_schema, perform. cbn [trace]. by rewrite <- app_assoc.
Qed.

(** A missing input stops the run at once.  When one of the four required
    files is not there, the run looks for the files before it, then for
    that one, and raises [FileNotFoundError] naming it; it reads no file,
    sends no request, prints and writes nothing. *)
Theorem missing_file_stops_main w before p after :
  REQUIRED_FILES = before ++ p :: after →
  Forall (fun q => path_exists w q = Done true) before →
  path_exists w p = Done false →
  main floatstr w
  = mk_prog (EvExists <$> (before ++ [p]))
      (Failed (FileNotFoundError (py "Missing file: " ++ p))).
Proof.
  intros Heq Hb Hp. unfold main, main_inputs. rewrite Heq.
  rewrite (check_files_missing _ _ _ _ Hb Hp).
  by rewrite !(bind_Failed _ _ (FileNotFoundError (py "Missing file: " ++ p))).
Qed.

End PipelineProperties.

(** ** The pipeline on the example world *)

Example main_example_run :
  outcome_of (@main example_runtime example_floatstr example_world) = Done ()
  ∧ length (trace (@main example_runtime example_floatstr example_world)) = 19%nat
  ∧ trace (@main example_runtime example_floatstr example_world) !! 17%nat
    = Some (EvWriteText (py "outputs/smith_2022_index_test.json")
              (dumps example_floatstr false verdict1_value)).
Proof. by vm_compute. Qed.

(** With the judge prompt missing. *)
Lemma missing_file_stops_main_witness :
  @main example_runtime example_floatstr world_without_judge_prompt
  = mk_prog [EvExists STUDY_TEXT_PATH; EvExists EXTRACT_PROMPT_PATH;
             EvExists JUDGE_PROMPT_PATH]
      (Failed (FileNotFoundError
                 (py "Missing file: prompts/index_test/judge.txt"))).
Proof.
  apply (@missing_file_stops_main example_runtime example_floatstr world_without_judge_prompt
           [STUDY_TEXT_PATH; EXTRACT_PROMPT_PATH] JUDGE_PROMPT_PATH
           [SCHEMA_PATH]).
  - reflexivity.
  - repeat constructor.
  - reflexivity.
Defined.

(** The judge request of the example run. *)
Lemma requests_carry_grounded_evidence_witness :
  let extracted :=
    mk_extracted STUDY_ID
      [mk_evidence (py "Blinded assessors.") (py "Line 1")
         (py "index_test_blinding");
       mk_evidence (py "Threshold was 5mg.") (py "Line 2") (py "threshold")]
      (PList []) in
  let payload :=
    chat_payload example_world (py "You are a reviewer.")
      (dumps example_floatstr false (judge_object extracted)) in
  chat_url example_world = chat_url example_world
  ∧ ∃ study_text extract_prompt judge_prompt schema,
      inputs_loaded example_world study_text extract_prompt judge_prompt schema
      ∧ (payload = chat_payload example_world extract_prompt
                     (extract_user_payload (number_lines study_text).1)
         ∨ ∃ extracted',
             payload = chat_payload example_world judge_prompt
                         (dumps example_floatstr false (judge_object extracted'))
             ∧ study_id extracted' = STUDY_ID
             ∧ Forall (grounded study_text) (evidence_quotes extracted')).
Proof.
  intros extracted payload.
  apply (@requests_carry_grounded_evidence example_runtime example_floatstr example_world
           (chat_url example_world) payload).
  apply (list_elem_of_lookup_2 _ 11). by vm_compute.
Defined.

(** The example run. *)
Lemma successful_run_witness :
  ∃ study_text extract_prompt judge_prompt schema extract_raw line_ids_result
    extracted judge_raw result,
    inputs_loaded example_world study_text extract_prompt judge_prompt schema
    ∧ outcome_of (call_llm example_world extract_prompt
                    (extract_user_payload (number_lines study_text).1))
      = Done extract_raw
    ∧ must_json json.loads extract_raw = ([], Ok line_ids_result)
    ∧ @main_extracted example_runtime line_ids_result
        (number_lines study_text).2
      = Ok extracted
    ∧ outcome_of (call_llm example_world judge_prompt
                    (dumps example_floatstr false (judge_object extracted)))
      = Done judge_raw
    ∧ must_json json.loads judge_raw = ([], Ok result)
    ∧ jsonschema_validate example_world result schema = Done ()
    ∧ path_mkdir example_world OUT_DIR = Done ()
    ∧ path_write_text example_world OUT_PATH
        (dumps example_floatstr false result) = Done ()
    ∧ trace (@main example_runtime example_floatstr example_world)
      = (EvExists <$> REQUIRED_FILES) ++ (EvReadText <$> REQUIRED_FILES)
        ++ [extraction_request example_world extract_prompt study_text;
            EvPrint (line_ids_message
                       (dumps example_floatstr true line_ids_result));
            EvPrint (evidence_message
                       (dumps example_floatstr false
                          (extracted_value extracted)));
            judge_request example_floatstr example_world judge_prompt
              extracted;
            EvPrint (judge_raw_message judge_raw);
            EvValidate result schema;
            EvPrint final_result_message;
            EvPrint (dumps example_floatstr false result);
            EvMkdir OUT_DIR;
            EvWriteText OUT_PATH (dumps example_floatstr false result);
            EvPrint (saved_message OUT_PATH)].
Proof.
  apply (@successful_run example_runtime example_floatstr example_world).
  by vm_compute.
Defined.

(** ** Serialization: what [json.dumps] writes, [json.loads] reads back *)

(** *** Integers *)

Lemma is_digit_uint_digits d : Forall (fun c => json.is_digit c = true) (uint_digits d).
Proof. induction d; simpl; by constructor. Qed.

Lemma span_digits_all ds r :
  Forall (fun c => json.is_digit c = true) ds →
  number_end r = true →
  json.span_digits (ds ++ r) = (ds, r).
Proof.
  intros Hds Hr. induction Hds as [|c ds Hc _ IH].
  - destruct r as [|c r]; [done|]. cbn in *.
    destruct (json.is_digit c); [done|done].
  - cbn. by rewrite Hc, IH.
Qed.

Lemma of_uint_acc_digits d acc :
  foldl (fun a c => 10 * a + (Z.of_N c - 48)) (Z.pos acc) (uint_digits d)
  = Z.pos (Pos.of_uint_acc d acc).
Proof.
  revert acc. induction d; intros acc; cbn [uint_digits foldl Pos.of_uint_acc];
    [done|rewrite <- IHd; f_equal; lia..].
Qed.

Lemma int_of_digits_uint d : json.int_of_digits (uint_digits d) = Z.of_uint d.
Proof.
  unfold json.int_of_digits, Z.of_uint.
  induction d; cbn [uint_digits foldl Pos.of_uint]; [done|exact IHd|..];
    (etransitivity; [|apply of_uint_acc_digits]); done.
Qed.

Lemma to_uint_head p :
  ∃ c ds, uint_digits (Pos.to_uint p) = c :: ds
          ∧ (c =? 48)%N = false ∧ json.is_digit c = true
          ∧ (c =? 45)%N = false.
Proof.
  pose proof (DecimalPos.Unsigned.to_of (Pos.to_uint p)) as Hn.
  rewrite DecimalPos.Unsigned.of_to in Hn. cbn [N.to_uint] in Hn.
  pose proof (DecimalPos.Unsigned.to_uint_nonnil p) as Hnil.
  destruct (Pos.to_uint p) as [|d|d|d|d|d|d|d|d|d|d] eqn:Hp; [done| |..];
    try by (eexists _, _; split_and!; reflexivity).
  exfalso. rewrite DecimalFacts.unorm_D0 in Hn. unfold Decimal.unorm in Hn.
  destruct (Decimal.nzhead d) as [|u|u|u|u|u|u|u|u|u|u] eqn:Hz; try done.
  - injection Hn as Hd. subst d.
    by apply (DecimalPos.Unsigned.to_uint_nonzero p).
  - by apply (DecimalFacts.nzhead_nonzero d u).
Qed.

Lemma match_frac_end r : number_end r = true → json.match_frac r = ([], r).
Proof.
  destruct r as [|c r]; [done|]. cbn.
  destruct (c =? 46)%N; [|done]. by rewrite !orb_true_r.
Qed.

Lemma match_exp_end r : number_end r = true → json.match_exp r = ([], r).
Proof.
  destruct r as [|c r]; [done|]. cbn.
  destruct (c =? 101)%N; [by rewrite !orb_true_r|].
  destruct (c =? 69)%N; [by rewrite !orb_true_r|done].
Qed.

Lemma match_number_str_of_int z r :
  number_end r = true →
  json.match_number (str_of_int z ++ r) = Some (PInt z, r).
Proof.
  intros Hr. unfold json.match_number, str_of_int.
  assert (∀ p, json.match_natural (uint_digits (Pos.to_uint p) ++ r)
               = Some (uint_digits (Pos.to_uint p), r)) as Hnat.
  { intros p. destruct (to_uint_head p) as (c & ds & Hp & H0 & Hd & _).
    pose proof (is_digit_uint_digits (Pos.to_uint p)) as Hall.
    rewrite Hp in *. cbn. rewrite H0, Hd.
    apply Forall_cons in Hall as [_ Hall]. by rewrite span_digits_all. }
  assert (∀ p, json.int_of_digits (uint_digits (Pos.to_uint p)) = Z.pos p)
    as Hval.
  { intros p. rewrite int_of_digits_uint. unfold Z.of_uint.
    by rewrite DecimalPos.Unsigned.of_to. }
  destruct z as [|p|p]; cbn [Z.to_int].
  - cbn. by rewrite match_frac_end, match_exp_end.
  - unfold json.match_integer.
    destruct (to_uint_head p) as (c & ds & Hp & _ & _ & Hm).
    rewrite Hp. cbn [app]. rewrite Hm.
    change (c :: ds ++ r) with ((c :: ds) ++ r). rewrite <- Hp, Hnat. cbn.
    by rewrite match_frac_end, match_exp_end, Hval.
  - unfold json.match_integer. cbn [app]. rewrite N.eqb_refl, Hnat. cbn.
    by rewrite match_frac_end, match_exp_end, Hval.
Qed.

(** *** Strings *)

Lemma hex4_control c :
  (c < 32)%N →
  json.hex4 (json_encoder.hex_char (c / 4096))
    (json_encoder.hex_char (c / 256 mod 16))
    (json_encoder.hex_char (c / 16 mod 16))
    (json_encoder.hex_char (c mod 16)) = Some c.
Proof.
  intros Hc. destruct c as [|p]; [done|].
  do 5 (try destruct p as [p|p|]); try (exfalso; lia); reflexivity.
Qed.

Lemma scanstring_escape_plain c rest x r :
  json.scanstring rest = Ok (x, r) →
  json.scanstring (json_encoder.escape_plain c ++ rest) = Ok (c :: x, r).
Proof.
  intros Hrest. unfold json_encoder.escape_plain, json_encoder.short_escape.
  destruct (c =? 92)%N eqn:H92;
    [apply N.eqb_eq in H92 as ->; cbn; by rewrite Hrest|].
  destruct (c =? 34)%N eqn:H34;
    [apply N.eqb_eq in H34 as ->; cbn; by rewrite Hrest|].
  destruct (c =? 8)%N eqn:H8;
    [apply N.eqb_eq in H8 as ->; cbn; by rewrite Hrest|].
  destruct (c =? 12)%N eqn:H12;
    [apply N.eqb_eq in H12 as ->; cbn; by rewrite Hrest|].
  destruct (c =? 10)%N eqn:H10;
    [apply N.eqb_eq in H10 as ->; cbn; by rewrite Hrest|].
  destruct (c =? 13)%N eqn:H13;
    [apply N.eqb_eq in H13 as ->; cbn; by rewrite Hrest|].
  destruct (c =? 9)%N eqn:H9;
    [apply N.eqb_eq in H9 as ->; cbn; by rewrite Hrest|].
  destruct (c <? 32)%N eqn:Hlt.
  - apply N.ltb_lt in Hlt. unfold json_encoder.u_escape.
    destruct rest as [|c0 rest]; [done|].
    cbn [app json.scanstring] in Hrest |- *. cbn [N.eqb Pos.eqb].
    rewrite (hex4_control c Hlt).
    replace ((55296 <=? c) && (c <=? 56319))%N with false; [by rewrite Hrest|].
    symmetry. apply andb_false_iff. left. apply N.leb_gt. lia.
  - cbn [app json.scanstring]. by rewrite H34, H92, Hlt, Hrest.
Qed.

Lemma scanstring_encode_str s r :
  json.scanstring (concat (map json_encoder.escape_plain s) ++ 34%N :: r)
  = Ok (s, r).
Proof.
  induction s as [|c s IH]; [done|].
  cbn [map concat]. rewrite <- app_assoc.
  by apply scanstring_escape_plain.
Qed.

(** *** More fuel changes nothing *)

Lemma fuel_mono fuel : ∀ fuel', (fuel ≤ fuel')%nat →
  (∀ s, json.scan_once fuel s ≠ Raise RecursionError →
        json.scan_once fuel' s = json.scan_once fuel s)
  ∧ (∀ s, json.JSONObject fuel s ≠ Raise RecursionError →
          json.JSONObject fuel' s = json.JSONObject fuel s)
  ∧ (∀ s pairs, json.object_loop fuel s pairs ≠ Raise RecursionError →
          json.object_loop fuel' s pairs = json.object_loop fuel s pairs)
  ∧ (∀ s, json.JSONArray fuel s ≠ Raise RecursionError →
          json.JSONArray fuel' s = json.JSONArray fuel s)
  ∧ (∀ s values, json.array_loop fuel s values ≠ Raise RecursionError →
          json.array_loop fuel' s values = json.array_loop fuel s values).
Proof.
  induction fuel as [|fuel IH]; intros fuel' Hle.
  { split_and!; intros; by cbn in *. }
  destruct fuel' as [|fuel']; [lia|].
  destruct (IH fuel' ltac:(lia)) as (IHscan & IHobj & IHoloop & IHarr & IHaloop).
  clear IH. split_and!.
  - intros s. cbn [json.scan_once]. destruct s as [|c s']; [done|].
    destruct (c =? 34)%N; [done|].
    destruct (c =? 123)%N; [apply IHobj|].
    destruct (c =? 91)%N; [apply IHarr|done].
  - intros s. cbn [json.JSONObject].
    destruct (json.skip_ws s) as [|c r]; [done|].
    destruct (c =? 125)%N; [done|].
    destruct (c =? 34)%N; [apply IHoloop|done].
  - intros s pairs. cbn [json.object_loop].
    destruct (json.scanstring s) as [[key r]|e]; cbn; [|done].
    destruct (json.skip_ws r) as [|c r1]; [done|].
    destruct (c =? 58)%N; [|done].
    destruct (json.scan_once fuel (json.skip_ws r1)) as [[value r2]|e] eqn:Hs.
    + rewrite IHscan, Hs by (by rewrite Hs). cbn.
      destruct (json.skip_ws r2) as [|d r3]; [done|].
      destruct (d =? 125)%N; [done|].
      destruct (d =? 44)%N; [|done].
      destruct (json.skip_ws r3) as [|q r4]; [done|].
      destruct (q =? 34)%N; [apply IHoloop|done].
    + cbn. intros He. rewrite IHscan, Hs by (by rewrite Hs). done.
  - intros s. cbn [json.JSONArray].
    destruct (json.skip_ws s) as [|c r]; [apply IHaloop|].
    destruct (c =? 93)%N; [done|apply IHaloop].
  - intros s values. cbn [json.array_loop].
    destruct (json.scan_once fuel s) as [[value r]|e] eqn:Hs.
    + rewrite IHscan, Hs by (by rewrite Hs). cbn.
      destruct (json.skip_ws r) as [|c r1]; [done|].
      destruct (c =? 93)%N; [done|].
      destruct (c =? 44)%N; [apply IHaloop|done].
    + cbn. intros He. rewrite IHscan, Hs by (by rewrite Hs). done.
Qed.

Lemma scan_once_more_fuel fuel fuel' s v r :
  json.scan_once fuel s = Ok (v, r) → (fuel ≤ fuel')%nat →
  json.scan_once fuel' s = Ok (v, r).
Proof.
  intros Hs Hle. destruct (fuel_mono fuel fuel' Hle) as (Hm & _).
  rewrite Hm; [done|by rewrite Hs].
Qed.

Lemma object_loop_more_fuel fuel fuel' s pairs v r :
  json.object_loop fuel s pairs = Ok (v, r) → (fuel ≤ fuel')%nat →
  json.object_loop fuel' s pairs = Ok (v, r).
Proof.
  intros Hs Hle. destruct (fuel_mono fuel fuel' Hle) as (_ & _ & Hm & _).
  rewrite Hm; [done|by rewrite Hs].
Qed.

Lemma array_loop_more_fuel fuel fuel' s values v r :
  json.array_loop fuel s values = Ok (v, r) → (fuel ≤ fuel')%nat →
  json.array_loop fuel' s values = Ok (v, r).
Proof.
  intros Hs Hle. destruct (fuel_mono fuel fuel' Hle) as (_ & _ & _ & _ & Hm).
  rewrite Hm; [done|by rewrite Hs].
Qed.

(** What [scan_once] reads with some fuel, [json.loads] reads. *)
Lemma loads_of_scan_once fuel s v :
  json.scan_once fuel s = Ok (v, []) →
  json.skip_ws s = s →
  startswith s [65279%N] = false →
  json.loads s = Ok v.
Proof.
  intros Hs Hw Hbom. unfold json.loads. rewrite Hbom, Hw.
  destruct (fuel_enough (3 * length s + 3)) as (Hgood & _).
  destruct (Hgood s ltac:(lia)) as [Hrec _].
  destruct (Nat.le_ge_cases fuel (3 * length s + 3)) as [Hle|Hle].
  - by rewrite (scan_once_more_fuel _ _ _ _ _ Hs Hle).
  - destruct (fuel_mono _ _ Hle) as (Hm & _).
    rewrite <- (Hm s Hrec), Hs. done.
Qed.

(** *** The decoder within the interpreter's limits *)

Lemma short_integers_mono L n m :
  short_integers L n → (m ≤ n)%nat → short_integers L m.
Proof. unfold short_integers. lia. Qed.

Section limited.
Context (L : Limits).

Lemma agrees_bind {A B} (m m' : result A) (f f' : A → result B) :
  agrees m m' → (∀ x, agrees (f x) (f' x)) → agrees (m ≫= f) (m' ≫= f').
Proof.
  intros Hm Hf. destruct m as [x|e]; cbn in *.
  - rewrite Hm. cbn. apply Hf.
  - destruct e; cbn in *; try done; by rewrite Hm.
Qed.

Lemma raise_errmsg_agrees {A} levels msg :
  agrees (A:=A) (json_limited.raise_errmsg L levels msg)
    (Raise (JSONDecodeError msg)).
Proof. unfold json_limited.raise_errmsg. by destruct (_ <? _)%nat. Qed.

Lemma scanstring_agrees levels s :
  agrees (json_limited.scanstring L levels s) (json.scanstring s).
Proof.
  unfold json_limited.scanstring.
  destruct (json.scanstring s) as [x|e] eqn:Hs; [done|].
  destruct (scanstring_errors _ _ Hs) as [msg ->].
  apply raise_errmsg_agrees.
Qed.

Lemma match_number_limited s :
  match json_limited.match_number L s with
  | None => json.match_number s = None
  | Some res => ∃ vr, json.match_number s = Some vr
                      ∧ (res = Ok vr ∨ res = Raise ValueError)
  end.
Proof.
  unfold json_limited.match_number, json.match_number.
  destruct (json.match_integer s) as [[[neg digits] r1]|]; [|done].
  destruct (json.match_frac r1) as [frac r2].
  destruct (json.match_exp r2) as [exp r3].
  destruct frac, exp; try (eexists; split; [done|by left]).
  destruct (json_limited.int_too_long L digits);
    (eexists; split; [done|]); [by right|by left].
Qed.

Lemma limited_agrees fuel : ∀ levels,
  (∀ s, agrees (json_limited.scan_once L fuel levels s) (json.scan_once fuel s))
  ∧ (∀ s, agrees (json_limited.JSONObject L fuel levels s) (json.JSONObject fuel s))
  ∧ (∀ s pairs, agrees (json_limited.object_loop L fuel levels s pairs)
                  (json.object_loop fuel s pairs))
  ∧ (∀ s, agrees (json_limited.JSONArray L fuel levels s) (json.JSONArray fuel s))
  ∧ (∀ s values, agrees (json_limited.array_loop L fuel levels s values)
                   (json.array_loop fuel s values)).
Proof.
  induction fuel as [|fuel IH]; intros levels.
  { split_and!; intros; by cbn. }
  pose proof (IH levels) as (IHscan & IHobj & IHoloop & IHarr & IHaloop).
  split_and!.
  - intros s. cbn [json_limited.scan_once json.scan_once].
    destruct s as [|c s']; [done|].
    destruct (c =? 34)%N.
    { apply agrees_bind; [apply scanstring_agrees|by intros [x r]]. }
    destruct (c =? 123)%N.
    { destruct levels as [|levels]; [done|]. apply IH. }
    destruct (c =? 91)%N.
    { destruct levels as [|levels]; [done|]. apply IH. }
    destruct (startswith (c :: s') (py "null")); [done|].
    destruct (startswith (c :: s') (py "true")); [done|].
    destruct (startswith (c :: s') (py "false")); [done|].
    pose proof (match_number_limited (c :: s')) as Hn.
    destruct (json_limited.match_number L (c :: s')) as [res|].
    { destruct Hn as (vr & -> & [->| ->]); done. }
    rewrite Hn. unfold json_limited.parse_constant.
    destruct (startswith (c :: s') (py "NaN")); [by destruct levels|].
    destruct (startswith (c :: s') (py "Infinity")); [by destruct levels|].
    destruct (startswith (c :: s') (py "-Infinity")); [by destruct levels|].
    done.
  - intros s. cbn [json_limited.JSONObject json.JSONObject].
    destruct (json.skip_ws s) as [|c r]; [apply raise_errmsg_agrees|].
    destruct (c =? 125)%N; [done|].
    destruct (c =? 34)%N; [apply IHoloop|apply raise_errmsg_agrees].
  - intros s pairs. cbn [json_limited.object_loop json.object_loop].
    apply agrees_bind; [apply scanstring_agrees|]. intros [key r].
    destruct (json.skip_ws r) as [|c r1]; [apply raise_errmsg_agrees|].
    destruct (c =? 58)%N; [|apply raise_errmsg_agrees].
    apply agrees_bind; [apply IHscan|]. intros [value r2].
    destruct (json.skip_ws r2) as [|d r3]; [apply raise_errmsg_agrees|].
    destruct (d =? 125)%N; [done|].
    destruct (d =? 44)%N; [|apply raise_errmsg_agrees].
    destruct (json.skip_ws r3) as [|q r4]; [apply raise_errmsg_agrees|].
    destruct (q =? 34)%N; [apply IHoloop|apply raise_errmsg_agrees].
  - intros s. cbn [json_limited.JSONArray json.JSONArray].
    destruct (json.skip_ws s) as [|c r]; [apply IHaloop|].
    destruct (c =? 93)%N; [done|apply IHaloop].
  - intros s values. cbn [json_limited.array_loop json.array_loop].
    apply agrees_bind; [apply IHscan|]. intros [value r].
    destruct (json.skip_ws r) as [|c r1]; [apply raise_errmsg_agrees|].
    destruct (c =? 93)%N; [done|].
    destruct (c =? 44)%N; [apply IHaloop|apply raise_errmsg_agrees].
Qed.

Lemma same_fuel s :
  json.scan_once (3 * length (json.skip_ws s) + 3) (json.skip_ws s)
  = json.scan_once (3 * length s + 3) (json.skip_ws s).
Proof.
  pose proof (skip_ws_length s) as Hw.
  destruct (fuel_mono (3 * length (json.skip_ws s) + 3) (3 * length s + 3))
    as (Hm & _); [lia|].
  symmetry. apply Hm.
  destruct (fuel_enough (3 * length (json.skip_ws s) + 3)) as (Hgood & _).
  apply Hgood. lia.
Qed.

Lemma raw_decode_agrees levels s :
  agrees (json_limited.raw_decode L levels s)
    (json.scan_once (3 * length s + 3) s)
  ∧ json_limited.raw_decode L levels s ≠ Raise StopIteration.
Proof.
  unfold json_limited.raw_decode. destruct levels as [|inner]; [done|].
  destruct (limited_agrees (3 * length s + 3) inner) as (Hscan & _).
  specialize (Hscan s).
  destruct (json_limited.scan_once L _ inner s) as [x|e]; [done|].
  destruct e; try done. unfold agrees in Hscan. rewrite Hscan.
  split; [apply raise_errmsg_agrees|].
  unfold json_limited.raise_errmsg. by destruct (_ <? _)%nat.
Qed.

Lemma loads_agrees s :
  agrees (json_limited.loads L s) (json.loads s)
  ∧ json_limited.loads L s ≠ Raise StopIteration.
Proof.
  unfold json_limited.loads, json.loads.
  destruct (recursion_remaining L) as [|[|inner]]; [done..|].
  destruct (startswith s [65279%N]).
  { split; [apply raise_errmsg_agrees|].
    unfold json_limited.raise_errmsg. by destruct (_ <? _)%nat. }
  unfold json_limited.decode. destruct inner as [|inner]; [done|].
  rewrite <- same_fuel.
  destruct (raw_decode_agrees inner (json.skip_ws s)) as [Ha Hs].
  destruct (json_limited.raw_decode L inner (json.skip_ws s)) as [[obj r]|e].
  - unfold agrees in Ha. rewrite Ha. cbn [mbind result_bind].
    destruct (json.skip_ws r); [done|].
    split; [apply raise_errmsg_agrees|].
    unfold json_limited.raise_errmsg. by destruct (_ <? _)%nat.
  - split; [|by destruct e].
    destruct e; unfold agrees in *; try done; by rewrite Ha.
Qed.

(** [json.loads] within limits ends in one of four ways; in the first two
    it does what the decoder without limits does. *)
Lemma limited_loads_outcomes s :
  (∃ v, json_limited.loads L s = Ok v ∧ json.loads s = Ok v)
  ∨ (∃ msg, json_limited.loads L s = Raise (JSONDecodeError msg)
            ∧ json.loads s = Raise (JSONDecodeError msg))
  ∨ json_limited.loads L s = Raise RecursionError
  ∨ json_limited.loads L s = Raise ValueError.
Proof.
  destruct (loads_agrees s) as [Ha Hs].
  destruct (json_limited.loads L s) as [v|e].
  - left. by exists v.
  - destruct e; cbn in Ha; try done.
    + right; left. by eexists.
    + by right; right; left.
    + by right; right; right.
Qed.

(** **** Limits out of reach *)

Lemma raise_errmsg_in_reach {A} levels msg :
  (error_levels L ≤ levels)%nat →
  json_limited.raise_errmsg (A:=A) L levels msg = Raise (JSONDecodeError msg).
Proof.
  intros Hl. unfold json_limited.raise_errmsg.
  destruct (Nat.ltb_spec levels (error_levels L)); [lia|done].
Qed.

Lemma scanstring_in_reach levels s :
  (error_levels L ≤ levels)%nat →
  json_limited.scanstring L levels s = json.scanstring s.
Proof.
  intros Hl. unfold json_limited.scanstring.
  destruct (json.scanstring s) as [x|e] eqn:Hs; [done|].
  destruct (scanstring_errors _ _ Hs) as [msg ->].
  by apply raise_errmsg_in_reach.
Qed.

Lemma span_digits_app s ds r : json.span_digits s = (ds, r) → s = ds ++ r.
Proof.
  revert ds r. induction s as [|c s IH]; intros ds r Hs; simpl in Hs.
  - by simplify_eq.
  - destruct (json.is_digit c); [|by simplify_eq].
    destruct (json.span_digits s) as [ds' r'] eqn:Heq. simplify_eq.
    cbn. f_equal. by apply IH.
Qed.

Lemma match_integer_digits s neg digits r :
  json.match_integer s = Some (neg, digits, r) →
  (length digits ≤ length s)%nat.
Proof.
  assert (Hnat : ∀ t ds r', json.match_natural t = Some (ds, r') →
                            (length ds ≤ length t)%nat).
  { intros t ds r'. unfold json.match_natural. destruct t as [|c t']; [done|].
    destruct (c =? 48)%N; [intros; simplify_eq; simpl; lia|].
    destruct (json.is_digit c); [|done].
    destruct (json.span_digits t') as [ds' r''] eqn:Heq.
    apply span_digits_app in Heq as ->. intros; simplify_eq.
    cbn. rewrite length_app. lia. }
  unfold json.match_integer. destruct s as [|c s']; [done|].
  destruct (c =? 45)%N.
  - destruct (json.match_natural s') as [[ds r']|] eqn:Hn; [|done].
    cbn. intros; simplify_eq. apply Hnat in Hn. simpl. lia.
  - destruct (json.match_natural (c :: s')) as [[ds r']|] eqn:Hn; [|done].
    cbn. intros; simplify_eq. by apply Hnat in Hn.
Qed.

Lemma match_number_in_reach s :
  short_integers L (length s) →
  json_limited.match_number L s = Ok <$> json.match_number s.
Proof.
  intros Hi. unfold json_limited.match_number, json.match_number.
  destruct (json.match_integer s) as [[[neg digits] r1]|] eqn:Hm; [|done].
  apply match_integer_digits in Hm.
  destruct (json.match_frac r1) as [frac r2].
  destruct (json.match_exp r2) as [exp r3].
  destruct frac, exp; try done.
  replace (json_limited.int_too_long L digits) with false; [done|].
  symmetry. unfold json_limited.int_too_long.
  unfold short_integers in Hi.
  destruct (Nat.ltb_spec 640 (length digits)); [|done].
  destruct (Nat.ltb_spec 0 (int_max_str_digits L)); [|done].
  destruct (Nat.ltb_spec (int_max_str_digits L) (length digits)); [lia|done].
Qed.

Lemma safe_raise_errmsg {A} levels msg :
  (error_levels L ≤ levels)%nat →
  safe (A:=A) (json_limited.raise_errmsg L levels msg).
Proof. intros Hl. by rewrite raise_errmsg_in_reach. Qed.

Lemma limited_safe fuel : ∀ levels,
  (∀ s, (3 * length s + 1 ≤ fuel)%nat →
        (length s + error_levels L ≤ levels)%nat →
        short_integers L (length s) →
        safe (json_limited.scan_once L fuel levels s))
  ∧ (∀ s, (3 * length s + 3 ≤ fuel)%nat →
          (length s + error_levels L ≤ levels)%nat →
          short_integers L (length s) →
          safe (json_limited.JSONObject L fuel levels s))
  ∧ (∀ s pairs, (3 * length s + 5 ≤ fuel)%nat →
          (length s + error_levels L ≤ levels)%nat →
          short_integers L (length s) →
          safe (json_limited.object_loop L fuel levels s pairs))
  ∧ (∀ s, (3 * length s + 3 ≤ fuel)%nat →
          (length s + error_levels L ≤ levels)%nat →
          short_integers L (length s) →
          safe (json_limited.JSONArray L fuel levels s))
  ∧ (∀ s values, (3 * length s + 2 ≤ fuel)%nat →
          (length s + error_levels L ≤ levels)%nat →
          short_integers L (length s) →
          safe (json_limited.array_loop L fuel levels s values)).
Proof.
  induction fuel as [|fuel IH]; intros levels.
  { split_and!; intros; lia. }
  pose proof (IH levels) as (IHscan & IHobj & IHoloop & IHarr & IHaloop).
  destruct (fuel_enough fuel) as (Hgood & _).
  destruct (limited_agrees fuel levels) as (Hagree & _).
  split_and!.
  - intros s Hf Hl Hi. cbn [json_limited.scan_once].
    destruct s as [|c s']; [done|]. simpl length in Hf, Hl.
    destruct (c =? 34)%N.
    { rewrite scanstring_in_reach by lia.
      destruct (json.scanstring s') as [[x r]|e] eqn:Hs; [done|].
      destruct (scanstring_errors _ _ Hs) as [msg ->]. done. }
    destruct (c =? 123)%N.
    { destruct levels as [|levels]; [lia|]. apply IH; [lia..|].
      eapply short_integers_mono; [done|simpl; lia]. }
    destruct (c =? 91)%N.
    { destruct levels as [|levels]; [lia|]. apply IH; [lia..|].
      eapply short_integers_mono; [done|simpl; lia]. }
    destruct (startswith (c :: s') (py "null")); [done|].
    destruct (startswith (c :: s') (py "true")); [done|].
    destruct (startswith (c :: s') (py "false")); [done|].
    rewrite match_number_in_reach by done.
    destruct (json.match_number (c :: s')) as [vr|]; [done|]. cbn.
    destruct levels as [|levels]; [lia|]. cbn.
    repeat (match goal with |- context [if ?b then _ else _] => destruct b end;
            [done|]).
    done.
  - intros s Hf Hl Hi. cbn [json_limited.JSONObject].
    pose proof (skip_ws_length s) as Hw.
    destruct (json.skip_ws s) as [|c r]; [apply safe_raise_errmsg; lia|].
    simpl in Hw.
    destruct (c =? 125)%N; [done|].
    destruct (c =? 34)%N; [|apply safe_raise_errmsg; lia].
    apply IHoloop; [lia..|]. eapply short_integers_mono; [done|lia].
  - intros s pairs Hf Hl Hi. cbn [json_limited.object_loop].
    rewrite scanstring_in_reach by lia.
    destruct (scanstring_good s) as [_ Hs2].
    destruct (json.scanstring s) as [[key r]|e] eqn:Hs; cbn.
    2:{ destruct (scanstring_errors _ _ Hs) as [msg ->]. done. }
    specialize (Hs2 _ _ eq_refl).
    pose proof (skip_ws_length r) as Hw.
    destruct (json.skip_ws r) as [|c r1]; [apply safe_raise_errmsg; lia|].
    simpl in Hw.
    destruct (c =? 58)%N; [|apply safe_raise_errmsg; lia].
    pose proof (skip_ws_length r1) as Hw1.
    pose proof (IHscan (json.skip_ws r1)) as Hsafe.
    pose proof (Hagree (json.skip_ws r1)) as Ha.
    destruct (Hgood (json.skip_ws r1)) as [_ Hv2]; [lia|].
    destruct (json_limited.scan_once L fuel levels (json.skip_ws r1))
      as [[value r2]|e]; cbn.
    2:{ apply Hsafe; [lia..|]. eapply short_integers_mono; [done|lia]. }
    cbn in Ha. specialize (Hv2 _ _ Ha).
    pose proof (skip_ws_length r2) as Hw2.
    destruct (json.skip_ws r2) as [|d r3]; [apply safe_raise_errmsg; lia|].
    simpl in Hw2.
    destruct (d =? 125)%N; [done|].
    destruct (d =? 44)%N; [|apply safe_raise_errmsg; lia].
    pose proof (skip_ws_length r3) as Hw3.
    destruct (json.skip_ws r3) as [|q r4]; [apply safe_raise_errmsg; lia|].
    simpl in Hw3.
    destruct (q =? 34)%N; [|apply safe_raise_errmsg; lia].
    apply IHoloop; [lia..|]. eapply short_integers_mono; [done|lia].
  - intros s Hf Hl Hi. cbn [json_limited.JSONArray].
    pose proof (skip_ws_length s) as Hw.
    destruct (json.skip_ws s) as [|c r].
    + apply IHaloop; [simpl; lia..|].
      eapply short_integers_mono; [done|simpl; lia].
    + simpl in Hw. destruct (c =? 93)%N; [done|].
      apply IHaloop; [simpl; lia..|].
      eapply short_integers_mono; [done|simpl; lia].
  - intros s values Hf Hl Hi. cbn [json_limited.array_loop].
    pose proof (IHscan s) as Hsafe.
    pose proof (Hagree s) as Ha.
    destruct (Hgood s) as [_ Hv2]; [lia|].
    destruct (json_limited.scan_once L fuel levels s) as [[value r]|e]; cbn.
    2:{ by apply Hsafe; [lia..|]. }
    cbn in Ha. specialize (Hv2 _ _ Ha).
    pose proof (skip_ws_length r) as Hw.
    destruct (json.skip_ws r) as [|c r1]; [apply safe_raise_errmsg; lia|].
    simpl in Hw.
    destruct (c =? 93)%N; [done|].
    destruct (c =? 44)%N; [|apply safe_raise_errmsg; lia].
    pose proof (skip_ws_length r1) as Hw1.
    apply IHaloop; [lia..|]. eapply short_integers_mono; [done|lia].
Qed.

Lemma loads_safe s : out_of_reach L s → safe (json_limited.loads L s).
Proof.
  intros [Hr Hi]. unfold json_limited.loads.
  destruct (recursion_remaining L) as [|[|inner]]; [lia..|].
  destruct (startswith s [65279%N]); [apply safe_raise_errmsg; lia|].
  unfold json_limited.decode. destruct inner as [|inner]; [lia|].
  unfold json_limited.raw_decode. destruct inner as [|inner]; [lia|].
  pose proof (skip_ws_length s) as Hw.
  destruct (limited_safe (3 * length (json.skip_ws s) + 3) inner)
    as (Hsafe & _).
  specialize (Hsafe (json.skip_ws s) ltac:(lia) ltac:(lia)
                (short_integers_mono _ _ _ Hi Hw)).
  destruct (json_limited.scan_once L _ inner (json.skip_ws s))
    as [[obj r]|e]; cbn [mbind result_bind].
  - destruct (json.skip_ws r); [done|apply safe_raise_errmsg; lia].
  - destruct e; try done; try by destruct Hsafe.
    rewrite !raise_errmsg_in_reach by lia. by cbn.
Qed.

(** Where the limits are out of reach, [json.loads] within limits is the
    decoder without limits. *)
Lemma loads_out_of_reach s :
  out_of_reach L s → json_limited.loads L s = json.loads s.
Proof.
  intros Hs. destruct (loads_safe s Hs) as [Hrec Hval].
  destruct (limited_loads_outcomes s)
    as [(v & -> & ->)|[(msg & -> & ->)|[?|?]]]; done.
Qed.

(** **** Fuel is never what ends a call *)

Lemma limited_fuel_mono fuel : ∀ fuel' levels, (fuel ≤ fuel')%nat →
  (∀ s, json.scan_once fuel s ≠ Raise RecursionError →
        json_limited.scan_once L fuel' levels s
        = json_limited.scan_once L fuel levels s)
  ∧ (∀ s, json.JSONObject fuel s ≠ Raise RecursionError →
          json_limited.JSONObject L fuel' levels s
          = json_limited.JSONObject L fuel levels s)
  ∧ (∀ s pairs, json.object_loop fuel s pairs ≠ Raise RecursionError →
          json_limited.object_loop L fuel' levels s pairs
          = json_limited.object_loop L fuel levels s pairs)
  ∧ (∀ s, json.JSONArray fuel s ≠ Raise RecursionError →
          json_limited.JSONArray L fuel' levels s
          = json_limited.JSONArray L fuel levels s)
  ∧ (∀ s values, json.array_loop fuel s values ≠ Raise RecursionError →
          json_limited.array_loop L fuel' levels s values
          = json_limited.array_loop L fuel levels s values).
Proof.
  induction fuel as [|fuel IH]; intros fuel' levels Hle.
  { split_and!; intros; by cbn in *. }
  destruct fuel' as [|fuel']; [lia|].
  pose proof (IH fuel' levels ltac:(lia))
    as (IHscan & IHobj & IHoloop & IHarr & IHaloop).
  destruct (limited_agrees fuel levels) as (Hagree & _).
  split_and!.
  - intros s. cbn [json.scan_once json_limited.scan_once].
    destruct s as [|c s']; [done|].
    destruct (c =? 34)%N; [done|].
    destruct (c =? 123)%N.
    { destruct levels as [|levels]; [done|].
      intros Hne. by apply (IH fuel' levels ltac:(lia)). }
    destruct (c =? 91)%N; [|done].
    destruct levels as [|levels]; [done|].
    intros Hne. by apply (IH fuel' levels ltac:(lia)).
  - intros s. cbn [json.JSONObject json_limited.JSONObject].
    destruct (json.skip_ws s) as [|c r]; [done|].
    destruct (c =? 125)%N; [done|].
    destruct (c =? 34)%N; [apply IHoloop|done].
  - intros s pairs. cbn [json.object_loop json_limited.object_loop].
    unfold json_limited.scanstring.
    destruct (json.scanstring s) as [[key r]|e] eqn:Hs;
      cbn [mbind result_bind].
    2:{ intros _. destruct (scanstring_errors _ _ Hs) as [msg ->].
        unfold json_limited.raise_errmsg. by destruct (_ <? _)%nat. }
    destruct (json.skip_ws r) as [|c r1]; [done|].
    destruct (c =? 58)%N; [|done].
    intros Hne.
    assert (json.scan_once fuel (json.skip_ws r1) ≠ Raise RecursionError)
      as Hsub by (intros Hx; by rewrite Hx in Hne).
    rewrite (IHscan _ Hsub).
    pose proof (Hagree (json.skip_ws r1)) as Ha.
    destruct (json_limited.scan_once L fuel levels (json.skip_ws r1))
      as [[value r2]|e]; [|done].
    unfold agrees in Ha. rewrite Ha in Hne.
    cbn [mbind result_bind] in Hne |- *.
    destruct (json.skip_ws r2) as [|d r3]; [done|].
    destruct (d =? 125)%N; [done|].
    destruct (d =? 44)%N; [|done].
    destruct (json.skip_ws r3) as [|q r4]; [done|].
    destruct (q =? 34)%N; [by apply IHoloop|done].
  - intros s. cbn [json.JSONArray json_limited.JSONArray].
    destruct (json.skip_ws s) as [|c r]; [apply IHaloop|].
    destruct (c =? 93)%N; [done|apply IHaloop].
  - intros s values. cbn [json.array_loop json_limited.array_loop].
    intros Hne.
    assert (json.scan_once fuel s ≠ Raise RecursionError)
      as Hsub by (intros Hx; by rewrite Hx in Hne).
    rewrite (IHscan _ Hsub).
    pose proof (Hagree s) as Ha.
    destruct (json_limited.scan_once L fuel levels s)
      as [[value r]|e]; [|done].
    unfold agrees in Ha. rewrite Ha in Hne.
    cbn [mbind result_bind] in Hne |- *.
    destruct (json.skip_ws r) as [|c r1]; [done|].
    destruct (c =? 93)%N; [done|].
    destruct (c =? 44)%N; [by apply IHaloop|done].
Qed.

(** The scanner within limits does with any fuel from [3 * length s + 1]
    on what it does with that much: when it raises [RecursionError], no
    level was left. *)
Lemma limited_fuel_enough fuel levels s :
  (3 * length s + 1 ≤ fuel)%nat →
  json_limited.scan_once L fuel levels s
  = json_limited.scan_once L (3 * length s + 1) levels s.
Proof.
  intros Hle. destruct (limited_fuel_mono _ fuel levels Hle) as (Hm & _).
  apply Hm. destruct (fuel_enough (3 * length s + 1)) as (Hgood & _).
  by apply Hgood.
Qed.

End limited.

Lemma part_of_length (x s : str) : part_of x s → (length x ≤ length s)%nat.
Proof. intros (a & b & ->). rewrite !length_app. lia. Qed.

(** With [json.loads] as the parser, [must_json] ends in one of four
    ways, whatever the interpreter's limits.  It returns the decoded value
    and prints nothing; or it prints the failure notice once and raises
    [JSONDecodeError]; in both it does what the decoder without limits
    does.  Or it raises [RecursionError], or [ValueError], and prints
    nothing.  ([print] itself is taken to succeed.)  Where the limits are
    out of reach of a reply of that length, only the first two remain; so
    it is for the extraction reply of the example run under the
    interpreter's defaults.  Under these defaults a reply of 994 nested
    arrays ends in [RecursionError], an integer of 4301 digits in
    [ValueError]; 993 nested arrays are decoded. *)
Theorem must_json_outcomes :
  (∀ (L : Limits) text,
     (∃ v, must_json (json_limited.loads L) text = ([], Ok v)
           ∧ json.loads (select_object (strip_fence text)) = Ok v)
     ∨ (∃ msg, must_json (json_limited.loads L) text
               = ([failed_to_parse (select_object (strip_fence text))],
                  Raise (JSONDecodeError msg))
               ∧ json.loads (select_object (strip_fence text))
                 = Raise (JSONDecodeError msg))
     ∨ must_json (json_limited.loads L) text = ([], Raise RecursionError)
     ∨ must_json (json_limited.loads L) text = ([], Raise ValueError))
  ∧ (∀ (L : Limits) text,
       out_of_reach L text →
       must_json (json_limited.loads L) text = must_json json.loads text)
  ∧ out_of_reach default_limits reply1
  ∧ must_json (json_limited.loads default_limits)
      (repeat 91%N 994 ++ repeat 93%N 994)
    = ([], Raise RecursionError)
  ∧ must_json (json_limited.loads default_limits) (repeat 49%N 4301)
    = ([], Raise ValueError)
  ∧ must_json (json_limited.loads default_limits)
      (repeat 91%N 993 ++ repeat 93%N 993)
    = ([], Ok (Nat.iter 992 (fun v => PList [v]) (PList []))).
Proof.
  split_and!.
  - intros L text. unfold must_json, parse_or_report.
    destruct (limited_loads_outcomes L (select_object (strip_fence text)))
      as [(v & -> & ->)|[(msg & -> & ->)|[->| ->]]].
    + left. by exists v.
    + right; left. by exists msg.
    + by right; right; left.
    + by right; right; right.
  - intros L text [Hr Hi]. unfold must_json.
    assert (length (select_object (strip_fence text)) ≤ length text)%nat
      as Hlen.
    { apply part_of_length.
      eapply part_of_trans; [apply part_of_select_object|].
      apply part_of_strip_fence. }
    unfold parse_or_report. rewrite loads_out_of_reach; [done|].
    split; [lia|]. by eapply short_integers_mono.
  - split; [|right; left]; apply Nat.leb_le; by vm_compute.
  - by vm_compute.
  - by vm_compute.
  - by vm_compute.
Qed.

(** *** Values *)

(** Induction on a value, with the property at hand for the items of a list
    and the values of a dict. *)
Lemma pyval_ind' (P : pyval → Prop) :
  P PNone → (∀ b, P (PBool b)) → (∀ z, P (PInt z)) → (∀ f, P (PFloat f)) →
  (∀ s, P (PStr s)) →
  (∀ items, Forall P items → P (PList items)) →
  (∀ pairs, Forall (fun kv => P kv.2) pairs → P (PDict pairs)) →
  ∀ v, P v.
Proof.
  intros HN HB HI HF HS HL HD. fix IH 1.
  intros [|b|z|f|s|items|pairs].
  - exact HN.
  - exact (HB b).
  - exact (HI z).
  - exact (HF f).
  - exact (HS s).
  - apply HL. induction items as [|x items IHi]; constructor;
      [exact (IH x)|exact IHi].
  - apply HD. induction pairs as [|[k x] pairs IHp]; constructor;
      [exact (IH x)|exact IHp].
Qed.

Lemma skip_ws_head c s : json.is_ws c = false → json.skip_ws (c :: s) = c :: s.
Proof. intros Hc. cbn. by rewrite Hc. Qed.

Lemma skip_ws_newline_indent n s :
  json.skip_ws (json_encoder.newline_indent n ++ s) = json.skip_ws s.
Proof.
  unfold json_encoder.newline_indent. cbn [app json.skip_ws].
  change (json.is_ws NL) with true. cbv iota.
  induction (2 * n)%nat as [|k IH]; [done|]. cbn [repeat app json.skip_ws].
  change (json.is_ws 32) with true. by cbv iota.
Qed.

Lemma number_end_newline_indent n s :
  number_end (json_encoder.newline_indent n ++ s) = true.
Proof. done. Qed.

Lemma str_of_int_head z :
  ∃ c ds, str_of_int z = c :: ds ∧ (json.is_digit c = true ∨ c = 45%N).
Proof.
  unfold str_of_int. destruct z as [|p|p]; cbn [Z.to_int].
  - exists 48%N, []. by split; [|left].
  - destruct (to_uint_head p) as (c & ds & Hp & _ & Hd & _).
    exists c, ds. by split; [|left].
  - eexists _, _. by split; [|right].
Qed.

Lemma scan_once_number fuel c s v r :
  json.is_digit c = true ∨ c = 45%N →
  json.match_number (c :: s) = Some (v, r) →
  json.scan_once (S fuel) (c :: s) = Ok (v, r).
Proof.
  intros Hc Hn.
  assert ((c =? 34)%N = false ∧ (c =? 123)%N = false ∧ (c =? 91)%N = false
          ∧ (110 =? c)%N = false ∧ (116 =? c)%N = false
          ∧ (102 =? c)%N = false) as (H1 & H2 & H3 & H4 & H5 & H6).
  { destruct Hc as [Hc| ->]; [|done]. unfold json.is_digit in Hc.
    apply andb_true_iff in Hc as [Hlo%N.leb_le Hhi%N.leb_le].
    split_and!; apply N.eqb_neq; lia. }
  cbn [json.scan_once]. rewrite H1, H2, H3.
  change (py "null") with [110; 117; 108; 108]%N.
  change (py "true") with [116; 114; 117; 101]%N.
  change (py "false") with [102; 97; 108; 115; 101]%N.
  cbn [startswith]. rewrite H4, H5, H6. cbn [andb]. by rewrite Hn.
Qed.

Lemma dict_set_fresh pairs key value :
  key ∉ pairs.*1 → dict_set pairs key value = pairs ++ [(key, value)].
Proof.
  induction pairs as [|[k v] pairs IH]; [done|].
  cbn [fmap list_fmap fst]. intros [Hk Hin]%not_elem_of_cons.
  cbn [dict_set app]. rewrite decide_False by done. by rewrite IH.
Qed.

Lemma scan_once_null fuel r :
  json.scan_once (S fuel) (py "null" ++ r) = Ok (PNone, r).
Proof.
  pose proof (startswith_app (py "null") r) as Hs.
  change (py "null" ++ r) with (110 :: 117 :: 108 :: 108 :: r)%N in *.
  cbn [json.scan_once]. cbn [N.eqb Pos.eqb]. by rewrite Hs.
Qed.

Lemma scan_once_true fuel r :
  json.scan_once (S fuel) (py "true" ++ r) = Ok (PBool true, r).
Proof.
  pose proof (startswith_app (py "true") r) as Hs.
  change (py "true" ++ r) with (116 :: 114 :: 117 :: 101 :: r)%N in *.
  cbn [json.scan_once]. cbn [N.eqb Pos.eqb]. rewrite Hs.
  change (py "null") with [110; 117; 108; 108]%N.
  by cbn [startswith N.eqb Pos.eqb andb].
Qed.

Lemma scan_once_false fuel r :
  json.scan_once (S fuel) (py "false" ++ r) = Ok (PBool false, r).
Proof.
  pose proof (startswith_app (py "false") r) as Hs.
  change (py "false" ++ r) with (102 :: 97 :: 108 :: 115 :: 101 :: r)%N in *.
  cbn [json.scan_once]. cbn [N.eqb Pos.eqb]. rewrite Hs.
  change (py "null") with [110; 117; 108; 108]%N.
  change (py "true") with [116; 114; 117; 101]%N.
  by cbn [startswith N.eqb Pos.eqb andb].
Qed.

Lemma join_head sep a l t : ∃ t', join sep (a :: l) ++ t = a ++ t'.
Proof.
  destruct l as [|b l]; [by exists t|].
  rewrite join_cons, <- app_assoc. by eexists.
Qed.

Lemma skip_ws_comma t : json.skip_ws (py "," ++ t) = 44%N :: t.
Proof. done. Qed.

Section RoundTrip.
Variable floatstr : str → str.

Local Abbreviation enc := (json_encoder.iterencode floatstr false).

Lemma iterencode_list x items level :
  enc (PList (x :: items)) level
  = py "[" ++ json_encoder.newline_indent (S level)
    ++ join (py "," ++ json_encoder.newline_indent (S level))
         (map (fun y => enc y (S level)) (x :: items))
    ++ json_encoder.newline_indent level ++ py "]".
Proof. done. Qed.

Lemma iterencode_dict kv pairs level :
  enc (PDict (kv :: pairs)) level
  = py "{" ++ json_encoder.newline_indent (S level)
    ++ join (py "," ++ json_encoder.newline_indent (S level))
         (map (fun kv => json_encoder.encode_str false (fst kv) ++ py ": "
                         ++ enc (snd kv) (S level)) (kv :: pairs))
    ++ json_encoder.newline_indent level ++ py "}".
Proof. done. Qed.

Lemma iterencode_head v level :
  float_free v = true →
  ∃ c t, enc v level = c :: t ∧ json.is_ws c = false
         ∧ (c =? 93)%N = false ∧ (c =? 65279)%N = false.
Proof.
  intros Hv. destruct v as [|[]|z|f|s|[|x items]|[|kv pairs]]; try done;
    try by (eexists _, _; split; [reflexivity|done]).
  cbn [json_encoder.iterencode].
  destruct (str_of_int_head z) as (c & ds & -> & Hc). exists c, ds.
  split; [done|]. destruct Hc as [Hc| ->]; [|done].
  unfold json.is_digit in Hc.
  apply andb_true_iff in Hc as [Hlo%N.leb_le Hhi%N.leb_le].
  unfold json.is_ws. split_and!; [|apply N.eqb_neq; lia..].
  repeat (apply orb_false_iff; split); apply N.eqb_neq; lia.
Qed.

Lemma skip_ws_iterencode v level s :
  float_free v = true → json.skip_ws (enc v level ++ s) = enc v level ++ s.
Proof.
  intros Hv. destruct (iterencode_head v level Hv) as (c & t & -> & Hc & _).
  by apply skip_ws_head.
Qed.

Lemma array_loop_items level r items :
  Forall (fun x => float_free x = true
                   ∧ ∀ level r, number_end r = true →
                       ∃ fuel, json.scan_once fuel (enc x level ++ r)
                               = Ok (x, r)) items →
  items ≠ [] →
  ∀ values,
    ∃ fuel,
      json.array_loop fuel
        (join (py "," ++ json_encoder.newline_indent (S level))
           (map (fun y => enc y (S level)) items)
         ++ json_encoder.newline_indent level ++ py "]" ++ r) values
      = Ok (PList (values ++ items), r).
Proof.
  induction 1 as [|x items [Hx Hread] Hitems IH]; [done|]. intros _ values.
  destruct items as [|y items].
  - cbn [map join].
    destruct (Hread (S level) (json_encoder.newline_indent level ++ py "]" ++ r))
      as [fuel Hs]; [done|].
    exists (S fuel). cbn [json.array_loop]. rewrite Hs.
    cbn [mbind result_bind]. by rewrite skip_ws_newline_indent.
  - remember (join (py "," ++ json_encoder.newline_indent (S level))
                (map (fun y => enc y (S level)) (y :: items))
              ++ json_encoder.newline_indent level ++ py "]" ++ r)
      as rest eqn:Hrest.
    assert (json.skip_ws rest = rest) as Hskip.
    { apply Forall_cons in Hitems as [[Hy _] _]. subst rest. cbn [map].
      destruct (join_head (py "," ++ json_encoder.newline_indent (S level))
                  (enc y (S level)) (map (fun y => enc y (S level)) items)
                  (json_encoder.newline_indent level ++ py "]" ++ r))
        as [t ->].
      by apply skip_ws_iterencode. }
    destruct (Hread (S level)
                (py "," ++ json_encoder.newline_indent (S level) ++ rest))
      as [fuel1 Hs]; [done|].
    destruct (IH ltac:(done) (values ++ [x])) as [fuel2 Hl].
    exists (S (fuel1 `max` fuel2)). cbn [json.array_loop map].
    rewrite join_cons, <- !app_assoc. cbn [map] in Hrest. rewrite <- Hrest.
    rewrite (scan_once_more_fuel _ (fuel1 `max` fuel2) _ _ _ Hs) by lia.
    cbn [mbind result_bind]. rewrite skip_ws_comma.
    change (44 =? 93)%N with false. change (44 =? 44)%N with true. cbv iota.
    rewrite skip_ws_newline_indent, Hskip.
    rewrite (array_loop_more_fuel _ (fuel1 `max` fuel2) _ _ _ _ Hl) by lia.
    by rewrite <- app_assoc.
Qed.

Lemma item_text k x level t :
  json_encoder.encode_str false k ++ py ": " ++ enc x level ++ t
  = 34%N :: concat (map json_encoder.escape_plain k)
    ++ 34%N :: 58%N :: 32%N :: enc x level ++ t.
Proof.
  unfold json_encoder.encode_str. rewrite <- !app_assoc. done.
Qed.

Lemma items_text level kv pairs t :
  ∃ t',
    join (py "," ++ json_encoder.newline_indent (S level))
      (map (fun kv => json_encoder.encode_str false (fst kv) ++ py ": "
                      ++ enc (snd kv) (S level)) (kv :: pairs)) ++ t
    = 34%N :: t'.
Proof.
  cbn [map].
  destruct (join_head (py "," ++ json_encoder.newline_indent (S level))
              (json_encoder.encode_str false kv.1 ++ py ": "
               ++ enc kv.2 (S level))
              (map (fun kv => json_encoder.encode_str false (fst kv) ++ py ": "
                              ++ enc (snd kv) (S level)) pairs) t) as [t' ->].
  rewrite <- !app_assoc, item_text. by eexists.
Qed.

Lemma object_loop_item fuel k x level t acc :
  float_free x = true →
  k ∉ acc.*1 →
  json.scan_once fuel (enc x level ++ t) = Ok (x, t) →
  json.object_loop (S fuel)
    (concat (map json_encoder.escape_plain k)
     ++ 34%N :: 58%N :: 32%N :: enc x level ++ t) acc
  = match json.skip_ws t with
    | d :: r3 =>
        if (d =? 125)%N then Ok (PDict (acc ++ [(k, x)]), r3)
        else if (d =? 44)%N then
          match json.skip_ws r3 with
          | q :: r4 =>
              if (q =? 34)%N then json.object_loop fuel r4 (acc ++ [(k, x)])
              else Raise json.expecting_name
          | [] => Raise json.expecting_name
          end
        else Raise json.expecting_comma
    | [] => Raise json.expecting_comma
    end.
Proof.
  intros Hx Hk Hs. cbn [json.object_loop].
  assert (json.scanstring (concat (map json_encoder.escape_plain k)
                           ++ 34%N :: 58%N :: 32%N :: enc x level ++ t)
          = Ok (k, 58%N :: 32%N :: enc x level ++ t)) as ->.
  { apply scanstring_encode_str. }
  cbn [mbind result_bind]. rewrite (skip_ws_head 58) by done.
  change (58 =? 58)%N with true. cbv iota.
  change (json.skip_ws (32%N :: ?u)) with (json.skip_ws u).
  rewrite skip_ws_iterencode, Hs by done. cbn [mbind result_bind].
  by rewrite dict_set_fresh.
Qed.

Lemma object_loop_pairs level r pairs :
  Forall (fun kv => float_free kv.2 = true
                    ∧ ∀ level r, number_end r = true →
                        ∃ fuel, json.scan_once fuel (enc kv.2 level ++ r)
                                = Ok (kv.2, r)) pairs →
  pairs ≠ [] →
  ∀ acc, NoDup ((acc ++ pairs).*1) →
    ∃ fuel,
      json.object_loop fuel
        (drop 1
           (join (py "," ++ json_encoder.newline_indent (S level))
              (map (fun kv => json_encoder.encode_str false (fst kv) ++ py ": "
                              ++ enc (snd kv) (S level)) pairs)
            ++ json_encoder.newline_indent level ++ py "}" ++ r)) acc
      = Ok (PDict (acc ++ pairs), r).
Proof.
  induction 1 as [|[k x] pairs [Hx Hread] Hpairs IH]; [done|].
  intros _ acc Hdup. cbn [fst snd] in *.
  assert (k ∉ acc.*1) as Hk.
  { rewrite fmap_app in Hdup. apply NoDup_app in Hdup as (_ & Hd & _).
    intros Hin. apply (Hd _ Hin). cbn. left. }
  destruct pairs as [|kv2 pairs].
  - cbn [map join]. rewrite <- !app_assoc, item_text.
    cbn [drop fst snd]. rewrite drop_0.
    destruct (Hread (S level) (json_encoder.newline_indent level ++ py "}" ++ r))
      as [fuel Hs]; [done|].
    exists (S fuel). rewrite (object_loop_item _ _ _ _ _ _ Hx Hk Hs).
    by rewrite skip_ws_newline_indent.
  - remember (join (py "," ++ json_encoder.newline_indent (S level))
                (map (fun kv => json_encoder.encode_str false (fst kv) ++ py ": "
                                ++ enc (snd kv) (S level)) (kv2 :: pairs))
              ++ json_encoder.newline_indent level ++ py "}" ++ r)
      as rest eqn:Hrest.
    assert (∃ t, rest = 34%N :: t) as [t Ht].
    { subst rest. apply items_text. }
    destruct (Hread (S level)
                (py "," ++ json_encoder.newline_indent (S level) ++ rest))
      as [fuel1 Hs]; [done|].
    destruct (IH ltac:(done) (acc ++ [(k, x)])) as [fuel2 Hl].
    { by rewrite <- app_assoc. }
    exists (S (fuel1 `max` fuel2)). cbn [map].
    rewrite join_cons, <- !app_assoc. cbn [map] in Hrest. rewrite <- Hrest.
    rewrite item_text. cbn [drop fst snd]. rewrite drop_0.
    apply (scan_once_more_fuel _ (fuel1 `max` fuel2)) in Hs; [|lia].
    rewrite (object_loop_item _ _ _ _ _ _ Hx Hk Hs).
    rewrite skip_ws_comma.
    change (44 =? 125)%N with false. change (44 =? 44)%N with true. cbv iota.
    rewrite skip_ws_newline_indent, Ht, (skip_ws_head 34) by done.
    change (34 =? 34)%N with true. cbv iota.
    rewrite Ht in Hl. cbn [drop] in Hl. rewrite drop_0 in Hl.
    rewrite (object_loop_more_fuel _ (fuel1 `max` fuel2) _ _ _ _ Hl) by lia.
    by rewrite <- app_assoc.
Qed.

(** The decoder reads a serialized value back, up to what follows it. *)
Lemma scan_once_iterencode v :
  float_free v = true → unique_keys v = true →
  ∀ level r, number_end r = true →
    ∃ fuel, json.scan_once fuel (enc v level ++ r) = Ok (v, r).
Proof.
  induction v as [|b|z|f|s|items IH|pairs IH] using pyval_ind';
    intros Hf Hu level r Hr.
  - exists 1%nat. apply scan_once_null.
  - exists 1%nat. destruct b; [apply scan_once_true|apply scan_once_false].
  - exists 1%nat. cbn [json_encoder.iterencode].
    destruct (str_of_int_head z) as (c & ds & Hz & Hc).
    pose proof (match_number_str_of_int z r Hr) as Hn. rewrite Hz in Hn |- *.
    by apply scan_once_number.
  - done.
  - exists 1%nat. cbn [json_encoder.iterencode json.scan_once].
    unfold json_encoder.encode_str. cbn [app json.scan_once].
    change (34 =? 34)%N with true. cbv iota.
    rewrite <- app_assoc. cbn [app].
    by rewrite scanstring_encode_str.
  - destruct items as [|x items]; [by exists 2%nat|].
    cbn [float_free unique_keys] in Hf, Hu.
    rewrite forallb_forall in Hf, Hu. rewrite Forall_forall in IH.
    destruct (array_loop_items level r (x :: items)) with (values := @nil pyval)
      as [fuel Hl]; [|done|].
    { apply Forall_forall. intros y Hy. apply list_elem_of_In in Hy as Hy'.
      split; [by apply Hf|]. intros l t Ht.
      apply (IH y Hy); [by apply Hf|by apply Hu|done]. }
    exists (S (S fuel)). rewrite iterencode_list, <- !app_assoc.
    cbn [app json.scan_once json.JSONArray].
    change (py "[" ++ ?t) with (91%N :: t). cbn [json.scan_once json.JSONArray].
    change (91 =? 34)%N with false. change (91 =? 123)%N with false.
    change (91 =? 91)%N with true. cbv iota.
    rewrite skip_ws_newline_indent. cbn [map] in Hl |- *.
    destruct (join_head (py "," ++ json_encoder.newline_indent (S level))
                (enc x (S level)) (map (fun y => enc y (S level)) items)
                (json_encoder.newline_indent level ++ py "]" ++ r))
      as [t Ht].
    rewrite Ht in Hl |- *.
    destruct (iterencode_head x (S level)) as (c & u & Hx & Hw & H93 & _).
    { apply Hf. by left. }
    rewrite Hx in Hl |- *. cbn [app] in Hl |- *.
    rewrite skip_ws_head by done. by rewrite H93.
  - destruct pairs as [|kv pairs]; [by exists 2%nat|].
    cbn [float_free unique_keys] in Hf, Hu.
    apply andb_true_iff in Hu as [Hdup%bool_decide_eq_true_1 Hu].
    rewrite forallb_forall in Hf, Hu. rewrite Forall_forall in IH.
    destruct (object_loop_pairs level r (kv :: pairs)) with (acc := @nil (str * pyval))
      as [fuel Hl]; [|done|done|].
    { apply Forall_forall. intros y Hy. apply list_elem_of_In in Hy as Hy'.
      split; [by apply Hf|]. intros l t Ht.
      apply (IH y Hy); [by apply Hf|by apply Hu|done]. }
    exists (S (S fuel)). rewrite iterencode_dict, <- !app_assoc.
    change (py "{" ++ ?t) with (123%N :: t). cbn [json.scan_once json.JSONObject].
    change (123 =? 34)%N with false. change (123 =? 123)%N with true. cbv iota.
    rewrite skip_ws_newline_indent.
    destruct (items_text level kv pairs
                (json_encoder.newline_indent level ++ py "}" ++ r)) as [t Ht].
    rewrite Ht in Hl |- *. cbn [drop] in Hl. rewrite drop_0 in Hl.
    rewrite skip_ws_head by done.
    change (34 =? 125)%N with false. change (34 =? 34)%N with true. by cbv iota.
Qed.

End RoundTrip.

(** *** Decoded values repeat no key *)

Lemma dict_set_keys pairs key value :
  (dict_set pairs key value).*1
  = if decide (key ∈ pairs.*1) then pairs.*1 else pairs.*1 ++ [key].
Proof.
  induction pairs as [|[k v] pairs IH]; [done|].
  cbn [dict_set fmap list_fmap fst].
  destruct (decide (k = key)) as [->|Hk].
  - cbn [fmap list_fmap fst]. rewrite decide_True; [done|left].
  - cbn [fmap list_fmap fst]. fold (fmap (M:=list) (@fst str pyval)).
    rewrite IH. destruct (decide (key ∈ pairs.*1)) as [Hin|Hin].
    + rewrite decide_True; [done|by right].
    + rewrite decide_False; [done|].
      intros [?|?]%elem_of_cons; [by subst|done].
Qed.

Lemma dict_set_unique_keys pairs key value :
  unique_keys (PDict pairs) = true → unique_keys value = true →
  unique_keys (PDict (dict_set pairs key value)) = true.
Proof.
  cbn [unique_keys]. intros [Hdup%bool_decide_eq_true_1 Hall]%andb_true_iff Hv.
  apply andb_true_iff. split.
  - apply bool_decide_eq_true_2. rewrite dict_set_keys.
    destruct (decide (key ∈ pairs.*1)) as [Hin|Hin]; [done|].
    apply NoDup_app. split_and!; [done| |apply NoDup_singleton].
    by intros k Hk ->%list_elem_of_singleton.
  - clear Hdup. induction pairs as [|[k v] pairs IH].
    + cbn. by rewrite Hv.
    + cbn [forallb snd] in Hall. apply andb_true_iff in Hall as [Hkv Hall].
      cbn [dict_set]. destruct (decide (k = key)); cbn [forallb snd].
      * by rewrite Hv, Hall.
      * by rewrite Hkv, IH.
Qed.

Lemma decoded_unique_keys fuel :
  (∀ s v r, json.scan_once fuel s = Ok (v, r) → unique_keys v = true)
  ∧ (∀ s v r, json.JSONObject fuel s = Ok (v, r) → unique_keys v = true)
  ∧ (∀ s pairs v r, json.object_loop fuel s pairs = Ok (v, r) →
       unique_keys (PDict pairs) = true → unique_keys v = true)
  ∧ (∀ s v r, json.JSONArray fuel s = Ok (v, r) → unique_keys v = true)
  ∧ (∀ s values v r, json.array_loop fuel s values = Ok (v, r) →
       forallb unique_keys values = true → unique_keys v = true).
Proof.
  induction fuel as [|fuel (IHscan & IHobj & IHoloop & IHarr & IHaloop)].
  { split_and!; intros; by cbn in *. }
  split_and!.
  - intros s v r. cbn [json.scan_once]. destruct s as [|c s']; [done|].
    destruct (c =? 34)%N.
    { destruct (json.scanstring s') as [[x r']|]; cbn; [|done].
      by intros [= <- _]. }
    destruct (c =? 123)%N; [apply IHobj|].
    destruct (c =? 91)%N; [apply IHarr|].
    repeat (match goal with
            | |- context [if ?b then _ else _] => destruct b
            end; [by intros [= <- _]|]).
    destruct (json.match_number (c :: s')) as [[v' r']|] eqn:Hn.
    { intros [= <- _].
      by apply match_number_value in Hn as [[z ->]|[f ->]]. }
    repeat (match goal with
            | |- context [if ?b then _ else _] => destruct b
            end; [by intros [= <- _]|]).
    done.
  - intros s v r. cbn [json.JSONObject].
    destruct (json.skip_ws s) as [|c r0]; [done|].
    destruct (c =? 125)%N; [by intros [= <- _]|].
    destruct (c =? 34)%N; [|done]. intros Hl. by eapply IHoloop.
  - intros s pairs v r. cbn [json.object_loop].
    destruct (json.scanstring s) as [[key r0]|]; cbn; [|done].
    destruct (json.skip_ws r0) as [|c r1]; [done|].
    destruct (c =? 58)%N; [|done].
    destruct (json.scan_once fuel (json.skip_ws r1)) as [[value r2]|] eqn:Hs;
      cbn; [|done].
    apply IHscan in Hs.
    destruct (json.skip_ws r2) as [|d r3]; [done|].
    destruct (d =? 125)%N.
    { intros [= <- _] Hp. by apply dict_set_unique_keys. }
    destruct (d =? 44)%N; [|done].
    destruct (json.skip_ws r3) as [|q r4]; [done|].
    destruct (q =? 34)%N; [|done].
    intros Hl Hp. eapply IHoloop; [done|]. by apply dict_set_unique_keys.
  - intros s v r. cbn [json.JSONArray].
    destruct (json.skip_ws s) as [|c r0]; [intros Hl; by eapply IHaloop|].
    destruct (c =? 93)%N; [by intros [= <- _]|].
    intros Hl; by eapply IHaloop.
  - intros s values v r. cbn [json.array_loop].
    destruct (json.scan_once fuel s) as [[value r0]|] eqn:Hs; cbn; [|done].
    apply IHscan in Hs.
    assert (forallb unique_keys values = true →
            forallb unique_keys (values ++ [value]) = true) as Happ.
    { intros Hv. rewrite forallb_app, Hv. cbn. by rewrite Hs. }
    destruct (json.skip_ws r0) as [|c r1]; [done|].
    destruct (c =? 93)%N.
    { intros [= <- _] Hv. cbn [unique_keys]. by apply Happ. }
    destruct (c =? 44)%N; [|done].
    intros Hl Hv. eapply IHaloop; [done|]. by apply Happ.
Qed.

Lemma loads_unique_keys s v : json.loads s = Ok v → unique_keys v = true.
Proof.
  unfold json.loads. destruct (startswith s _); [done|].
  destruct (json.scan_once _ _) as [[obj r]|] eqn:Hs; cbn; [|done].
  destruct (json.skip_ws r); [|done]. intros [= <-].
  destruct (decoded_unique_keys (3 * length s + 3)) as (Hscan & _).
  by eapply Hscan.
Qed.

Lemma must_json_unique_keys text notices v :
  must_json json.loads text = (notices, Ok v) → unique_keys v = true.
Proof.
  unfold must_json, parse_or_report.
  destruct (json.loads _) as [v'|e] eqn:Hl; [|by destruct e].
  intros [= _ <-]. by eapply loads_unique_keys.
Qed.

(** *** What is written is read back *)

Lemma loads_dumps_false floatstr v :
  float_free v = true → unique_keys v = true →
  json.loads (json_encoder.dumps floatstr false v) = Ok v.
Proof.
  intros Hf Hu. unfold json_encoder.dumps.
  destruct (scan_once_iterencode floatstr v Hf Hu 0 []) as [fuel Hs]; [done|].
  rewrite app_nil_r in Hs.
  destruct (iterencode_head floatstr v 0 Hf) as (c & t & Hv & Hw & _ & Hbom).
  apply (loads_of_scan_once fuel); [done| |].
  - rewrite Hv. by apply skip_ws_head.
  - rewrite Hv. cbn [startswith].
    replace (65279 =? c)%N with false; [done|]. by rewrite N.eqb_sym.
Qed.


Lemma user_content_chat_payload w system_prompt user_payload :
  user_content (chat_payload w system_prompt user_payload) = user_payload.
Proof. reflexivity. Qed.

Lemma evidence_values_plain records :
  forallb unique_keys (evidence_value <$> records) = true
  ∧ forallb float_free (evidence_value <$> records) = true.
Proof.
  induction records as [|r records [IH1 IH2]]; [done|].
  cbn [fmap list_fmap forallb]. split; apply andb_true_iff; by split.
Qed.

Section SerializationProperties.
Context `{PyRuntime}.
Variable floatstr : str → str.

Lemma judge_object_plain line_ids_result line_map extracted :
  unique_keys line_ids_result = true →
  main_extracted line_ids_result line_map = Ok extracted →
  unique_keys (judge_object extracted) = true
  ∧ (float_free (not_found extracted) = true →
     float_free (judge_object extracted) = true).
Proof.
  intros Hu (pairs & found1 & found2 & -> & _ & _ & _ & Hnf & _)
    %main_extracted_inv.
  assert (unique_keys (not_found extracted) = true) as Hnfu.
  { rewrite Hnf. cbn [unique_keys] in Hu.
    apply andb_true_iff in Hu as [_ Hu]. clear Hnf.
    induction pairs as [|[k v] pairs IH]; [done|].
    cbn [forallb snd] in Hu. apply andb_true_iff in Hu as [Hv Hu].
    cbn [dict_lookup]. destruct (decide _); [done|by apply IH]. }
  destruct (evidence_values_plain (evidence_quotes extracted)) as [He1 He2].
  split.
  - cbn [judge_object extracted_value unique_keys forallb snd].
    rewrite He1, Hnfu.
    done.
  - intros Hf. cbn [judge_object extracted_value float_free forallb snd].
    by rewrite He2, Hf.
Qed.

(** The judge is sent well-formed JSON.  The user message of every request
    of a run is either the extraction message or the serialization of a
    judge object that repeats no key; when the model's [not_found] value
    holds no float, decoding that message gives back the judge object:
    the study identifier and the verified evidence, nothing lost or
    altered by the serialization. *)
Theorem judge_message_reads_back w url payload :
  EvPost url payload ∈ trace (main floatstr w) →
  (∃ extract_prompt study_text,
     payload = chat_payload w extract_prompt
                 (extract_user_payload (number_lines study_text).1))
  ∨ ∃ judge_prompt extracted,
      payload = chat_payload w judge_prompt
                  (dumps floatstr false (judge_object extracted))
      ∧ unique_keys (judge_object extracted) = true
      ∧ (float_free (not_found extracted) = true →
         json.loads (user_content payload) = Ok (judge_object extracted)).
Proof.
  intros [(p & _ & [?|?])|[[s ?]|Hev]]%main_events; [done..|].
  destruct Hev as (study & ep & jp & schema & Hin & Hev).
  destruct Hev as [Hev|(raw & ids & e & _ & Hids & He & Hev)].
  { injection Hev as -> ->. left. by exists ep, study. }
  destruct Hev as [Hev|(judge_raw & result & _ & _ & [?|[_ [?|[? _]]]])];
    [|done..].
  injection Hev as -> ->. right. exists jp, e.
  apply must_json_unique_keys in Hids.
  destruct (judge_object_plain _ _ _ Hids He) as [Hu Hf].
  split_and!; [done..|]. intros Hnf. rewrite user_content_chat_payload.
  apply loads_dumps_false; [by apply Hf|done].
Qed.

(** The saved file holds the validated result.  What a run writes to the
    output file is the serialization of the value parsed from the reply
    the model gave to the judge request, which [jsonschema.validate]
    accepted against the schema the run loaded; that value repeats no key,
    and when it holds no float, decoding the file content gives the value
    back. *)
Theorem saved_file_reads_back w p content :
  EvWriteText p content ∈ trace (main floatstr w) →
  ∃ schema result,
    judged floatstr w schema result
    ∧ jsonschema_validate w result schema = Done ()
    ∧ content = dumps floatstr false result
    ∧ unique_keys result = true
    ∧ (float_free result = true → json.loads content = Ok result).
Proof.
  intros [(q & _ & [?|?])|[[s ?]|Hev]]%main_events; [done..|].
  destruct Hev as (study & ep & jp & schema & Hin & [?|Hev]); [done|].
  destruct Hev as (raw & ids & e & Hraw & Hids & He & [?|Hev]); [done|].
  destruct Hev
    as (judge_raw & result & Hjraw & Hres & [?|[Hval [?|[Hev Hm]]]]);
    [done..|].
  injection Hev as -> ->. exists schema, result.
  pose proof (must_json_unique_keys _ _ _ Hres) as Hu.
  split_and!; [|done..|].
  - by exists study, ep, jp, raw, ids, e, judge_raw.
  - intros Hf. by apply loads_dumps_false.
Qed.

End SerializationProperties.


Lemma judge_message_reads_back_witness :
  let extracted :=
    mk_extracted STUDY_ID
      [mk_evidence (py "Blinded assessors.") (py "Line 1")
         (py "index_test_blinding");
       mk_evidence (py "Threshold was 5mg.") (py "Line 2") (py "threshold")]
      (PList []) in
  let payload :=
    chat_payload example_world (py "You are a reviewer.")
      (dumps example_floatstr false (judge_object extracted)) in
  (∃ extract_prompt study_text,
     payload = chat_payload example_world extract_prompt
                 (extract_user_payload (number_lines study_text).1))
  ∨ ∃ judge_prompt extracted',
      payload = chat_payload example_world judge_prompt
                  (dumps example_floatstr false (judge_object extracted'))
      ∧ unique_keys (judge_object extracted') = true
      ∧ (float_free (not_found extracted') = true →
         json.loads (user_content payload) = Ok (judge_object extracted')).
Proof.
  intros extracted payload.
  apply (@judge_message_reads_back example_runtime example_floatstr
           example_world (chat_url example_world) payload).
  apply (list_elem_of_lookup_2 _ 11). by vm_compute.
Defined.

Lemma saved_file_reads_back_witness :
  ∃ schema result,
    @judged example_runtime example_floatstr example_world schema result
    ∧ jsonschema_validate example_world result schema = Done ()
    ∧ dumps example_floatstr false verdict1_value
      = dumps example_floatstr false result
    ∧ unique_keys result = true
    ∧ (float_free result = true →
       json.loads (dumps example_floatstr false verdict1_value) = Ok result).
Proof.
  apply (@saved_file_reads_back example_runtime example_floatstr example_world
           OUT_PATH (dumps example_floatstr false verdict1_value)).
  apply (list_elem_of_lookup_2 _ 17). by vm_compute.
Defined.

(** ** No request is made twice *)

Lemma check_files_prefix w paths :
  ∃ n, trace (check_files w paths) = EvExists <$> take n paths.
Proof.
  induction paths as [|p paths [n IH]]; [by exists 0%nat|].
  cbn [check_files]. rewrite trace_bind. cbn [perform trace outcome_of].
  destruct (path_exists w p) as [[]|]; [|by exists 1%nat..].
  exists (S n). by rewrite IH.
Qed.

Lemma required_requests_NoDup :
  NoDup ((EvExists <$> REQUIRED_FILES) ++ (EvReadText <$> REQUIRED_FILES)).
Proof.
  assert (NoDup REQUIRED_FILES) as Hfiles by by apply (bool_decide_unpack _).
  assert (Inj (=) (=) EvExists) by (by intros p q [= ->]).
  assert (Inj (=) (=) EvReadText) by (by intros p q [= ->]).
  apply NoDup_app. split_and!.
  - by apply (NoDup_fmap_2 _).
  - by intros ev (p & -> & _)%list_elem_of_fmap (q & ? & _)%list_elem_of_fmap.
  - by apply (NoDup_fmap_2 _).
Qed.

Lemma main_inputs_requests w :
  ∃ rest, (EvExists <$> REQUIRED_FILES) ++ (EvReadText <$> REQUIRED_FILES)
          = trace (main_inputs w) ++ rest.
Proof.
  unfold main_inputs. rewrite trace_bind.
  destruct (outcome_of (check_files w REQUIRED_FILES)) as [[]|] eqn:Hc.
  - rewrite (check_files_present _ _ (check_files_Done _ _ Hc)).
    cbn [trace]. unfold read_text, perform.
    rewrite trace_bind. cbn [trace outcome_of].
    destruct (path_read_text w STUDY_TEXT_PATH); [|by eexists].
    rewrite trace_bind. cbn [trace outcome_of].
    destruct (path_read_text w EXTRACT_PROMPT_PATH); [|by eexists].
    rewrite trace_bind. cbn [trace outcome_of].
    destruct (path_read_text w JUDGE_PROMPT_PATH); [|by eexists].
    rewrite trace_bind. cbn [trace outcome_of].
    destruct (path_read_text w SCHEMA_PATH); [|by eexists].
    rewrite trace_lift_bind. exists [].
    by destruct (of_result _).
  - destruct (check_files_prefix w REQUIRED_FILES) as [n ->].
    rewrite app_nil_r.
    exists ((EvExists <$> drop n REQUIRED_FILES)
            ++ (EvReadText <$> REQUIRED_FILES)).
    by rewrite app_assoc, <- fmap_app, take_drop.
Qed.

Lemma filter_requests_only t :
  Forall (fun ev => is_request ev) t → filter (fun ev => is_request ev) t = t.
Proof.
  induction 1 as [|ev t Hev _ IH]; [done|].
  by rewrite filter_cons_True, IH.
Qed.

Lemma filter_requests_prints prints :
  filter (fun ev => is_request ev) (EvPrint <$> prints) = [].
Proof.
  induction prints as [|s prints IH]; [done|].
  cbn [fmap list_fmap]. rewrite filter_cons_False; [done|]. by intros [].
Qed.

Lemma main_inputs_NoDup w :
  filter (fun ev => is_request ev) (trace (main_inputs w))
  = trace (main_inputs w)
  ∧ NoDup (trace (main_inputs w)).
Proof.
  split.
  - apply filter_requests_only, Forall_forall.
    by intros ev (p & _ & [->| ->])%main_inputs_events.
  - destruct (main_inputs_requests w) as [rest Hrest].
    pose proof required_requests_NoDup as Hnd. rewrite Hrest in Hnd.
    by apply NoDup_app in Hnd as (? & _).
Qed.

Lemma must_json_run_trace raw :
  ∃ prints, trace (must_json_run raw) = EvPrint <$> prints.
Proof. by eexists. Qed.

(** For a short explicit list of events: no two are equal, and none is a
    file request. *)
Ltac distinct_events :=
  unfold extraction_request, judge_request in *; cbn [app take];
  rewrite ?take_nil;
  split;
  [repeat (apply NoDup_cons; split;
           [rewrite ?elem_of_cons, ?elem_of_nil; intros Hx;
            repeat (destruct Hx as [Hx|Hx]); by try done|]);
   apply NoDup_nil_2
  |intros ev Hev p; rewrite ?elem_of_cons, ?elem_of_nil in Hev;
   repeat (destruct Hev as [Hev|Hev]); by subst].

Section RequestProperties.
Context `{PyRuntime}.
Variable floatstr : str → str.

Lemma main_step1_trace w study_text extract_prompt :
  ∃ prints,
    trace (main_step1 floatstr w study_text extract_prompt)
    = extraction_request w extract_prompt study_text :: (EvPrint <$> prints).
Proof.
  unfold main_step1, extraction_request.
  destruct (number_lines study_text) as [numbered_text line_map].
  cbn [fst snd]. rewrite trace_bind, call_llm_trace.
  destruct (outcome_of (call_llm _ _ _)) as [raw|]; [|by exists []].
  rewrite trace_bind. destruct (must_json_run_trace raw) as [notices ->].
  destruct (outcome_of (must_json_run raw)) as [ids|];
    [|exists notices; by rewrite app_nil_r].
  rewrite trace_bind. cbn [emit trace outcome_of].
  rewrite trace_lift_bind.
  destruct (of_result _) as [e|].
  - eexists (notices ++ [_; _]). rewrite fmap_app. reflexivity.
  - eexists (notices ++ [_]). rewrite fmap_app. reflexivity.
Qed.

Lemma main_step2_trace w judge_prompt extracted :
  ∃ prints,
    trace (main_step2 floatstr w judge_prompt extracted)
    = judge_request floatstr w judge_prompt extracted :: (EvPrint <$> prints).
Proof.
  unfold main_step2, judge_request. rewrite trace_bind, call_llm_trace.
  destruct (outcome_of (call_llm _ _ _)) as [raw|]; [|by exists []].
  rewrite trace_bind. cbn [emit trace outcome_of].
  destruct (must_json_run_trace raw) as [notices ->].
  by exists (judge_raw_message raw :: notices).
Qed.

Lemma main_save_requests w result :
  ∃ k, filter (fun ev => is_request ev) (trace (main_save floatstr w result))
       = take k [EvMkdir OUT_DIR;
                 EvWriteText OUT_PATH (dumps floatstr false result)].
Proof.
  unfold main_save, emit, perform. rewrite !trace_bind. cbn [trace outcome_of].
  destruct (path_mkdir w OUT_DIR) as [[]|]; [|by exists 1%nat].
  destruct (path_write_text w OUT_PATH _) as [[]|]; by exists 2%nat.
Qed.

Lemma posts_differ w extract_prompt study_text judge_prompt extracted :
  extraction_request w extract_prompt study_text
  ≠ judge_request floatstr w judge_prompt extracted.
Proof.
  unfold extraction_request, judge_request. by intros [=].
Qed.

(** [main] asks nothing twice.  Among the requests of a run to the file
    system, the model and the validator (every event but the prints) no
    request occurs twice: each file is looked for once and read once, the
    two model requests differ, and the result is validated and written
    once.  So every answer a run gets is an answer to a new question. *)
Theorem no_request_repeated w :
  NoDup (filter (fun ev => is_request ev) (trace (main floatstr w))).
Proof.
  destruct (main_inputs_NoDup w) as [Hall Hnd].
  assert (∃ rest,
            filter (fun ev => is_request ev) (trace (main floatstr w))
            = trace (main_inputs w) ++ rest
            ∧ NoDup rest
            ∧ ∀ ev, ev ∈ rest → ∀ p, ev ≠ EvExists p ∧ ev ≠ EvReadText p)
    as (rest & -> & Hrest & Hkind).
  { unfold main. rewrite trace_bind, filter_app, Hall.
    destruct (outcome_of (main_inputs w)) as [[[[study ep] jp] schema]|];
      [|exists []; split_and!;
          [done|constructor|by intros ev ?%elem_of_nil]].
    rewrite trace_bind, filter_app.
    destruct (main_step1_trace w study ep) as [pr1 ->].
    rewrite filter_cons_True, filter_requests_prints by done.
    destruct (outcome_of (main_step1 _ _ _ _)) as [e|];
      [|eexists; split; [done|]; distinct_events].
    rewrite trace_bind, filter_app.
    destruct (main_step2_trace w jp e) as [pr2 ->].
    rewrite filter_cons_True, filter_requests_prints by done.
    pose proof (posts_differ w ep study jp e) as Hpost.
    destruct (outcome_of (main_step2 _ _ _ _)) as [result|];
      [|eexists; split; [done|]; distinct_events].
    rewrite trace_bind, filter_app. unfold validate_schema, perform.
    cbn [trace outcome_of]. rewrite filter_cons_True, filter_nil by done.
    destruct (jsonschema_validate w result schema) as [[]|];
      [|eexists; split; [done|]; distinct_events].
    destruct (main_save_requests w result) as [k ->].
    eexists. split; [done|].
    destruct k as [|[|k]]; distinct_events. }
  apply NoDup_app. split_and!; [done| |done].
  intros ev (p & _ & [->| ->])%main_inputs_events Hev;
    by destruct (Hkind _ Hev p).
Qed.

End RequestProperties.

(** ** More on the verified evidence object *)

Section MoreEvidenceProperties.
Context `{PyRuntime}.

(** A study text of whitespace only yields no evidence: whatever the model
    answered to the extraction request, the evidence list [main] builds is
    empty. *)
Theorem blank_study_yields_no_evidence study_text line_ids_result extracted :
  blank study_text →
  main_extracted line_ids_result (number_lines study_text).2 = Ok extracted →
  evidence_quotes extracted = [].
Proof.
  intros Hblank [_ Hg]%main_extracted_grounded.
  destruct (evidence_quotes extracted) as [|r rs]; [done|]. exfalso.
  apply Forall_cons in Hg as [(Hne & (line & _ & Hq) & before & after & Ht) _].
  destruct (quote r) as [|c q] eqn:Hr; [done|].
  assert (isspace c = false) as Hc.
  { apply (strip_head line). by rewrite <- Hq. }
  rewrite Ht in Hblank.
  apply Forall_app in Hblank as [_ [Hc' _]%Forall_app].
  apply Forall_cons in Hc' as [Hc' _]. congruence.
Qed.

(** Only three keys of the extraction reply count.  Two replies that agree
    on [index_test_blinding_line_ids], [threshold_line_ids] and [not_found]
    give the same verified evidence object, or fail alike: whatever else
    the model puts in its reply, a quote of its own making included, has
    no way into the evidence. *)
Theorem evidence_ignores_other_keys pairs pairs' line_map :
  (∀ key, key ∈ [py "index_test_blinding_line_ids"; py "threshold_line_ids";
                 py "not_found"] →
          dict_lookup pairs key = dict_lookup pairs' key) →
  main_extracted (PDict pairs) line_map = main_extracted (PDict pairs') line_map.
Proof.
  intros Hkeys. unfold main_extracted, py_get.
  rewrite !(Hkeys (py "index_test_blinding_line_ids")),
    !(Hkeys (py "threshold_line_ids")), !(Hkeys (py "not_found")); [done|..];
    repeat constructor.
Qed.

End MoreEvidenceProperties.

(** Three lines of spaces and tabs, and the reply of the end-to-end
    scenario. *)
Lemma blank_study_yields_no_evidence_witness :
  evidence_quotes (mk_extracted STUDY_ID [] (PList [])) = [].
Proof.
  apply (@blank_study_yields_no_evidence example_runtime
           (py "  " ++ [NL; 9%N; NL]) reply1_value).
  - by repeat constructor.
  - by vm_compute.
Defined.

(** The reply of the end-to-end scenario, and the same with a quote the
    model made up. *)
Lemma evidence_ignores_other_keys_witness :
  @main_extracted example_runtime
    (PDict [(py "index_test_blinding_line_ids", PList [PInt 1]);
            (py "threshold_line_ids", PList [PInt 2]);
            (py "not_found", PList [])]) (number_lines doc1).2
  = @main_extracted example_runtime
      (PDict [(py "quote", PStr (py "Assessors were fully blinded."));
              (py "index_test_blinding_line_ids", PList [PInt 1]);
              (py "threshold_line_ids", PList [PInt 2]);
              (py "not_found", PList [])]) (number_lines doc1).2.
Proof.
  apply (@evidence_ignores_other_keys example_runtime).
  intros key Hkey.
  apply elem_of_cons in Hkey as [->|Hkey]; [reflexivity|].
  apply elem_of_cons in Hkey as [->|Hkey]; [reflexivity|].
  apply elem_of_cons in Hkey as [->|Hkey]; [reflexivity|].
  by apply elem_of_nil in Hkey.
Defined.
